(** * BaseLayout: attribute tracking and CSS synthesis

    A shallow embedding of [src/elements/base.ts] (class [BaseLayout]) and a
    verification of the properties its specification states about the value
    tracker, the CSS synthesizer and the stylesheet injector.

    Conventions of the embedding:
    - a JavaScript [Map] is an insertion-ordered association list ([JsMap]);
      [set] on a present key keeps the key's position, [set] on a new key
      appends, [delete] removes the key and leaves the other keys in order;
    - the outer [_propertyMap] is only ever accessed through [has]/[get]/[set],
      so it is a [gmap string];
    - a plain JavaScript object whose keys are CSS property names or selectors
      is an association list in insertion order (none of those keys is an
      array index or [__proto__], so [Object.keys] enumerates them in
      insertion order);
    - attribute values are strings or [null], which is [None]; an [undefined]
      array entry is [None]; counts are integers ([Z]);
    - a thrown [TypeError] is the completion [Throw]; the state it leaves
      behind is the state at the point of the throw;
    - the shadow root is the list of its element children; the text assigned
      to [innerHTML] of a style element is the text the element holds, and
      the layout type is a plain identifier. *)

From Stdlib Require Import ZArith Lia String Ascii List Bool.
From stdpp Require Import base option strings list gmap fin_maps.

Local Open Scope Z_scope.
Local Open Scope string_scope.

(** ** Strings *)

Definition SEPARATOR : string := "-".

(** The character [U+0022], used inside attribute selectors. *)
Definition dquote : string := String (ascii_of_nat 34) EmptyString.

(** JavaScript truthiness of a string: every string but the empty one. *)
Definition truthy (s : string) : bool :=
  match s with
  | EmptyString => false
  | String _ _ => true
  end.

(** [s.split(sep)] for a one-character separator, as the first piece and the
    remaining pieces (the result of [split] is never empty). *)
Fixpoint split (sep : ascii) (s : string) : string * list string :=
  match s with
  | EmptyString => (EmptyString, [])
  | String c r =>
      let '(h, t) := split sep r in
      if Ascii.eqb c sep then (EmptyString, h :: t) else (String c h, t)
  end.

(** [pieces.join(sep)]. *)
Fixpoint join (sep : string) (pieces : list string) : string :=
  match pieces with
  | [] => EmptyString
  | [p] => p
  | p :: rest => p +:+ sep +:+ join sep rest
  end.

Definition dash : ascii := ascii_of_nat 45.
Definition dot : ascii := ascii_of_nat 46.

(** [s] contains the character [c]. *)
Fixpoint contains (c : ascii) (s : string) : bool :=
  match s with
  | EmptyString => false
  | String d r => Ascii.eqb d c || contains c r
  end.

(** ** JavaScript [Map<string, V>] in insertion order *)

Module JsMap.
Section Ops.
Context {V : Type}.

Definition t := list (string * V).

Fixpoint get (m : list (string * V)) (k : string) : option V :=
  match m with
  | [] => None
  | (k', v) :: r => if String.eqb k' k then Some v else get r k
  end.

Definition has (m : list (string * V)) (k : string) : bool :=
  match get m k with Some _ => true | None => false end.

Fixpoint set (m : list (string * V)) (k : string) (v : V) : list (string * V) :=
  match m with
  | [] => [(k, v)]
  | (k', v') :: r =>
      if String.eqb k' k then (k', v) :: r else (k', v') :: set r k v
  end.

Fixpoint delete (m : list (string * V)) (k : string) : list (string * V) :=
  match m with
  | [] => []
  | (k', v') :: r =>
      if String.eqb k' k then delete r k else (k', v') :: delete r k
  end.

Definition keys (m : list (string * V)) : list string := map fst m.

Definition size (m : list (string * V)) : nat := length m.
End Ops.
End JsMap.

(** ** CSS values as JavaScript values *)

#[warnings="-register-all"]
Inductive JsVal : Type :=
| JStr (s : string)
| JObj (fields : list (string * JsVal)).

(** Truthiness: only the empty string is falsy among strings and objects. *)
Definition js_truthy (v : JsVal) : bool :=
  match v with
  | JStr s => truthy s
  | JObj _ => true
  end.

(** Truthiness of [v.length]: the length of a string, or the own property
    named [length] of an object ([undefined], falsy, when there is none). *)
Definition length_truthy (v : JsVal) : bool :=
  match v with
  | JStr s => truthy s
  | JObj fs =>
      match JsMap.get fs "length" with
      | Some l => js_truthy l
      | None => false
      end
  end.

(** String conversion inside a template literal. *)
Definition js_to_string (v : JsVal) : string :=
  match v with
  | JStr s => s
  | JObj _ => "[object Object]"
  end.

(** [unwrapCss] of [_attachCss]: a falsy value or a value with a truthy
    [length] is returned as it is; any other object is formatted key by key. *)
Fixpoint unwrapCss (wrapCss : JsVal) : JsVal :=
  match wrapCss with
  | JStr s => JStr s
  | JObj fs =>
      if length_truthy wrapCss then wrapCss
      else
        JStr ((fix loop (formattedCss : string) (fs : list (string * JsVal)) : string :=
                 match fs with
                 | [] => formattedCss
                 | (key, v) :: rest =>
                     let addCss := unwrapCss v in
                     let formattedCss :=
                       if js_truthy addCss then
                         formattedCss +:+
                           (if negb (length_truthy v)
                            then key +:+ " {" +:+ js_to_string addCss +:+ "}"
                            else key +:+ ": " +:+ js_to_string addCss +:+ ";")
                       else formattedCss in
                     loop formattedCss rest
                 end) EmptyString fs)
  end.

(** A declaration bucket: CSS property name to CSS value. *)
Definition Decls : Type := list (string * string).

(** The CSS object of [_buildCss]: selector to declaration bucket. *)
Definition CssObject : Type := list (string * Decls).

Definition decls_to_js (d : Decls) : JsVal :=
  JObj (map (fun kv => (fst kv, JStr (snd kv))) d).

Definition css_to_js (css : CssObject) : JsVal :=
  JObj (map (fun kv => (fst kv, decls_to_js (snd kv))) css).

(** ** Configuration records ([config.ts]) *)

Module Property.
(** Modelled from the spec: the declaration of [Property] lives in
    [config.ts]; its fields are those the code reads ([name], [child],
    [updateFn]) and the specification's [PropertyDescriptor].  [updateFn]
    returns the host fragment and, optionally, the child fragment. *)
Record t : Type := mk {
  name : string;
  child : bool;
  updateFn : string -> string -> Decls * option Decls;
}.
End Property.

Module BreakPointProperty.
(** The fields are those of the literal the constructor assigns to
    [_allBreakpoint].  [properties] is the list of active descriptors of the
    breakpoint; an entry is [None] when [undefined] has been pushed into the
    array. *)
Record t : Type := mk {
  alias : string;
  mediaQuery : string;
  overlapping : bool;
  properties : list (option Property.t);
}.

Definition push (p : option Property.t) (bp : t) : t :=
  mk (alias bp) (mediaQuery bp) (overlapping bp) (properties bp ++ [p]).
End BreakPointProperty.

(** ** The shadow root *)

Inductive Node : Type :=
| StyleElement (id : option string) (innerHTML : string)
| SlotElement.

Definition node_has_id (i : string) (n : Node) : bool :=
  match n with
  | StyleElement (Some j) _ => String.eqb j i
  | _ => false
  end.

Definition is_slot (n : Node) : bool :=
  match n with SlotElement => true | _ => false end.

(** [findIndex]: position of the first element satisfying [f]. *)
Fixpoint findIndex {A : Type} (f : A -> bool) (l : list A) : option nat :=
  match l with
  | [] => None
  | x :: r => if f x then Some O else option_map S (findIndex f r)
  end.

(** [shadowRoot.getElementById(id)], as the position of the element. *)
Definition getElementById (i : string) (root : list Node) : option nat :=
  findIndex (node_has_id i) root.

(** [parent.insertBefore(n, ref)]: [ref] is a position, or [None] for a
    missing reference node, in which case [n] is appended. *)
Definition insertBefore (n : Node) (ref : option nat) (root : list Node) : list Node :=
  match ref with
  | Some i => take i root ++ n :: drop i root
  | None => root ++ [n]
  end.

Definition setInnerHTML (text : string) (n : Node) : Node :=
  match n with
  | StyleElement i _ => StyleElement i text
  | SlotElement => SlotElement
  end.

(** The text of the style block with identifier [i], if there is one. *)
Definition styleText (i : string) (root : list Node) : option string :=
  match getElementById i root with
  | Some k =>
      match root !! k with
      | Some (StyleElement _ text) => Some text
      | _ => None
      end
  | None => None
  end.

(** ** The element instance *)

Record BaseLayout : Type := mkBaseLayout {
  _breakpoints : list BreakPointProperty.t;
  _layoutType : string;
  _allBreakpoint : BreakPointProperty.t;
  _properties : list Property.t;
  _propertyMap : gmap string (list (string * Z));
  shadowRoot : list Node;
}.

Definition with_propertyMap (pm : gmap string (list (string * Z))) (this : BaseLayout) : BaseLayout :=
  mkBaseLayout (_breakpoints this) (_layoutType this) (_allBreakpoint this)
    (_properties this) pm (shadowRoot this).

Definition with_shadowRoot (root : list Node) (this : BaseLayout) : BaseLayout :=
  mkBaseLayout (_breakpoints this) (_layoutType this) (_allBreakpoint this)
    (_properties this) (_propertyMap this) root.

(** The constructor, with the result of [getBps()] as the argument [bps]. *)
Definition constructor (bps : list BreakPointProperty.t) (layoutType : string)
    (properties : list Property.t) : BaseLayout :=
  {| _breakpoints := bps;
     _layoutType := layoutType;
     _allBreakpoint := BreakPointProperty.mk "" "all" false [];
     _properties := properties;
     _propertyMap := ∅;
     shadowRoot :=
       [ StyleElement None ":host {contain: content;}";
         StyleElement (Some (layoutType +:+ "-all"))
           ("@media all {:host {display: " +:+ layoutType +:+ ";}}");
         SlotElement ] |}.

(** ** Methods: state and exceptions *)

Inductive Completion (A : Type) : Type :=
| Normal (a : A)
| Throw.
Arguments Normal {A} a.
Arguments Throw {A}.

Definition M (A : Type) : Type := BaseLayout -> Completion A * BaseLayout.

Definition ret {A : Type} (a : A) : M A := fun this => (Normal a, this).

Definition bind {A B : Type} (m : M A) (k : A -> M B) : M B :=
  fun this =>
    match m this with
    | (Normal a, this') => k a this'
    | (Throw, this') => (Throw, this')
    end.

Definition throw {A : Type} : M A := fun this => (Throw, this).

Definition read {A : Type} (f : BaseLayout -> A) : M A :=
  fun this => (Normal (f this), this).

Definition modify (f : BaseLayout -> BaseLayout) : M unit :=
  fun this => (Normal tt, f this).

Definition lift {A : Type} (c : Completion A) : M A :=
  fun this => (c, this).

Declare Scope js_scope.
Delimit Scope js_scope with js.
Notation "x <- m ;; k" := (bind m (fun x => k))
  (at level 100, m at next level, right associativity) : js_scope.
Notation "m ;;; k" := (bind m (fun _ => k))
  (at level 100, right associativity) : js_scope.
Local Open Scope js_scope.

(** A loop over an array, threading an accumulator. *)
Fixpoint forEach {A S : Type} (body : S -> A -> M S) (l : list A) (acc : S) : M S :=
  match l with
  | [] => ret acc
  | x :: r => acc' <- body acc x ;; forEach body r acc'
  end.

(** A reference to a breakpoint descriptor: an entry of [_breakpoints] or
    the synthetic [_allBreakpoint]. *)
Inductive BpRef : Type :=
| InRegistry (index : nat)
| AllBreakpoint.

Definition deref (r : BpRef) (this : BaseLayout) : BreakPointProperty.t :=
  match r with
  | InRegistry i => default (_allBreakpoint this) (_breakpoints this !! i)
  | AllBreakpoint => _allBreakpoint this
  end.

(** [bp.properties.push(property)] through the reference. *)
Definition pushProperty (r : BpRef) (p : option Property.t) (this : BaseLayout) : BaseLayout :=
  match r with
  | InRegistry i =>
      mkBaseLayout (alter (BreakPointProperty.push p) i (_breakpoints this))
        (_layoutType this) (_allBreakpoint this) (_properties this)
        (_propertyMap this) (shadowRoot this)
  | AllBreakpoint =>
      mkBaseLayout (_breakpoints this) (_layoutType this)
        (BreakPointProperty.push p (_allBreakpoint this)) (_properties this)
        (_propertyMap this) (shadowRoot this)
  end.

Definition _getBreakpointByAlias (alias : string) : M BpRef :=
  fun this =>
    match findIndex (fun b => String.eqb (BreakPointProperty.alias b) alias)
            (_breakpoints this) with
    | Some bpIndex => (Normal (InRegistry bpIndex), this)
    | None => (Normal AllBreakpoint, this)
    end.

(** [findIndex(p => p.name === prop)] over an array that may hold
    [undefined]: reading [.name] of [undefined] throws. *)
Fixpoint findIndexByName (prop : string) (l : list (option Property.t)) : Completion (option nat) :=
  match l with
  | [] => Normal None
  | None :: _ => Throw
  | Some p :: r =>
      if String.eqb (Property.name p) prop then Normal (Some O)
      else
        match findIndexByName prop r with
        | Normal o => Normal (option_map S o)
        | Throw => Throw
        end
  end.

(** [this._properties.find(p => p.name === prop)]. *)
Definition findByName (prop : string) (l : list Property.t) : option Property.t :=
  find (fun p => String.eqb (Property.name p) prop) l.

Definition _getPropertyByName (bp : BpRef) (prop : string) : M (option Property.t * bool) :=
  fun this =>
    match findIndexByName prop (BreakPointProperty.properties (deref bp this)) with
    | Throw => (Throw, this)
    | Normal (Some bpPropIndex) =>
        (Normal (mjoin (BreakPointProperty.properties (deref bp this) !! bpPropIndex), false), this)
    | Normal None => (Normal (findByName prop (_properties this), true), this)
    end.

(** The key of [_propertyMap] for a property at a breakpoint alias. *)
Definition trackerKey (property alias : string) : string :=
  if truthy alias then property +:+ "." +:+ alias else property.

(** [_getValues]: the map is returned by reference, here its key; it is
    created empty when the key is new. *)
Definition _getValues (property alias : string) : M string :=
  fun this =>
    let key := trackerKey property alias in
    match _propertyMap this !! key with
    | None => (Normal key, with_propertyMap (<[key := []]> (_propertyMap this)) this)
    | Some _ => (Normal key, this)
    end.

(** The map behind a reference returned by [_getValues]. *)
Definition valuesAt (key : string) (this : BaseLayout) : list (string * Z) :=
  default [] (_propertyMap this !! key).

Definition setValuesAt (key : string) (m : list (string * Z)) (this : BaseLayout) : BaseLayout :=
  with_propertyMap (<[key := m]> (_propertyMap this)) this.

(** [x || 0] for the result of [Map.get]. *)
Definition orZero (o : option Z) : Z :=
  match o with
  | Some c => if Z.eqb c 0 then 0 else c
  | None => 0
  end.

(** The tracker update of [attributeChangedCallback] on the map returned by
    [_getValues]: the guarded decrement, the increment, the removal at zero.
    A [null] old value is never a key of the map. *)
Definition updateCounts (values : list (string * Z)) (oldValue newValue : option string)
    : list (string * Z) :=
  let values :=
    match oldValue with
    | Some o =>
        match JsMap.get values o with
        | Some c => JsMap.set values o (c - 1)
        | None => values
        end
    | None => values
    end in
  let values :=
    match newValue with
    | Some n => JsMap.set values n (orZero (JsMap.get values n) + 1)
    | None => values
    end in
  match oldValue with
  | Some o =>
      match JsMap.get values o with
      | Some c => if Z.eqb c 0 then JsMap.delete values o else values
      | None => values
      end
  | None => values
  end.

(** ** [_buildCss] *)

Definition parentKey : string := ":host".
Definition allChildKey : string := parentKey +:+ ">*".
Definition wrapChildKey (childKey : string) : string := "::slotted(" +:+ childKey +:+ ")".

(** [properties.filter(p => f(p))]; the callback reads a field of [p], which
    throws at an [undefined] entry. *)
Fixpoint filterProps (f : Property.t -> bool) (l : list (option Property.t))
    : Completion (list Property.t) :=
  match l with
  | [] => Normal []
  | None :: _ => Throw
  | Some p :: r =>
      match filterProps f r with
      | Normal r' => Normal (if f p then p :: r' else r')
      | Throw => Throw
      end
  end.

(** [css[sel]], the bucket of a selector. *)
Definition bucket (css : CssObject) (sel : string) : Decls :=
  default [] (JsMap.get css sel).

(** [css[sel][key] = v]. *)
Definition setIn (css : CssObject) (sel key v : string) : CssObject :=
  JsMap.set css sel (JsMap.set (bucket css sel) key v).

(** [for (let key of Object.keys(src)) css[sel][key] = src[key]]. *)
Definition assignAll (css : CssObject) (sel : string) (src : Decls) : CssObject :=
  fold_left (fun css kv => setIn css sel (fst kv) (snd kv)) src css.

(** One iteration of the loop over the host-scoped properties. *)
Definition hostStep (alias : string) (css : CssObject) (parentProp : Property.t) : M CssObject :=
  values <- _getValues (Property.name parentProp) alias ;;
  m <- read (valuesAt values) ;;
  match m with
  | [] => ret css
  | (value, _) :: _ =>
      let '(hostCss, childCss) := Property.updateFn parentProp value alias in
      let css := assignAll css parentKey hostCss in
      match childCss with
      | None => throw
      | Some childCss => ret (assignAll css allChildKey childCss)
      end
  end.

(** The selector of the children carrying [key] for a child-scoped property. *)
Definition childSelector (name alias key : string) : string :=
  let childPropName := if truthy alias then name +:+ SEPARATOR +:+ alias else name in
  wrapChildKey ("[" +:+ childPropName +:+ "=" +:+ dquote +:+ key +:+ dquote +:+ "]").

(** One iteration of the loop over the child-scoped properties. *)
Definition childStep (alias : string) (css : CssObject) (childProp : Property.t) : M CssObject :=
  values <- _getValues (Property.name childProp) alias ;;
  m <- read (valuesAt values) ;;
  ret (fold_left
         (fun css key =>
            let childKey := childSelector (Property.name childProp) alias key in
            let childCss := fst (Property.updateFn childProp key alias) in
            JsMap.set css childKey childCss)
         (JsMap.keys m) css).

(** The default display declaration injected into the host bucket. *)
Definition displayValue (inline : bool) (layoutType : string) : string :=
  if inline then "inline-" +:+ layoutType else layoutType.

Definition injectDisplay (css : CssObject) (inline : bool) (layoutType : string)
    (applyDefaults : bool) : CssObject :=
  let parentSize := length (JsMap.keys (bucket css parentKey)) in
  if negb (Nat.eqb parentSize 0) || applyDefaults
  then setIn css parentKey "display" (displayValue inline layoutType)
  else css.

Definition _buildCss (alias : string) (properties : list (option Property.t))
    (inline : bool) (layoutType : string) (applyDefaults : bool) : M CssObject :=
  parentProps <- lift (filterProps (fun p => negb (Property.child p)) properties) ;;
  childProps <- lift (filterProps Property.child properties) ;;
  let css : CssObject := [(parentKey, []); (allChildKey, [])] in
  css <- forEach (hostStep alias) parentProps css ;;
  css <- forEach (childStep alias) childProps css ;;
  ret (injectDisplay css inline layoutType applyDefaults).

(** ** [_attachCss] *)

Definition styleId (layoutType alias : string) : string :=
  layoutType +:+ "-" +:+ (if truthy alias then alias else "all").

(** The text written into a style block. *)
Definition styleBlock (css : CssObject) (mediaQuery : string) : string :=
  let cssStyles := unwrapCss (css_to_js css) in
  "@media " +:+ mediaQuery +:+ " {" +:+ js_to_string cssStyles +:+ "}".

Definition _attachCss (css : CssObject) (mediaQuery alias : string) : M unit :=
  fun this =>
    let id := styleId (_layoutType this) alias in
    let root := shadowRoot this in
    let text := styleBlock css mediaQuery in
    match getElementById id root with
    | None =>
        let slotElement :=
          if truthy alias then findIndex is_slot root
          else if Nat.ltb 1 (length root) then Some 1%nat else None in
        (Normal tt, with_shadowRoot (insertBefore (StyleElement (Some id) text) slotElement root) this)
    | Some k =>
        (Normal tt, with_shadowRoot (alter (setInnerHTML text) k root) this)
    end.

(** ** [attributeChangedCallback] *)

(** The attribute name decoded into the property name and the alias. *)
Definition decode (name : string) : string * string :=
  let '(prop, remainder) := split dash name in
  (prop, join SEPARATOR remainder).

(** [hasAttribute] is the host element's attribute test at the time of the
    call. *)
Definition attributeChangedCallback (hasAttribute : string -> bool)
    (name : string) (oldValue newValue : option string) : M unit :=
  let '(prop, alias) := decode name in
  bp <- _getBreakpointByAlias alias ;;
  pn <- _getPropertyByName bp prop ;;
  let '(property, newProp) := pn in
  (if newProp : bool then modify (pushProperty bp property) else ret tt) ;;;
  values <- _getValues prop alias ;;
  modify (fun this => setValuesAt values (updateCounts (valuesAt values this) oldValue newValue) this) ;;;
  bpv <- read (deref bp) ;;
  let inlineAttr :=
    if truthy (BreakPointProperty.alias bpv)
    then "inline" +:+ SEPARATOR +:+ BreakPointProperty.alias bpv
    else "inline" in
  layoutType <- read _layoutType ;;
  css <- _buildCss (BreakPointProperty.alias bpv) (BreakPointProperty.properties bpv)
           (hasAttribute inlineAttr) layoutType (negb (negb (truthy alias))) ;;
  _attachCss css (BreakPointProperty.mediaQuery bpv) (BreakPointProperty.alias bpv).

(** * Vocabulary of the statements *)

(** ** Counts *)

(** Every count stored in a map is at least 1. *)
Definition counts_ok (m : list (string * Z)) : Prop :=
  forall e, In e m -> 1 <= snd e.

(** The count stored for a value, 0 when the value is not a key. *)
Definition countOf (m : list (string * Z)) (v : string) : Z :=
  default 0 (JsMap.get m v).

(** 1 when the optional value is [v], else 0. *)
Definition ind (o : option string) (v : string) : Z :=
  match o with
  | Some s => if String.eqb s v then 1 else 0
  | None => 0
  end.

(** ** The synthesizer over the tracked values *)

(** [this'] is [this] up to empty maps created by [_getValues]. *)
Definition extends (this this' : BaseLayout) : Prop :=
  _breakpoints this' = _breakpoints this /\
  _layoutType this' = _layoutType this /\
  _allBreakpoint this' = _allBreakpoint this /\
  _properties this' = _properties this /\
  shadowRoot this' = shadowRoot this /\
  forall key, valuesAt key this' = valuesAt key this.

(** A loop over an array whose body may throw. *)
Fixpoint foldC {A S : Type} (body : S -> A -> Completion S) (l : list A) (acc : S)
    : Completion S :=
  match l with
  | [] => Normal acc
  | x :: r =>
      match body acc x with
      | Normal acc' => foldC body r acc'
      | Throw => Throw
      end
  end.

Section Synthesis.
Variable vals : string -> list (string * Z).
Variable alias : string.

Definition hostStepOf (css : CssObject) (parentProp : Property.t) : Completion CssObject :=
  match head (JsMap.keys (vals (trackerKey (Property.name parentProp) alias))) with
  | None => Normal css
  | Some value =>
      match snd (Property.updateFn parentProp value alias) with
      | None => Throw
      | Some childCss =>
          Normal (assignAll
                    (assignAll css parentKey (fst (Property.updateFn parentProp value alias)))
                    allChildKey childCss)
      end
  end.

Definition childStepOf (css : CssObject) (childProp : Property.t) : CssObject :=
  fold_left
    (fun css key =>
       JsMap.set css (childSelector (Property.name childProp) alias key)
         (fst (Property.updateFn childProp key alias)))
    (JsMap.keys (vals (trackerKey (Property.name childProp) alias))) css.

Definition emptyCss : CssObject := [(parentKey, []); (allChildKey, [])].

Definition buildCssOf (properties : list (option Property.t)) (inline : bool)
    (layoutType : string) (applyDefaults : bool) : Completion CssObject :=
  match filterProps (fun p => negb (Property.child p)) properties with
  | Throw => Throw
  | Normal parentProps =>
      match filterProps Property.child properties with
      | Throw => Throw
      | Normal childProps =>
          match foldC hostStepOf parentProps emptyCss with
          | Throw => Throw
          | Normal css =>
              Normal (injectDisplay (fold_left childStepOf childProps css)
                        inline layoutType applyDefaults)
          end
      end
  end.
End Synthesis.

(** The tracked values of an instance, by tracker key. *)
Definition tracked (this : BaseLayout) : string -> list (string * Z) :=
  fun key => valuesAt key this.

(** What the synthesizer reads: the first key of the map of a host-scoped
    property, every key of the map of a child-scoped property. *)
Definition reads_agree (alias : string) (properties : list (option Property.t))
    (vals vals' : string -> list (string * Z)) : Prop :=
  forall p, In (Some p) properties ->
    let key := trackerKey (Property.name p) alias in
    (Property.child p = false -> head (JsMap.keys (vals key)) = head (JsMap.keys (vals' key))) /\
    (Property.child p = true -> JsMap.keys (vals key) = JsMap.keys (vals' key)).

(** ** One call, phase by phase *)

(** The text of a node, if it is a style block. *)
Definition nodeText (n : Node) : option string :=
  match n with
  | StyleElement _ text => Some text
  | SlotElement => None
  end.

(** The reference returned by [_getBreakpointByAlias]. *)
Definition resolve (alias : string) (this : BaseLayout) : BpRef :=
  match findIndex (fun b => String.eqb (BreakPointProperty.alias b) alias)
          (_breakpoints this) with
  | Some bpIndex => InRegistry bpIndex
  | None => AllBreakpoint
  end.

(** The instance after the lookup of the property: the descriptor found in
    the registry ([undefined] when there is none) is pushed when the active
    list of the breakpoint does not hold the name. *)
Definition registerProperty (bp : BpRef) (prop : string) (found : option nat)
    (this : BaseLayout) : BaseLayout :=
  match found with
  | Some _ => this
  | None => pushProperty bp (findByName prop (_properties this)) this
  end.

(** The instance after the tracker update. *)
Definition trackChange (prop alias : string) (oldValue newValue : option string)
    (this : BaseLayout) : BaseLayout :=
  let key := trackerKey prop alias in
  setValuesAt key (updateCounts (valuesAt key this) oldValue newValue) this.

(** The name of the inline attribute of a breakpoint. *)
Definition inlineAttrOf (bpAlias : string) : string :=
  if truthy bpAlias then "inline" +:+ SEPARATOR +:+ bpAlias else "inline".

(** The rebuild of the style block of the breakpoint [bp]. *)
Definition rebuild (hasAttribute : string -> bool) (bp : BpRef) (alias : string) : M unit :=
  fun this =>
    let bpv := deref bp this in
    match _buildCss (BreakPointProperty.alias bpv) (BreakPointProperty.properties bpv)
            (hasAttribute (inlineAttrOf (BreakPointProperty.alias bpv)))
            (_layoutType this) (truthy alias) this with
    | (Normal css, this') =>
        _attachCss css (BreakPointProperty.mediaQuery bpv) (BreakPointProperty.alias bpv) this'
    | (Throw, this') => (Throw, this')
    end.

(** [this'] has the configuration and the tracked values of [this]. *)
Definition same_tracker (this this' : BaseLayout) : Prop :=
  _breakpoints this' = _breakpoints this /\
  _layoutType this' = _layoutType this /\
  _allBreakpoint this' = _allBreakpoint this /\
  _properties this' = _properties this /\
  forall key, valuesAt key this' = valuesAt key this.

(** ** Sequences of calls *)

(** One notification: the element whose attribute changed, the attribute
    name, the old and the new value, and the host's attribute test at the
    time of the call. *)
Record Change : Type := mkChange {
  target : nat;
  attributeName : string;
  oldValue : option string;
  newValue : option string;
  hostHasAttribute : string -> bool;
}.

(** The instance after a call; an exception thrown by the callback is
    reported to the event loop and the instance stays as the throw left it. *)
Definition deliver (this : BaseLayout) (c : Change) : BaseLayout :=
  snd (attributeChangedCallback (hostHasAttribute c) (attributeName c)
         (oldValue c) (newValue c) this).

(** The instance after a sequence of calls. *)
Definition run (this : BaseLayout) (cs : list Change) : BaseLayout :=
  fold_left deliver cs this.

(** Every entry of every map of the tracker has a count of at least 1. *)
Definition tracker_ok (this : BaseLayout) : Prop :=
  forall key m, _propertyMap this !! key = Some m -> counts_ok m.

(** ** Elements and their attributes *)

(** The value an element carries for a property at an alias, if any. *)
Definition World : Type := nat -> string * string -> option string.

Definition noAttributes : World := fun _ _ => None.

Definition pair_eqb (x y : string * string) : bool :=
  String.eqb (fst x) (fst y) && String.eqb (snd x) (snd y).

Definition setAttribute (w : World) (e : nat) (pa : string * string) (v : option string) : World :=
  fun e' pa' => if Nat.eqb e e' && pair_eqb pa pa' then v else w e' pa'.

Definition carries (w : World) (pa : string * string) (v : string) (e : nat) : bool :=
  match w e pa with
  | Some s => String.eqb s v
  | None => false
  end.

(** The number of elements that carry the value [v] for [pa]. *)
Definition carriers (elements : list nat) (w : World) (pa : string * string) (v : string) : Z :=
  Z.of_nat (length (List.filter (carries w pa v) elements)).

(** Each change reports as old value the value the element carried. *)
Fixpoint well_formed (w : World) (cs : list Change) : Prop :=
  match cs with
  | [] => True
  | c :: r =>
      oldValue c = w (target c) (decode (attributeName c)) /\
      well_formed (setAttribute w (target c) (decode (attributeName c)) (newValue c)) r
  end.

Definition applyChange (w : World) (c : Change) : World :=
  setAttribute w (target c) (decode (attributeName c)) (newValue c).

Definition world_after (w : World) (cs : list Change) : World :=
  fold_left applyChange cs w.

(** ** Invariants of the active lists *)

(** No active list holds [undefined]. *)
Definition active_defined (this : BaseLayout) : Prop :=
  (forall bp, In bp (_breakpoints this) -> ~ In None (BreakPointProperty.properties bp)) /\
  ~ In None (BreakPointProperty.properties (_allBreakpoint this)).

Definition isRegistered (properties : list Property.t) (prop : string) : bool :=
  match findByName prop properties with
  | Some _ => true
  | None => false
  end.

(** The stored counts are the numbers of carriers. *)
Definition counts_match (elements : list nat) (this : BaseLayout) (w : World) : Prop :=
  forall prop alias v, contains dot prop = false ->
    countOf (valuesAt (trackerKey prop alias) this) v = carriers elements w (prop, alias) v.

(** A change the tracker is meant for: of a known element, with a
    registered property name without a dot. *)
Definition expected (elements : list nat) (properties : list Property.t) (c : Change) : Prop :=
  In (target c) elements /\
  contains dot (fst (decode (attributeName c))) = false /\
  isRegistered properties (fst (decode (attributeName c))) = true.

(** The breakpoints returned by [getBps()] are typed [BreakPointProperty[]]:
    their [properties] arrays hold descriptors only. *)
Definition registry_defined (bps : list BreakPointProperty.t) : Prop :=
  forall bp, In bp bps -> ~ In None (BreakPointProperty.properties bp).

(** ** Serialized CSS, references and nodes *)

(** The CSS text of a CSS object, as [_attachCss] serializes it. *)
Definition cssText (css : CssObject) : string :=
  js_to_string (unwrapCss (css_to_js css)).

Definition cssTextOf (c : Completion CssObject) : Completion string :=
  match c with
  | Normal css => Normal (cssText css)
  | Throw => Throw
  end.

Definition valid_ref (bp : BpRef) (this : BaseLayout) : Prop :=
  match bp with
  | InRegistry i => is_Some (_breakpoints this !! i)
  | AllBreakpoint => True
  end.

(** The nodes of the shadow root other than the block with identifier [i],
    in document order. *)
Definition otherNodes (i : string) (root : list Node) : list Node :=
  List.filter (fun n => negb (node_has_id i n)) root.

(** ** Selectors of child variants *)


(** The attribute name inside the selector. *)
Definition childPropName (name alias : string) : string :=
  if truthy alias then name +:+ SEPARATOR +:+ alias else name.



(** The names of the child-scoped descriptors of a list. *)
Definition childNames (properties : list (option Property.t)) : list string :=
  flat_map
    (fun o =>
       match o with
       | Some p => if Property.child p then [Property.name p] else []
       | None => []
       end)
    properties.

(** ** Names in the active lists *)

(** The names of the descriptors of a list. *)
Definition namesOf (properties : list (option Property.t)) : list string :=
  flat_map (fun o => match o with Some p => [Property.name p] | None => [] end) properties.

(** The active lists hold each name at most once. *)
Definition active_distinct (this : BaseLayout) : Prop :=
  (forall bp, In bp (_breakpoints this) -> List.NoDup (namesOf (BreakPointProperty.properties bp))) /\
  List.NoDup (namesOf (BreakPointProperty.properties (_allBreakpoint this))).

(** ** Sample configurations *)

Module Sample.
(** A host-scoped property, a child-scoped property and one breakpoint. *)
Definition gap : Property.t :=
  Property.mk "gap" false (fun v _ => ([("gap", v)], Some [("margin", v)])).
Definition fill : Property.t :=
  Property.mk "fill" true (fun v _ => ([("flex", v)], None)).
Definition sm : BreakPointProperty.t :=
  BreakPointProperty.mk "sm" "(min-width: 600px)" false [].

Definition noAttribute : string -> bool := fun _ => false.

Definition flexLayout : BaseLayout := constructor [sm] "flex" [gap; fill].

(** Two children receive [fill], then the first one changes it. *)
Definition threeChanges : list Change :=
  [ mkChange 1 "fill" None (Some "1") noAttribute;
    mkChange 2 "fill" None (Some "1") noAttribute;
    mkChange 1 "fill" (Some "1") (Some "2") noAttribute ].

(** Two properties whose tracker keys coincide: [a.b] at the empty alias
    and [a] at the alias [b]. *)
Definition dotted : Property.t :=
  Property.mk "a.b" true (fun v _ => ([("order", v)], None)).
Definition plain : Property.t :=
  Property.mk "a" true (fun v _ => ([("order", v)], None)).
Definition dottedLayout : BaseLayout := constructor [] "flex" [dotted; plain].
Definition collidingChanges : list Change :=
  [ mkChange 1 "a.b" None (Some "x") noAttribute;
    mkChange 2 "a-b" None (Some "x") noAttribute ].
End Sample.

Module SampleAll.
(** A registry with a breakpoint whose alias is [all]. *)
Definition print : BreakPointProperty.t :=
  BreakPointProperty.mk "all" "print" false [].
Definition layout : BaseLayout := constructor [print] "flex" [Sample.gap].
End SampleAll.

Module SampleGrid.
Definition layout : BaseLayout := constructor [Sample.sm] "grid" [Sample.gap; Sample.fill].
(** The host receives [gap="8px"]. *)
Definition gapSet : list Change :=
  [mkChange 0 "gap" None (Some "8px") Sample.noAttribute].
End SampleGrid.

Module SampleVariants.
(** Two children carry [fill="1"] and [fill="2"]. *)
Definition layout : BaseLayout :=
  run Sample.flexLayout
    [ mkChange 1 "fill" None (Some "1") Sample.noAttribute;
      mkChange 2 "fill" None (Some "2") Sample.noAttribute ].
Definition css : CssObject :=
  [ (":host", []); (":host>*", []);
    (childSelector "fill" "" "1", [("flex", "1")]);
    (childSelector "fill" "" "2", [("flex", "2")]) ].
End SampleVariants.

(** ** The host-scoped tie-break, in the words of the specification *)

(** The value at iteration position 0 of the insertion-ordered map of a
    property at an alias, when the map is not empty. *)
Definition firstTracked (this : BaseLayout) (alias : string) (p : Property.t)
    : option string :=
  head (JsMap.keys (valuesAt (trackerKey (Property.name p) alias) this)).

(** The invocations of the update functions for the host-scoped properties
    of a list: one for every host-scoped property whose map is not empty, in
    the order of the list, on the value at position 0 alone. *)
Definition hostCalls (this : BaseLayout) (alias : string)
    (properties : list (option Property.t)) : list (Decls * option Decls) :=
  flat_map
    (fun o =>
       match o with
       | Some p =>
           if Property.child p then []
           else match firstTracked this alias p with
                | Some value => [Property.updateFn p value alias]
                | None => []
                end
       | None => []
       end)
    properties.

(** The assignment of a fragment into a bucket, key by key. *)
Definition mergeDecls (b src : Decls) : Decls :=
  fold_left (fun b kv => JsMap.set b (fst kv) (snd kv)) src b.

(** ** Counts in the range where the arithmetic of the code is exact *)

(** The counts of the code are IEEE doubles: integers up to [2 ^ 53] are
    represented exactly, and so are the increment and the decrement of a
    count below [2 ^ 53]. *)
Definition counts_exact (m : list (string * Z)) : Prop :=
  forall e, In e m -> snd e < 2 ^ 53.

Module SampleCollision.
(** Two child-scoped properties; the name of the second holds [=] and
    quotes, so that its selector for the value [d] is the selector of the
    first for the value [b"][c="d]. *)
Definition first : Property.t :=
  Property.mk "a" true (fun v _ => ([("order", v)], None)).
Definition secondName : string := "a=" +:+ dquote +:+ "b" +:+ dquote +:+ "][c".
Definition second : Property.t :=
  Property.mk secondName true (fun v _ => ([("flex", v)], None)).
Definition firstValue : string := "b" +:+ dquote +:+ "][c=" +:+ dquote +:+ "d".
Definition layout : BaseLayout :=
  run (constructor [] "flex" [first; second])
    [ mkChange 1 "a" None (Some firstValue) Sample.noAttribute;
      mkChange 2 secondName None (Some "d") Sample.noAttribute ].
End SampleCollision.

Module SampleTieBreak.
(** The host carried [gap="8px"] first; two elements set [4px] later. *)
Definition layout : BaseLayout :=
  setValuesAt "gap" [("8px", 1); ("4px", 2)] Sample.flexLayout.
Definition css : CssObject :=
  [ (":host", [("gap", "8px"); ("display", "grid")]);
    (":host>*", [("margin", "8px")]) ].
End SampleTieBreak.

(** ** The text of a CSS object *)

(** A declaration [key: value;]; nothing for an empty value. *)
Definition declText (kv : string * string) : string :=
  if truthy (snd kv) then fst kv +:+ ": " +:+ snd kv +:+ ";" else "".

Definition declsText (d : Decls) : string :=
  fold_left (fun acc kv => acc +:+ declText kv) d "".

(** A bucket with a declaration named [length] of non-empty value. *)
Definition hasLength (d : Decls) : bool :=
  match JsMap.get d "length" with
  | Some v => truthy v
  | None => false
  end.

(** A rule [selector {declarations}]; nothing when no declaration has a
    text; a bucket that declares a [length] is taken for a string. *)
Definition ruleText (r : string * Decls) : string :=
  if hasLength (snd r) then fst r +:+ ": [object Object];"
  else if truthy (declsText (snd r))
       then fst r +:+ " {" +:+ declsText (snd r) +:+ "}"
       else "".

Definition rulesText (css : CssObject) : string :=
  fold_left (fun acc r => acc +:+ ruleText r) css "".

(** The formatting loop of [unwrapCss] as a fold. *)
Definition formatField (acc : string) (kv : string * JsVal) : string :=
  let addCss := unwrapCss (snd kv) in
  if js_truthy addCss then
    acc +:+ (if negb (length_truthy (snd kv))
             then fst kv +:+ " {" +:+ js_to_string addCss +:+ "}"
             else fst kv +:+ ": " +:+ js_to_string addCss +:+ ";")
  else acc.

(** ** The shape of the CSS object and of the shadow root *)

(** What the child loop may append: selectors of tracked values of the
    child-scoped properties, each once. *)
Definition childSelectors (vals : string -> list (string * Z)) (alias : string)
    (cp : list Property.t) (sels : list string) : Prop :=
  List.NoDup sels /\
  forall sel, In sel sels ->
    exists p v, In p cp /\
      In v (JsMap.keys (vals (trackerKey (Property.name p) alias))) /\
      sel = childSelector (Property.name p) alias v.

Module SampleMerge.
(** A second host-scoped property that declares [gap] too. *)
Definition row : Property.t :=
  Property.mk "row" false (fun v _ => ([("gap", v); ("flex-direction", "row")], Some [])).
Definition layout : BaseLayout :=
  run (constructor [] "flex" [Sample.gap; row])
    [ mkChange 0 "gap" None (Some "8px") Sample.noAttribute;
      mkChange 0 "row" None (Some "4px") Sample.noAttribute ].
Definition css : CssObject :=
  [ (":host", [("gap", "4px"); ("flex-direction", "row"); ("display", "flex")]);
    (":host>*", [("margin", "8px")]) ].
End SampleMerge.

(** The shadow root [_attachCss] leaves. *)
Definition attachRoot (layoutType : string) (css : CssObject) (mediaQuery alias : string)
    (root : list Node) : list Node :=
  let id := styleId layoutType alias in
  let text := styleBlock css mediaQuery in
  match getElementById id root with
  | None =>
      let slotElement :=
        if truthy alias then findIndex is_slot root
        else if Nat.ltb 1 (length root) then Some 1%nat else None in
      insertBefore (StyleElement (Some id) text) slotElement root
  | Some k => alter (setInnerHTML text) k root
  end.

(** The base style the constructor writes. *)
Definition baseStyle : Node := StyleElement None ":host {contain: content;}".

(** The style block of an alias. *)
Definition blockNode (layoutType : string) (block : string * string) : Node :=
  StyleElement (Some (styleId layoutType (fst block))) (snd block).

(** A shadow root made of the base style, the block [<layoutType>-all], the
    blocks of aliases in the order given, and the slot. *)
Definition renderRoot (layoutType allText : string) (blocks : list (string * string))
    : list Node :=
  baseStyle :: StyleElement (Some (styleId layoutType "")) allText
    :: (map (blockNode layoutType) blocks ++ [SlotElement])%list.

(** An alias with a block of its own. *)
Definition ownBlock (a : string) : Prop := truthy a = true /\ a <> "all".

(** The invariant of the shadow root of an instance. *)
Definition rootInvariant (layoutType : string) (aliases : list string) (this : BaseLayout)
    : Prop :=
  _layoutType this = layoutType /\
  BreakPointProperty.alias (_allBreakpoint this) = "" /\
  map BreakPointProperty.alias (_breakpoints this) = aliases /\
  exists allText blocks,
    shadowRoot this = renderRoot layoutType allText blocks /\
    List.NoDup (JsMap.keys blocks) /\
    forall b, In b (JsMap.keys blocks) -> In b aliases /\ ownBlock b.

(** ** Growth of a descriptor *)

(** A descriptor with the same alias, media query and flag, whose active
    list has only grown at its end. *)
Definition grown (bp bp' : BreakPointProperty.t) : Prop :=
  BreakPointProperty.alias bp' = BreakPointProperty.alias bp /\
  BreakPointProperty.mediaQuery bp' = BreakPointProperty.mediaQuery bp /\
  BreakPointProperty.overlapping bp' = BreakPointProperty.overlapping bp /\
  exists suffix,
    BreakPointProperty.properties bp'
    = (BreakPointProperty.properties bp ++ suffix)%list.

(** ** Connection: [connectedCallback], [disconnectedCallback], the observer *)

(** What the element reads of the document: the attributes of every
    element, the children of the host in document order, and the attribute
    test of the host.  Elements are named by numbers. *)
Record Document : Type := mkDocument {
  attributesOf : nat -> list (string * string);
  hostChildren : list nat;
  hostHas : string -> bool;
}.

Definition hasAttributeOf (doc : Document) (element : nat) (name : string) : bool :=
  JsMap.has (attributesOf doc element) name.

(** [getAttribute]: [null] when the element has no such attribute. *)
Definition getAttribute (doc : Document) (element : nat) (name : string) : option string :=
  JsMap.get (attributesOf doc element) name.

(** The element: the state of the layout, the field [_childObserver]
    ([None] while it is [undefined], else the observer it refers to), and
    the mutation observers created so far, each with the elements it
    observes. *)
Record Element : Type := mkElement {
  base : BaseLayout;
  _childObserver : option nat;
  observers : list (list nat);
}.

Definition with_base (b : BaseLayout) (e : Element) : Element :=
  mkElement b (_childObserver e) (observers e).

Module MutationRecord.
Record t : Type := mk {
  target : nat;
  attributeName : string;
  oldValue : option string;
}.
End MutationRecord.


(** The inner loop of [connectedCallback]: the attributes of one child are
    replayed as changes from [null]. *)
Definition replay (doc : Document) (childrenPropsBps : list string) (child : nat) : M unit :=
  forEach (fun _ propBp =>
             if hasAttributeOf doc child propBp
             then attributeChangedCallback (hostHas doc) propBp None
                    (getAttribute doc child propBp)
             else ret tt)
    childrenPropsBps tt.

(** [this._childObserver.observe(child, ...)]. *)
Definition observe (child : nat) (e : Element) : Completion unit * Element :=
  match _childObserver e with
  | Some o =>
      (Normal tt,
       mkElement (base e) (_childObserver e)
         (alter (fun targets => targets ++ [child])%list o (observers e)))
  | None => (Throw, e)
  end.

(** The outer loop of [connectedCallback]. *)
Fixpoint connectChildren (doc : Document) (childrenPropsBps : list string)
    (children : list nat) (e : Element) : Completion unit * Element :=
  match children with
  | [] => (Normal tt, e)
  | child :: rest =>
      match replay doc childrenPropsBps child (base e) with
      | (Normal _, b) =>
          match observe child (with_base b e) with
          | (Normal _, e') => connectChildren doc childrenPropsBps rest e'
          | (Throw, e') => (Throw, e')
          end
      | (Throw, b) => (Throw, with_base b e)
      end
  end.

(** [getProps] of [util.js] is a parameter: it maps the child-scoped
    properties to the attribute names to replay and to observe. *)
Definition connectedCallback (getProps : list Property.t -> list string) (doc : Document)
    (e : Element) : Completion unit * Element :=
  let e := mkElement (base e) (Some (length (observers e))) (observers e ++ [[]])%list in
  let children := hostChildren doc in
  let childrenPropsBps := getProps (List.filter Property.child (_properties (base e))) in
  connectChildren doc childrenPropsBps children e.


(** The attribute names [connectedCallback] replays on an instance. *)
Definition childrenPropsBpsOf (getProps : list Property.t -> list string)
    (this : BaseLayout) : list string :=
  getProps (List.filter Property.child (_properties this)).

(** How many of the names replayed on an element with the attributes
    [attrs] are stored under the tracker key [key] with the value [v]. *)
Definition replayedBy (names : list string) (attrs : list (string * string))
    (key v : string) : Z :=
  fold_right
    (fun propBp n =>
       (if String.eqb (trackerKey (fst (decode propBp)) (snd (decode propBp))) key
        then ind (JsMap.get attrs propBp) v else 0) + n)
    0 names.

(** The same, over the children of the host. *)
Definition replayed (names : list string) (doc : Document) (key v : string) : Z :=
  fold_right (fun child n => replayedBy names (attributesOf doc child) key v + n)
    0 (hostChildren doc).

Module SampleDocument.
(** Two children: the first carries [fill], the second [fill] and
    [fill-sm]; each property is observed at the empty alias and at [sm]. *)
Definition getProps (ps : list Property.t) : list string :=
  flat_map (fun p => [Property.name p; Property.name p +:+ "-sm"]) ps.
Definition doc : Document :=
  mkDocument
    (fun element =>
       match element with
       | 1%nat => [("fill", "1")]
       | 2%nat => [("fill", "1"); ("fill-sm", "2")]
       | _ => []
       end)
    [1%nat; 2%nat] Sample.noAttribute.
Definition element : Element := mkElement Sample.flexLayout None [].
End SampleDocument.

(** * Properties *)

(** ** Insertion-ordered maps *)

Section JsMapFacts.
Context {V : Type}.
Implicit Types (m : list (string * V)) (k : string) (v : V).

Lemma get_set_eq m k v : JsMap.get (JsMap.set m k v) k = Some v.
Proof.
  induction m as [|[k' v'] r IH]; simpl.
  - now rewrite String.eqb_refl.
  - destruct (String.eqb k' k) eqn:E; simpl; rewrite E; auto.
Qed.

Lemma get_set_ne m k k' v : k <> k' -> JsMap.get (JsMap.set m k v) k' = JsMap.get m k'.
Proof.
  intros Hne. induction m as [|[k0 v0] r IH]; simpl.
  - destruct (String.eqb k k') eqn:E; auto.
    apply String.eqb_eq in E. contradiction.
  - destruct (String.eqb k0 k) eqn:E; simpl.
    + apply String.eqb_eq in E. subst k0.
      destruct (String.eqb k k') eqn:E'; auto.
      apply String.eqb_eq in E'. contradiction.
    + destruct (String.eqb k0 k'); auto.
Qed.

Lemma get_delete_eq m k : JsMap.get (JsMap.delete m k) k = None.
Proof.
  induction m as [|[k' v'] r IH]; simpl; auto.
  destruct (String.eqb k' k) eqn:E; simpl; auto. now rewrite E.
Qed.

Lemma get_delete_ne m k k' : k <> k' -> JsMap.get (JsMap.delete m k) k' = JsMap.get m k'.
Proof.
  intros Hne. induction m as [|[k0 v0] r IH]; simpl; auto.
  destruct (String.eqb k0 k) eqn:E; simpl.
  - apply String.eqb_eq in E. subst k0.
    destruct (String.eqb k k') eqn:E'; auto.
    apply String.eqb_eq in E'. contradiction.
  - destruct (String.eqb k0 k'); auto.
Qed.

Lemma get_In m k v : JsMap.get m k = Some v -> In (k, v) m.
Proof.
  induction m as [|[k' v'] r IH]; simpl; [discriminate|].
  destruct (String.eqb k' k) eqn:E.
  - apply String.eqb_eq in E. intros [= ->]. subst. now left.
  - intros H. right. auto.
Qed.

Lemma get_None_keys m k : JsMap.get m k = None <-> ~ In k (JsMap.keys m).
Proof.
  induction m as [|[k' v'] r IH]; simpl; [tauto|].
  destruct (String.eqb k' k) eqn:E.
  - apply String.eqb_eq in E. split; [discriminate|]. intros H. exfalso. apply H. now left.
  - apply String.eqb_neq in E. rewrite IH. tauto.
Qed.

Lemma In_set_inv m k v e : In e (JsMap.set m k v) -> e = (k, v) \/ In e m.
Proof.
  induction m as [|[k' v'] r IH]; simpl.
  - intros [<-|[]]. now left.
  - destruct (String.eqb k' k) eqn:E; simpl.
    + apply String.eqb_eq in E. subst k'. intros [<-|H]; auto.
    + intros [<-|H]; auto. destruct (IH H); auto.
Qed.

Lemma In_delete_inv m k e : In e (JsMap.delete m k) -> In e m /\ fst e <> k.
Proof.
  induction m as [|[k' v'] r IH]; simpl; [tauto|].
  destruct (String.eqb k' k) eqn:E; simpl.
  - intros H. destruct (IH H). auto.
  - apply String.eqb_neq in E. intros [<-|H]; simpl; auto.
    destruct (IH H). auto.
Qed.

(** [set] on a present key keeps every key in place; on a new key it
    appends the key. *)
Lemma keys_set m k v :
  JsMap.keys (JsMap.set m k v) =
    if JsMap.has m k then JsMap.keys m else (JsMap.keys m ++ [k])%list.
Proof.
  unfold JsMap.has.
  induction m as [|[k' v'] r IH]; simpl; auto.
  destruct (String.eqb k' k) eqn:E; simpl; auto.
  rewrite IH. destruct (JsMap.get r k); auto.
Qed.

(** The key at iteration position 0 survives every later [set]. *)
Lemma head_keys_set m k v :
  m <> [] -> head (JsMap.keys (JsMap.set m k v)) = head (JsMap.keys m).
Proof.
  destruct m as [|[k' v'] r]; [congruence|]. intros _. simpl.
  destruct (String.eqb k' k); reflexivity.
Qed.

(** ... and every [delete] of another key. *)
Lemma head_keys_delete m k k0 :
  head (JsMap.keys m) = Some k0 -> k <> k0 ->
  head (JsMap.keys (JsMap.delete m k)) = Some k0.
Proof.
  destruct m as [|[k' v'] r]; simpl; [discriminate|].
  intros [= ->] Hne. destruct (String.eqb k0 k) eqn:E; auto.
  apply String.eqb_eq in E. congruence.
Qed.

Lemma set_set m k v v' : JsMap.set (JsMap.set m k v) k v' = JsMap.set m k v'.
Proof.
  induction m as [|[k0 v0] r IH]; simpl.
  - now rewrite String.eqb_refl.
  - destruct (String.eqb k0 k) eqn:E; simpl; rewrite E; auto. now rewrite IH.
Qed.

Lemma NoDup_keys_set m k v : NoDup (JsMap.keys m) -> NoDup (JsMap.keys (JsMap.set m k v)).
Proof.
  intros Hnd. rewrite keys_set. unfold JsMap.has.
  destruct (JsMap.get m k) eqn:E; auto.
  apply NoDup_app. split; [auto|]. split.
  - intros x Hx Hk. apply list_elem_of_In in Hx, Hk. simpl in Hk.
    destruct Hk as [<-|[]]. apply get_None_keys in E. contradiction.
  - apply NoDup_singleton.
Qed.
End JsMapFacts.

(** ** The tracker update *)

Lemma orZero_default (o : option Z) : orZero o = default 0 o.
Proof.
  destruct o as [c|]; simpl; auto.
  destruct (Z.eqb c 0) eqn:E; auto. apply Z.eqb_eq in E. auto.
Qed.

Lemma counts_ok_nil : counts_ok [].
Proof. intros e []. Qed.

Lemma counts_ok_get m k c : counts_ok m -> JsMap.get m k = Some c -> 1 <= c.
Proof. intros Hok Hg. apply get_In in Hg. apply (Hok _ Hg). Qed.

(** The guarded decrement leaves only non-negative counts, and only the
    decremented key can be at 0. *)
Lemma decrement_bounds m o c e :
  counts_ok m -> JsMap.get m o = Some c ->
  In e (JsMap.set m o (c - 1)) -> 1 <= snd e \/ (e = (o, c - 1) /\ 0 <= c - 1).
Proof.
  intros Hok Hg Hin. apply In_set_inv in Hin as [->|Hin].
  - right. split; auto. pose proof (counts_ok_get _ _ _ Hok Hg). lia.
  - left. auto.
Qed.

Lemma updateCounts_ok m oldValue newValue :
  counts_ok m -> counts_ok (updateCounts m oldValue newValue).
Proof.
  intros Hok. unfold updateCounts.
  destruct oldValue as [o|].
  - destruct (JsMap.get m o) as [c|] eqn:Hg.
    + (* the old value is tracked *)
      pose proof (counts_ok_get _ _ _ Hok Hg) as Hc.
      set (m1 := JsMap.set m o (c - 1)).
      assert (H1 : forall e, In e m1 -> 1 <= snd e \/ (e = (o, c - 1) /\ 0 <= c - 1))
        by (intros e; apply decrement_bounds; auto).
      assert (Hg1 : JsMap.get m1 o = Some (c - 1)) by apply get_set_eq.
      destruct newValue as [n|].
      * set (g := orZero (JsMap.get m1 n)).
        assert (Hg0 : 0 <= g).
        { unfold g. rewrite orZero_default.
          destruct (JsMap.get m1 n) as [x|] eqn:Hx; simpl; [|lia].
          apply get_In in Hx. destruct (H1 _ Hx) as [H|[[= _ ->] H]]; simpl in *; lia. }
        set (m2 := JsMap.set m1 n (g + 1)).
        destruct (String.eqb_spec o n) as [->|Hne].
        -- (* re-set to the same value *)
           assert (Hg2 : JsMap.get m2 n = Some (g + 1)) by apply get_set_eq.
           rewrite Hg2. destruct (Z.eqb_spec (g + 1) 0); [lia|].
           unfold m2, m1. rewrite set_set.
           intros e He. apply In_set_inv in He as [->|He]; simpl; [lia|auto].
        -- assert (Hg2 : JsMap.get m2 o = Some (c - 1)).
           { unfold m2. rewrite get_set_ne; auto. }
           rewrite Hg2. destruct (Z.eqb_spec (c - 1) 0) as [Hz|Hz].
           ++ intros e He. apply In_delete_inv in He as [He Hk].
              apply In_set_inv in He as [->|He]; simpl; [lia|].
              destruct (H1 _ He) as [H|[-> H]]; auto. simpl in Hk. congruence.
           ++ intros e He. apply In_set_inv in He as [->|He]; simpl; [lia|].
              destruct (H1 _ He) as [H|[-> H]]; auto. simpl. lia.
      * fold m1. rewrite Hg1. destruct (Z.eqb_spec (c - 1) 0) as [Hz|Hz].
        -- intros e He. apply In_delete_inv in He as [He Hk].
           destruct (H1 _ He) as [H|[-> H]]; auto. simpl in Hk. congruence.
        -- intros e He. destruct (H1 _ He) as [H|[-> H]]; auto. simpl. lia.
    + (* the old value is not tracked: nothing is decremented *)
      destruct newValue as [n|].
      * set (g := orZero (JsMap.get m n)).
        assert (Hg0 : 0 <= g).
        { unfold g. rewrite orZero_default.
          destruct (JsMap.get m n) as [x|] eqn:Hx; simpl; [|lia].
          pose proof (counts_ok_get _ _ _ Hok Hx). lia. }
        set (m2 := JsMap.set m n (g + 1)).
        assert (H2 : counts_ok m2).
        { intros e He. apply In_set_inv in He as [->|He]; simpl; [lia|auto]. }
        destruct (JsMap.get m2 o) as [x|] eqn:Hx; auto.
        destruct (Z.eqb_spec x 0) as [Hz|Hz]; auto.
        pose proof (counts_ok_get _ _ _ H2 Hx). lia.
      * rewrite Hg. auto.
  - destruct newValue as [n|]; auto.
    set (g := orZero (JsMap.get m n)).
    assert (Hg0 : 0 <= g).
    { unfold g. rewrite orZero_default.
      destruct (JsMap.get m n) as [x|] eqn:Hx; simpl; [|lia].
      pose proof (counts_ok_get _ _ _ Hok Hx). lia. }
    intros e He. apply In_set_inv in He as [->|He]; simpl; [lia|auto].
Qed.

(** The exact effect of the update on the stored counts, when the old value
    (if there is one) is tracked. *)
Lemma countOf_updateCounts m oldValue newValue v :
  counts_ok m ->
  (forall o, oldValue = Some o -> 1 <= countOf m o) ->
  countOf (updateCounts m oldValue newValue) v =
    countOf m v - ind oldValue v + ind newValue v.
Proof.
  intros Hok Hold. unfold updateCounts.
  destruct oldValue as [o|]; simpl.
  - specialize (Hold o eq_refl). unfold countOf in Hold.
    destruct (JsMap.get m o) as [c|] eqn:Hg; simpl in Hold; [|lia].
    set (m1 := JsMap.set m o (c - 1)).
    assert (Hg1 : JsMap.get m1 o = Some (c - 1)) by apply get_set_eq.
    assert (Hn1 : forall k, o <> k -> JsMap.get m1 k = JsMap.get m k)
      by (intros; apply get_set_ne; auto).
    destruct newValue as [n|]; simpl.
    + set (g := orZero (JsMap.get m1 n)).
      set (m2 := JsMap.set m1 n (g + 1)).
      assert (Hg2 : JsMap.get m2 n = Some (g + 1)) by apply get_set_eq.
      assert (Hn2 : forall k, n <> k -> JsMap.get m2 k = JsMap.get m1 k)
        by (intros; apply get_set_ne; auto).
      destruct (String.eqb_spec o n) as [->|Hon].
      * assert (Hgv : g = c - 1).
        { unfold g. rewrite Hg1, orZero_default. reflexivity. }
        rewrite Hg2. destruct (Z.eqb_spec (g + 1) 0); [lia|].
        unfold countOf. destruct (String.eqb_spec n v) as [->|Hnv].
        -- rewrite Hg2, Hg. simpl. lia.
        -- rewrite Hn2, Hn1, Z.sub_0_r, Z.add_0_r; auto.
      * rewrite Hn2, Hg1 by auto.
        assert (Hgv : g = countOf m n).
        { unfold g, countOf. rewrite Hn1, orZero_default; auto. }
        unfold countOf in *.
        destruct (Z.eqb_spec (c - 1) 0) as [Hz|Hz].
        -- destruct (String.eqb_spec o v) as [->|Hov].
           ++ rewrite get_delete_eq, Hg. simpl.
              destruct (String.eqb_spec n v); [congruence|]. lia.
           ++ rewrite get_delete_ne by auto.
              destruct (String.eqb_spec n v) as [->|Hnv].
              ** rewrite Hg2. simpl. lia.
              ** rewrite Hn2, Hn1 by auto. lia.
        -- destruct (String.eqb_spec o v) as [->|Hov].
           ++ rewrite Hn2, Hg1, Hg by auto. simpl.
              destruct (String.eqb_spec n v); [congruence|]. lia.
           ++ destruct (String.eqb_spec n v) as [->|Hnv].
              ** rewrite Hg2. simpl. lia.
              ** rewrite Hn2, Hn1 by auto. lia.
    + fold m1. rewrite Hg1. unfold countOf.
      destruct (Z.eqb_spec (c - 1) 0) as [Hz|Hz].
      * destruct (String.eqb_spec o v) as [->|Hov].
        -- rewrite get_delete_eq, Hg. simpl. lia.
        -- rewrite get_delete_ne, Hn1 by auto. lia.
      * destruct (String.eqb_spec o v) as [->|Hov].
        -- rewrite Hg1, Hg. simpl. lia.
        -- rewrite Hn1 by auto. lia.
  - destruct newValue as [n|]; simpl; [|lia].
    unfold countOf. destruct (String.eqb_spec n v) as [->|Hnv].
    + rewrite get_set_eq, orZero_default. simpl. lia.
    + rewrite get_set_ne by auto. lia.
Qed.

(** ** The synthesizer as a function of the tracked values *)

Lemma extends_refl this : extends this this.
Proof. unfold extends. tauto. Qed.

Lemma extends_trans a b c : extends a b -> extends b c -> extends a c.
Proof.
  unfold extends. intros (?&?&?&?&?&Hab) (?&?&?&?&?&Hbc).
  repeat (split; [congruence|]). intros key. rewrite Hbc. apply Hab.
Qed.

Lemma _getValues_spec property alias this :
  exists this', _getValues property alias this = (Normal (trackerKey property alias), this')
                /\ extends this this'.
Proof.
  unfold _getValues.
  destruct (_propertyMap this !! trackerKey property alias) as [m|] eqn:E.
  - eexists. split; [reflexivity|apply extends_refl].
  - eexists. split; [reflexivity|].
    unfold extends, valuesAt. simpl. repeat split; auto.
    intros key. destruct (decide (trackerKey property alias = key)) as [<-|Hne].
    + now rewrite lookup_insert_eq, E.
    + now rewrite lookup_insert_ne.
Qed.

Lemma filterProps_In f l l' p :
  filterProps f l = Normal l' -> In p l' -> In (Some p) l /\ f p = true.
Proof.
  revert l'. induction l as [|[q|] r IH]; simpl; intros l' H Hin.
  - injection H as <-. destruct Hin.
  - destruct (filterProps f r) as [r'|] eqn:E; [|discriminate].
    injection H as <-. destruct (f q) eqn:Hf.
    + destruct Hin as [<-|Hin]; auto. destruct (IH _ eq_refl Hin). auto.
    + destruct (IH _ eq_refl Hin). auto.
  - discriminate.
Qed.

Lemma foldC_hostStepOf_agree vals vals' alias l css :
  (forall p, In p l ->
     head (JsMap.keys (vals (trackerKey (Property.name p) alias))) =
     head (JsMap.keys (vals' (trackerKey (Property.name p) alias)))) ->
  foldC (hostStepOf vals alias) l css = foldC (hostStepOf vals' alias) l css.
Proof.
  revert css. induction l as [|p r IH]; intros css H; simpl; auto.
  unfold hostStepOf at 1 3. rewrite (H p) by now left.
  destruct (head _) as [value|]; [|apply IH; intros; apply H; now right].
  destruct (snd _); auto. apply IH. intros; apply H; now right.
Qed.

Lemma fold_childStepOf_agree vals vals' alias l css :
  (forall p, In p l ->
     JsMap.keys (vals (trackerKey (Property.name p) alias)) =
     JsMap.keys (vals' (trackerKey (Property.name p) alias))) ->
  fold_left (childStepOf vals alias) l css = fold_left (childStepOf vals' alias) l css.
Proof.
  revert css. induction l as [|p r IH]; intros css H; simpl; auto.
  unfold childStepOf at 2 4. rewrite (H p) by now left.
  apply IH. intros; apply H; now right.
Qed.

(** The CSS object depends on the tracker only through what is read. *)
Lemma buildCssOf_agree vals vals' alias properties inline layoutType applyDefaults :
  reads_agree alias properties vals vals' ->
  buildCssOf vals alias properties inline layoutType applyDefaults =
  buildCssOf vals' alias properties inline layoutType applyDefaults.
Proof.
  intros H. unfold buildCssOf.
  destruct (filterProps (fun p => negb (Property.child p)) properties) as [pp|] eqn:Ep; auto.
  destruct (filterProps Property.child properties) as [cp|] eqn:Ec; auto.
  rewrite (foldC_hostStepOf_agree vals vals' alias pp).
  - destruct (foldC _ pp _); auto.
    rewrite (fold_childStepOf_agree vals vals' alias cp); auto.
    intros p Hp. destruct (filterProps_In _ _ _ _ Ec Hp) as [Hin Hc].
    apply (H p Hin). auto.
  - intros p Hp. destruct (filterProps_In _ _ _ _ Ep Hp) as [Hin Hc].
    apply (H p Hin). now apply negb_true_iff in Hc.
Qed.

Lemma reads_agree_pointwise alias properties vals vals' :
  (forall key, vals key = vals' key) -> reads_agree alias properties vals vals'.
Proof. intros H p _. simpl. rewrite H. auto. Qed.

Lemma extends_tracked this this' key : extends this this' -> tracked this' key = tracked this key.
Proof. intros (_&_&_&_&_&H). apply H. Qed.

Lemma hostStep_spec alias css p this :
  exists this', hostStep alias css p this = (hostStepOf (tracked this) alias css p, this')
                /\ extends this this'.
Proof.
  destruct (_getValues_spec (Property.name p) alias this) as (this' & Hg & Hext).
  exists this'. split; auto.
  unfold hostStep, bind, read. rewrite Hg.
  unfold hostStepOf. rewrite <- (extends_tracked _ _ _ Hext). unfold tracked.
  destruct (valuesAt _ this') as [|[value c] rest]; simpl; [reflexivity|].
  destruct (Property.updateFn p value alias) as [hostCss [childCss|]]; reflexivity.
Qed.

Lemma childStep_spec alias css p this :
  exists this', childStep alias css p this = (Normal (childStepOf (tracked this) alias css p), this')
                /\ extends this this'.
Proof.
  destruct (_getValues_spec (Property.name p) alias this) as (this' & Hg & Hext).
  exists this'. split; auto.
  unfold childStep, bind, read, ret. rewrite Hg.
  unfold childStepOf. rewrite <- (extends_tracked _ _ _ Hext). reflexivity.
Qed.

Lemma forEach_hostStep_spec alias l css this :
  exists this', forEach (hostStep alias) l css this
                = (foldC (hostStepOf (tracked this) alias) l css, this')
                /\ extends this this'.
Proof.
  revert css this. induction l as [|p r IH]; intros css this; simpl.
  - exists this. split; [reflexivity|apply extends_refl].
  - destruct (hostStep_spec alias css p this) as (this1 & H1 & E1).
    unfold bind. rewrite H1.
    destruct (hostStepOf (tracked this) alias css p) as [css'|].
    + destruct (IH css' this1) as (this2 & H2 & E2).
      exists this2. split; [|eapply extends_trans; eauto].
      rewrite H2. f_equal. apply foldC_hostStepOf_agree.
      intros q _. now rewrite (extends_tracked _ _ _ E1).
    + exists this1. auto.
Qed.

Lemma forEach_childStep_spec alias l css this :
  exists this', forEach (childStep alias) l css this
                = (Normal (fold_left (childStepOf (tracked this) alias) l css), this')
                /\ extends this this'.
Proof.
  revert css this. induction l as [|p r IH]; intros css this; simpl.
  - exists this. split; [reflexivity|apply extends_refl].
  - destruct (childStep_spec alias css p this) as (this1 & H1 & E1).
    unfold bind. rewrite H1.
    destruct (IH (childStepOf (tracked this) alias css p) this1) as (this2 & H2 & E2).
    exists this2. split; [|eapply extends_trans; eauto].
    rewrite H2. do 2 f_equal. apply fold_childStepOf_agree.
    intros q _. now rewrite (extends_tracked _ _ _ E1).
Qed.

(** [_buildCss] computes [buildCssOf] of the tracked values and changes the
    instance at most by creating empty maps. *)
Lemma _buildCss_spec alias properties inline layoutType applyDefaults this :
  exists this',
    _buildCss alias properties inline layoutType applyDefaults this
    = (buildCssOf (tracked this) alias properties inline layoutType applyDefaults, this')
    /\ extends this this'.
Proof.
  unfold _buildCss, buildCssOf, bind, lift.
  destruct (filterProps (fun p => negb (Property.child p)) properties) as [pp|];
    [|exists this; split; [reflexivity|apply extends_refl]].
  destruct (filterProps Property.child properties) as [cp|];
    [|exists this; split; [reflexivity|apply extends_refl]].
  destruct (forEach_hostStep_spec alias pp emptyCss this) as (this1 & H1 & E1).
  fold emptyCss. rewrite H1.
  destruct (foldC (hostStepOf (tracked this) alias) pp emptyCss) as [css|];
    [|exists this1; auto].
  destruct (forEach_childStep_spec alias cp css this1) as (this2 & H2 & E2).
  rewrite H2. exists this2. split; [|eapply extends_trans; eauto].
  unfold ret. do 3 f_equal. apply fold_childStepOf_agree.
  intros q _. now rewrite (extends_tracked _ _ _ E1).
Qed.

(** ** The stylesheet injector *)

Lemma styleText_cons i n r :
  styleText i (n :: r) = if node_has_id i n then nodeText n else styleText i r.
Proof.
  unfold styleText, getElementById. simpl.
  destruct (node_has_id i n) eqn:E; simpl.
  - destruct n as [[j|] text|]; simpl in *; try discriminate; reflexivity.
  - destruct (findIndex (node_has_id i) r); reflexivity.
Qed.

Lemma styleText_nil i : styleText i [] = None.
Proof. reflexivity. Qed.

Lemma styleText_app i l1 l2 :
  styleText i (l1 ++ l2) =
    match styleText i l1 with
    | Some t => Some t
    | None => if existsb (node_has_id i) l1 then None else styleText i l2
    end.
Proof.
  induction l1 as [|n r IH]; simpl; [reflexivity|].
  rewrite !styleText_cons. destruct (node_has_id i n) eqn:E; simpl; auto.
  destruct n as [[j|] text|]; simpl in *; try discriminate; reflexivity.
Qed.

Lemma findIndex_None_existsb {A} (f : A -> bool) l :
  findIndex f l = None -> existsb f l = false.
Proof.
  induction l as [|x r IH]; simpl; auto.
  destruct (f x); [discriminate|]. destruct (findIndex f r); [discriminate|auto].
Qed.

Lemma styleText_None_of_existsb i l : existsb (node_has_id i) l = false -> styleText i l = None.
Proof.
  induction l as [|n r IH]; simpl; auto. rewrite styleText_cons.
  destruct (node_has_id i n); simpl; [discriminate|auto].
Qed.

Lemma node_has_id_setInnerHTML i text n : node_has_id i (setInnerHTML text n) = node_has_id i n.
Proof. destruct n as [[j|] t|]; reflexivity. Qed.

(** Two identifiers cannot both name a node. *)
Lemma node_has_id_unique i j n : node_has_id i n = true -> node_has_id j n = true -> i = j.
Proof.
  destruct n as [[k|] t|]; simpl; try discriminate.
  intros H1 H2. apply String.eqb_eq in H1, H2. congruence.
Qed.

(** Replacing the text of the block found by [getElementById]. *)
Lemma styleText_alter i j k text root :
  getElementById i root = Some k ->
  styleText j (alter (setInnerHTML text) k root) =
    if String.eqb i j then Some text else styleText j root.
Proof.
  unfold getElementById. revert k. induction root as [|n r IH]; intros k; simpl; [discriminate|].
  destruct (node_has_id i n) eqn:E.
  - intros [= <-]. simpl. rewrite !styleText_cons, node_has_id_setInnerHTML.
    destruct (String.eqb_spec i j) as [->|Hne].
    + rewrite E. destruct n as [[x|] t|]; simpl in *; try discriminate; reflexivity.
    + destruct (node_has_id j n) eqn:E'; auto.
      exfalso. apply Hne. eapply node_has_id_unique; eauto.
  - destruct (findIndex (node_has_id i) r) as [k'|] eqn:F; simpl; [|discriminate].
    intros [= <-]. simpl. rewrite !styleText_cons.
    destruct (String.eqb_spec i j) as [->|Hne].
    + rewrite E. exact (IH k' eq_refl).
    + destruct (node_has_id j n); auto. exact (IH k' eq_refl).
Qed.

(** Inserting a new block with an identifier no node carries yet. *)
Lemma styleText_insertBefore i j text ref root :
  getElementById i root = None ->
  styleText j (insertBefore (StyleElement (Some i) text) ref root) =
    if String.eqb i j then Some text else styleText j root.
Proof.
  intros Hnone. apply findIndex_None_existsb in Hnone.
  assert (Hsplit : forall l1 l2, root = (l1 ++ l2)%list ->
            styleText j (l1 ++ StyleElement (Some i) text :: l2) =
              if String.eqb i j then Some text else styleText j root).
  { intros l1 l2 ->. rewrite existsb_app in Hnone. apply orb_false_iff in Hnone as [H1 H2].
    rewrite !styleText_app, styleText_cons. simpl.
    destruct (String.eqb_spec i j) as [<-|Hne].
    - rewrite (styleText_None_of_existsb _ _ H1), H1. reflexivity.
    - reflexivity. }
  destruct ref as [k|]; simpl.
  - apply Hsplit. symmetry. apply take_drop.
  - apply (Hsplit root []). now rewrite app_nil_r.
Qed.

Lemma _attachCss_spec css mediaQuery alias this :
  exists root',
    _attachCss css mediaQuery alias this = (Normal tt, with_shadowRoot root' this) /\
    forall j, styleText j root' =
      if String.eqb (styleId (_layoutType this) alias) j
      then Some (styleBlock css mediaQuery)
      else styleText j (shadowRoot this).
Proof.
  unfold _attachCss.
  destruct (getElementById (styleId (_layoutType this) alias) (shadowRoot this)) as [k|] eqn:E.
  - eexists. split; [reflexivity|]. intros j. now apply styleText_alter.
  - eexists. split; [reflexivity|]. intros j. now apply styleText_insertBefore.
Qed.

(** ** One attribute change, phase by phase *)

Lemma setValuesAt_created key m this :
  _propertyMap this !! key = None ->
  setValuesAt key m (with_propertyMap (<[key := []]> (_propertyMap this)) this)
  = setValuesAt key m this.
Proof.
  intros _. unfold setValuesAt, with_propertyMap. simpl. now rewrite insert_insert_eq.
Qed.

Lemma callback_eq hasAttribute name oldValue newValue this :
  attributeChangedCallback hasAttribute name oldValue newValue this =
    let prop := fst (decode name) in
    let alias := snd (decode name) in
    let bp := resolve alias this in
    match findIndexByName prop (BreakPointProperty.properties (deref bp this)) with
    | Throw => (Throw, this)
    | Normal found =>
        rebuild hasAttribute bp alias
          (trackChange prop alias oldValue newValue (registerProperty bp prop found this))
    end.
Proof.
  unfold attributeChangedCallback. destruct (decode name) as [prop alias]. simpl.
  unfold bind at 1. unfold _getBreakpointByAlias, resolve.
  set (bp := match findIndex _ (_breakpoints this) with
             | Some i => InRegistry i | None => AllBreakpoint end).
  assert (Hbp : (match findIndex (fun b => String.eqb (BreakPointProperty.alias b) alias)
                         (_breakpoints this) with
                 | Some bpIndex => (Normal (InRegistry bpIndex), this)
                 | None => (Normal AllBreakpoint, this)
                 end) = (Normal bp, this)).
  { unfold bp. destruct (findIndex _ _); reflexivity. }
  rewrite Hbp. clear Hbp.
  unfold bind at 1. unfold _getPropertyByName.
  destruct (findIndexByName prop (BreakPointProperty.properties (deref bp this)))
    as [found|]; [|reflexivity].
  assert (Hrest : forall (property : option Property.t) (newProp : bool) this1,
    this1 = (if newProp then pushProperty bp property this else this) ->
    (((if newProp then modify (pushProperty bp property) else ret tt) ;;;
      values <- _getValues prop alias ;;
      modify (fun this => setValuesAt values
                (updateCounts (valuesAt values this) oldValue newValue) this) ;;;
      bpv <- read (deref bp) ;;
      let inlineAttr :=
        if truthy (BreakPointProperty.alias bpv)
        then "inline" +:+ SEPARATOR +:+ BreakPointProperty.alias bpv
        else "inline" in
      layoutType <- read _layoutType ;;
      css <- _buildCss (BreakPointProperty.alias bpv) (BreakPointProperty.properties bpv)
               (hasAttribute inlineAttr) layoutType (negb (negb (truthy alias))) ;;
      _attachCss css (BreakPointProperty.mediaQuery bpv) (BreakPointProperty.alias bpv)) this)
    = rebuild hasAttribute bp alias (trackChange prop alias oldValue newValue this1)).
  { intros property newProp this1 ->.
    unfold bind at 1.
    assert (Hpush : (if newProp then modify (pushProperty bp property) else ret tt) this
                    = (Normal tt, if newProp then pushProperty bp property this else this))
      by (destruct newProp; reflexivity).
    rewrite Hpush. clear Hpush.
    set (this1 := if newProp then pushProperty bp property this else this).
    unfold bind at 1. unfold _getValues.
    assert (Htrack : forall this1',
      (this1' = this1 \/
       (_propertyMap this1 !! trackerKey prop alias = None /\
        this1' = with_propertyMap (<[trackerKey prop alias := []]> (_propertyMap this1)) this1)) ->
      setValuesAt (trackerKey prop alias)
        (updateCounts (valuesAt (trackerKey prop alias) this1') oldValue newValue) this1'
      = trackChange prop alias oldValue newValue this1).
    { intros this1' [->|[Hnone ->]]; [reflexivity|].
      unfold trackChange. rewrite setValuesAt_created by auto.
      f_equal. f_equal. unfold valuesAt. simpl. now rewrite lookup_insert_eq, Hnone. }
    destruct (_propertyMap this1 !! trackerKey prop alias) as [m|] eqn:Em.
    - unfold bind, modify, read. rewrite Htrack by (left; reflexivity).
      unfold rebuild. rewrite negb_involutive. reflexivity.
    - unfold bind, modify, read. rewrite Htrack by (right; split; auto).
      unfold rebuild. rewrite negb_involutive. reflexivity. }
  destruct found as [i|]; cbv beta iota;
    [apply (Hrest None false) | apply (Hrest _ true)]; reflexivity.
Qed.

Lemma extends_same_tracker this this' : extends this this' -> same_tracker this this'.
Proof. unfold extends, same_tracker. tauto. Qed.

(** The rebuild writes the block of the breakpoint when the synthesis
    returns, and nothing when it throws; the tracked values stay. *)
Lemma rebuild_spec hasAttribute bp alias this :
  let bpv := deref bp this in
  exists c this',
    rebuild hasAttribute bp alias this = (c, this') /\
    same_tracker this this' /\
    match buildCssOf (tracked this) (BreakPointProperty.alias bpv)
            (BreakPointProperty.properties bpv)
            (hasAttribute (inlineAttrOf (BreakPointProperty.alias bpv)))
            (_layoutType this) (truthy alias) with
    | Normal css =>
        c = Normal tt /\
        forall j, styleText j (shadowRoot this') =
          if String.eqb (styleId (_layoutType this) (BreakPointProperty.alias bpv)) j
          then Some (styleBlock css (BreakPointProperty.mediaQuery bpv))
          else styleText j (shadowRoot this)
    | Throw => c = Throw /\ shadowRoot this' = shadowRoot this
    end.
Proof.
  intros bpv. unfold rebuild. fold bpv.
  destruct (_buildCss_spec (BreakPointProperty.alias bpv) (BreakPointProperty.properties bpv)
              (hasAttribute (inlineAttrOf (BreakPointProperty.alias bpv)))
              (_layoutType this) (truthy alias) this) as (this1 & H1 & E1).
  rewrite H1.
  destruct (buildCssOf _ _ _ _ _ _) as [css|].
  - destruct (_attachCss_spec css (BreakPointProperty.mediaQuery bpv)
                (BreakPointProperty.alias bpv) this1) as (root' & H2 & Hst).
    rewrite H2. exists (Normal tt), (with_shadowRoot root' this1).
    destruct E1 as (Eb & El & Ea & Ep & Es & Ev).
    split; [reflexivity|]. split.
    + unfold same_tracker. simpl. auto.
    + split; [reflexivity|]. intros j. simpl. rewrite Hst, El, Es. reflexivity.
  - exists Throw, this1. split; [reflexivity|]. split.
    + now apply extends_same_tracker.
    + split; [reflexivity|]. now destruct E1 as (_&_&_&_&Es&_).
Qed.

Lemma valuesAt_setValuesAt key m this key' :
  valuesAt key' (setValuesAt key m this) = if String.eqb key key' then m else valuesAt key' this.
Proof.
  unfold valuesAt, setValuesAt. simpl.
  destruct (String.eqb_spec key key') as [->|Hne].
  - now rewrite lookup_insert_eq.
  - now rewrite lookup_insert_ne.
Qed.

Lemma valuesAt_pushProperty bp p this key :
  valuesAt key (pushProperty bp p this) = valuesAt key this.
Proof. destruct bp; reflexivity. Qed.

Lemma valuesAt_registerProperty bp prop found this key :
  valuesAt key (registerProperty bp prop found this) = valuesAt key this.
Proof. destruct found; simpl; auto using valuesAt_pushProperty. Qed.

(** The tracked values after one call: either the call threw during the
    lookup and nothing changed, or exactly the map of the decoded
    property and alias was updated. *)
Lemma callback_tracked hasAttribute name oldValue newValue this :
  let this' := snd (attributeChangedCallback hasAttribute name oldValue newValue this) in
  let key := trackerKey (fst (decode name)) (snd (decode name)) in
  (forall k, valuesAt k this' = valuesAt k this) \/
  (forall k, valuesAt k this' =
     if String.eqb key k then updateCounts (valuesAt key this) oldValue newValue
     else valuesAt k this).
Proof.
  cbv zeta. rewrite callback_eq. cbv zeta.
  destruct (findIndexByName _ _) as [found|]; [|left; reflexivity].
  right. intros k.
  match goal with |- context [rebuild ?h ?bp ?a ?st] =>
    destruct (rebuild_spec h bp a st) as (c & this' & Hr & (_&_&_&_&Hv) & _) end.
  rewrite Hr. simpl. rewrite Hv. unfold trackChange.
  rewrite valuesAt_setValuesAt, !valuesAt_registerProperty. reflexivity.
Qed.

(** ** The calls an instance receives *)

Lemma tracker_ok_valuesAt this : tracker_ok this <-> forall key, counts_ok (valuesAt key this).
Proof.
  unfold tracker_ok, valuesAt. split.
  - intros H key. destruct (_propertyMap this !! key) as [m|] eqn:E; simpl; eauto using counts_ok_nil.
  - intros H key m E. specialize (H key). now rewrite E in H.
Qed.

Lemma tracker_ok_constructor bps layoutType properties :
  tracker_ok (constructor bps layoutType properties).
Proof. intros key m. simpl. rewrite lookup_empty. discriminate. Qed.

Lemma tracker_ok_deliver this c : tracker_ok this -> tracker_ok (deliver this c).
Proof.
  rewrite !tracker_ok_valuesAt. intros Hok key. unfold deliver.
  destruct (callback_tracked (hostHasAttribute c) (attributeName c) (oldValue c) (newValue c) this)
    as [H|H]; rewrite H; auto.
  destruct (String.eqb _ key); auto using updateCounts_ok.
Qed.

(** C2.  After every call of [attributeChangedCallback], whatever the old
    and new values are and whether or not the old value is tracked, every
    entry of every value map of the tracker has a count of at least 1: no
    entry with count 0 persists and no count is negative.  This holds for
    every sequence of calls on a constructed instance, also for calls that
    throw. *)
Theorem tracker_counts_positive bps layoutType properties (cs : list Change) :
  forall key m v count,
    _propertyMap (run (constructor bps layoutType properties) cs) !! key = Some m ->
    In (v, count) m -> 1 <= count.
Proof.
  assert (H : tracker_ok (run (constructor bps layoutType properties) cs)).
  { unfold run. generalize (tracker_ok_constructor bps layoutType properties).
    generalize (constructor bps layoutType properties).
    induction cs as [|c r IH]; intros this Hok; simpl; auto.
    apply IH. now apply tracker_ok_deliver. }
  intros key m v count Hm Hin. apply (H key m Hm (v, count) Hin).
Qed.

(** ** Tracker keys *)

Lemma append_String c s t : String c s +:+ t = String c (s +:+ t).
Proof. reflexivity. Qed.

Lemma contains_append_char c s t : contains c (s +:+ String c t) = true.
Proof.
  induction s as [|d s IH]; simpl.
  - now rewrite Ascii.eqb_refl.
  - rewrite IH. apply orb_true_r.
Qed.

(** Two strings free of [c] followed by [c] and a rest: the first [c]
    marks where the prefixes end. *)
Lemma split_at_char c s s' t t' :
  contains c s = false -> contains c s' = false ->
  s +:+ String c t = s' +:+ String c t' -> s = s' /\ t = t'.
Proof.
  revert s'. induction s as [|d s IH]; intros [|d' s']; simpl; intros Hs Hs' Heq.
  - injection Heq as ->. auto.
  - injection Heq as <- _. now rewrite Ascii.eqb_refl in Hs'.
  - injection Heq as -> _. now rewrite Ascii.eqb_refl in Hs.
  - apply orb_false_iff in Hs as [_ Hs]. apply orb_false_iff in Hs' as [_ Hs'].
    injection Heq as -> Heq. destruct (IH s' Hs Hs' Heq) as [-> ->]. auto.
Qed.

Lemma truthy_false s : truthy s = false -> s = EmptyString.
Proof. destruct s; [reflexivity|discriminate]. Qed.

(** On property names without a dot, the tracker key determines the
    property and the alias. *)
Lemma trackerKey_inj p a p' a' :
  contains dot p = false -> contains dot p' = false ->
  trackerKey p a = trackerKey p' a' -> p = p' /\ a = a'.
Proof.
  intros Hp Hp'. unfold trackerKey.
  destruct (truthy a) eqn:Ea, (truthy a') eqn:Ea'; intros Heq.
  - change ("." +:+ a) with (String dot a) in Heq.
    change ("." +:+ a') with (String dot a') in Heq.
    now apply (split_at_char dot).
  - subst p'. change ("." +:+ a) with (String dot a) in Hp'.
    now rewrite contains_append_char in Hp'.
  - subst p. change ("." +:+ a') with (String dot a') in Hp.
    now rewrite contains_append_char in Hp.
  - apply truthy_false in Ea, Ea'. subst. auto.
Qed.

(** ** Elements and the attributes they carry *)

Lemma pair_eqb_spec x y : reflect (x = y) (pair_eqb x y).
Proof.
  destruct x as [a b], y as [a' b']. unfold pair_eqb. simpl.
  destruct (String.eqb_spec a a'), (String.eqb_spec b b'); simpl; constructor; congruence.
Qed.

Lemma carriers_other elements w e pa v pa' s :
  pa <> pa' -> carriers elements (setAttribute w e pa v) pa' s = carriers elements w pa' s.
Proof.
  intros Hne. unfold carriers. do 2 f_equal.
  apply filter_ext. intros x. unfold carries, setAttribute.
  destruct (pair_eqb_spec pa pa'); [contradiction|]. now rewrite andb_false_r.
Qed.

Lemma carriers_absent elements w e pa v s :
  ~ In e elements -> carriers elements (setAttribute w e pa v) pa s = carriers elements w pa s.
Proof.
  intros Hnin. unfold carriers. do 2 f_equal.
  induction elements as [|x r IH]; simpl; auto.
  assert (Hx : carries (setAttribute w e pa v) pa s x = carries w pa s x).
  { unfold carries, setAttribute. destruct (Nat.eqb_spec e x) as [->|]; simpl; auto.
    exfalso. apply Hnin. now left. }
  rewrite Hx, IH; auto. intros H. apply Hnin. now right.
Qed.

(** Changing the attribute of one element moves one carrier. *)
Lemma carriers_setAttribute elements w e pa v s :
  List.NoDup elements -> In e elements ->
  carriers elements (setAttribute w e pa v) pa s =
    carriers elements w pa s - ind (w e pa) s + ind v s.
Proof.
  intros Hnd Hin. induction Hnd as [|x r Hx Hnd IH]; [destruct Hin|].
  destruct (Nat.eq_dec x e) as [->|Hne].
  - pose proof (carriers_absent r w e pa v s Hx) as Habs.
    unfold carriers in *. simpl.
    assert (H1 : carries (setAttribute w e pa v) pa s e = match v with Some t => String.eqb t s | None => false end).
    { unfold carries, setAttribute. rewrite Nat.eqb_refl. simpl.
      destruct (pair_eqb_spec pa pa); [reflexivity|congruence]. }
    assert (H2 : carries w pa s e = match w e pa with Some u => String.eqb u s | None => false end)
      by reflexivity.
    rewrite H1, H2. unfold ind.
    set (A := List.filter (carries (setAttribute w e pa v) pa s) r) in *.
    set (B := List.filter (carries w pa s) r) in *.
    destruct v as [t|], (w e pa) as [u|];
      repeat match goal with |- context [String.eqb ?a ?b] => destruct (String.eqb a b) end;
      simpl length; lia.
  - destruct Hin as [->|Hin]; [congruence|]. specialize (IH Hin).
    unfold carriers in *. simpl.
    assert (H1 : carries (setAttribute w e pa v) pa s x = carries w pa s x).
    { unfold carries, setAttribute. destruct (Nat.eqb_spec e x); [congruence|reflexivity]. }
    rewrite H1.
    set (A := List.filter (carries (setAttribute w e pa v) pa s) r) in *.
    set (B := List.filter (carries w pa s) r) in *.
    destruct (carries w pa s x); simpl length; lia.
Qed.

Lemma carriers_pos elements w e pa s :
  In e elements -> w e pa = Some s -> 1 <= carriers elements w pa s.
Proof.
  intros Hin Hw. unfold carriers.
  induction elements as [|x r IH]; [destruct Hin|]. simpl.
  destruct Hin as [->|Hin].
  - assert (H1 : carries w pa s e = true)
      by (unfold carries; now rewrite Hw, String.eqb_refl).
    rewrite H1. simpl length. lia.
  - specialize (IH Hin). set (B := List.filter (carries w pa s) r) in *.
    destruct (carries w pa s x); simpl length; lia.
Qed.

(** ** Active lists *)

Lemma deref_In bp this :
  In (deref bp this) (_breakpoints this) \/ deref bp this = _allBreakpoint this.
Proof.
  destruct bp as [i|]; simpl; auto.
  destruct (_breakpoints this !! i) as [b|] eqn:E; simpl; auto.
  left. apply list_elem_of_In. eapply list_elem_of_lookup_2; eauto.
Qed.

Lemma deref_defined bp this :
  active_defined this -> ~ In None (BreakPointProperty.properties (deref bp this)).
Proof.
  intros [H1 H2]. destruct (deref_In bp this) as [H| ->]; auto.
Qed.

Lemma findIndexByName_defined prop l :
  ~ In None l -> exists found, findIndexByName prop l = Normal found.
Proof.
  induction l as [|[p|] r IH]; simpl; intros H.
  - eauto.
  - destruct (String.eqb (Property.name p) prop); eauto.
    destruct IH as [found ->]; eauto.
  - exfalso. apply H. now left.
Qed.

Lemma In_alter {A} (f : A -> A) i (l : list A) x :
  In x (alter f i l) -> In x l \/ exists y, l !! i = Some y /\ x = f y.
Proof.
  revert i. induction l as [|a r IH]; intros [|i]; simpl; auto.
  - intros [<-|H]; eauto.
  - intros [<-|H]; auto. destruct (IH _ H) as [?|(y&?&?)]; eauto.
Qed.

Lemma lookup_In {A} (l : list A) i x : l !! i = Some x -> In x l.
Proof. intros H. apply list_elem_of_In. eapply list_elem_of_lookup_2; eauto. Qed.

Lemma active_defined_push bp p this :
  active_defined this -> active_defined (pushProperty bp (Some p) this).
Proof.
  intros [H1 H2]. destruct bp as [i|]; split; simpl; auto.
  - intros b Hb. apply In_alter in Hb as [Hb|(y & Hy & ->)]; auto.
    simpl. rewrite in_app_iff. intros [H|[H|[]]]; [|discriminate].
    apply lookup_In in Hy. now apply (H1 y).
  - rewrite in_app_iff. intros [H|[H|[]]]; [|discriminate]. auto.
Qed.

Lemma active_defined_config this this' :
  _breakpoints this' = _breakpoints this -> _allBreakpoint this' = _allBreakpoint this ->
  active_defined this -> active_defined this'.
Proof. unfold active_defined. intros -> ->. auto. Qed.

(** The instance after a call: unchanged when the lookup threw, otherwise
    the registration and the tracker update, then the rebuild (which keeps
    the configuration and the tracked values). *)
Lemma deliver_cases this c :
  let prop := fst (decode (attributeName c)) in
  let alias := snd (decode (attributeName c)) in
  let bp := resolve alias this in
  match findIndexByName prop (BreakPointProperty.properties (deref bp this)) with
  | Throw => deliver this c = this
  | Normal found =>
      same_tracker
        (trackChange prop alias (oldValue c) (newValue c) (registerProperty bp prop found this))
        (deliver this c)
  end.
Proof.
  cbv zeta. unfold deliver. rewrite callback_eq. cbv zeta.
  destruct (findIndexByName _ _) as [found|]; [|reflexivity].
  match goal with |- context [rebuild ?h ?bp ?a ?st] =>
    destruct (rebuild_spec h bp a st) as (r & this' & Hr & Hs & _) end.
  now rewrite Hr.
Qed.

Lemma deliver_properties this c : _properties (deliver this c) = _properties this.
Proof.
  pose proof (deliver_cases this c) as H. cbv zeta in H.
  destruct (findIndexByName _ _) as [found|]; [|now rewrite H].
  destruct H as (_&_&_&->&_). unfold trackChange, setValuesAt. simpl.
  destruct found; simpl; auto. now destruct (resolve _ this).
Qed.

Lemma deliver_layoutType this c : _layoutType (deliver this c) = _layoutType this.
Proof.
  pose proof (deliver_cases this c) as H. cbv zeta in H.
  destruct (findIndexByName _ _) as [found|]; [|now rewrite H].
  destruct H as (_&->&_). unfold trackChange, setValuesAt. simpl.
  destruct found; simpl; auto. now destruct (resolve _ this).
Qed.

(** ** Reference counts *)

Section ReferenceCounts.
Variable elements : list nat.
Hypothesis elements_NoDup : List.NoDup elements.

Lemma counts_match_deliver this w c :
  tracker_ok this -> active_defined this -> counts_match elements this w ->
  expected elements (_properties this) c ->
  oldValue c = w (target c) (decode (attributeName c)) ->
  active_defined (deliver this c) /\ counts_match elements (deliver this c) (applyChange w c).
Proof.
  intros Hok Hdef Hcm (Hel & Hdot & Hreg) Hold.
  pose proof (deliver_cases this c) as H. cbv zeta in H.
  set (prop := fst (decode (attributeName c))) in *.
  set (alias := snd (decode (attributeName c))) in *.
  set (bp := resolve alias this) in *.
  destruct (findIndexByName_defined prop _ (deref_defined bp this Hdef)) as [found Hf].
  rewrite Hf in H. destruct H as (Hb & _ & Ha & _ & Hv).
  assert (Hdef1 : active_defined (registerProperty bp prop found this)).
  { destruct found as [i|]; simpl; auto. unfold isRegistered in Hreg.
    destruct (findByName prop (_properties this)); [|discriminate].
    now apply active_defined_push. }
  split.
  - eapply active_defined_config; [exact Hb|exact Ha|]. exact Hdef1.
  - intros p a v Hp. rewrite Hv. unfold trackChange.
    rewrite valuesAt_setValuesAt, !valuesAt_registerProperty.
    unfold applyChange. replace (decode (attributeName c)) with (prop, alias)
      by (unfold prop, alias; now destruct (decode (attributeName c))).
    destruct (String.eqb_spec (trackerKey prop alias) (trackerKey p a)) as [Heq|Hne].
    + apply trackerKey_inj in Heq as [<- <-]; auto.
      rewrite countOf_updateCounts.
      * rewrite carriers_setAttribute by auto. rewrite Hcm by auto.
        rewrite Hold. unfold prop, alias. now destruct (decode (attributeName c)).
      * apply tracker_ok_valuesAt. auto.
      * intros o Ho. rewrite Hcm by auto. eapply carriers_pos; eauto.
        rewrite <- Ho, Hold. unfold prop, alias. now destruct (decode (attributeName c)).
    + rewrite carriers_other; auto. congruence.
Qed.

Lemma counts_match_run properties cs : forall this w,
  _properties this = properties ->
  tracker_ok this -> active_defined this -> counts_match elements this w ->
  (forall c, In c cs -> expected elements properties c) ->
  well_formed w cs ->
  counts_match elements (run this cs) (world_after w cs).
Proof.
  induction cs as [|c r IH]; intros this w Hp Hok Hdef Hcm Hexp Hwf; simpl; auto.
  destruct Hwf as [Hold Hwf].
  assert (Hc : expected elements (_properties this) c) by (rewrite Hp; apply Hexp; now left).
  destruct (counts_match_deliver this w c Hok Hdef Hcm Hc Hold) as [Hdef' Hcm'].
  apply IH; auto.
  - now rewrite deliver_properties.
  - now apply tracker_ok_deliver.
  - intros c' Hc'. apply Hexp. now right.
Qed.
End ReferenceCounts.

Lemma active_defined_constructor bps layoutType properties :
  registry_defined bps -> active_defined (constructor bps layoutType properties).
Proof. intros H. split; simpl; auto. Qed.

Lemma carriers_noAttributes elements pa v : carriers elements noAttributes pa v = 0.
Proof.
  unfold carriers. induction elements as [|e r IH]; simpl; auto.
Qed.

(** * Theorems *)

(** C1 (as amended).  Reference-count correctness of the value tracker.
    For every sequence of changes delivered to [attributeChangedCallback]
    of a constructed instance that is well-formed (each change reports as
    old value the value the element carried for the decoded property and
    alias, [None] for absent) and whose property names are registered in
    the property registry and contain no dot, the count stored for a value
    under the key of a (property, alias) equals the number of elements that
    carry that value for that property and alias.  As the sequence is
    arbitrary, this holds after every change. *)
Theorem reference_counts_correct bps layoutType properties elements (cs : list Change) :
  List.NoDup elements ->
  registry_defined bps ->
  well_formed noAttributes cs ->
  (forall c, In c cs -> expected elements properties c) ->
  forall prop alias v, contains dot prop = false ->
    countOf (valuesAt (trackerKey prop alias) (run (constructor bps layoutType properties) cs)) v
    = carriers elements (world_after noAttributes cs) (prop, alias) v.
Proof.
  intros Hnd Hreg Hwf Hexp.
  apply (counts_match_run elements Hnd properties cs); auto.
  - apply tracker_ok_constructor.
  - now apply active_defined_constructor.
  - intros prop alias v _. rewrite carriers_noAttributes. reflexivity.
Qed.

Lemma reference_counts_correct_witness :
  countOf (valuesAt (trackerKey "fill" "") (run Sample.flexLayout Sample.threeChanges)) "1"
  = carriers [0%nat; 1%nat; 2%nat] (world_after noAttributes Sample.threeChanges) ("fill", "") "1"
  /\ carriers [0%nat; 1%nat; 2%nat] (world_after noAttributes Sample.threeChanges) ("fill", "") "1" = 1.
Proof.
  split; [|vm_compute; reflexivity].
  apply (reference_counts_correct [Sample.sm] "flex" [Sample.gap; Sample.fill]
           [0%nat; 1%nat; 2%nat] Sample.threeChanges).
  - repeat constructor; simpl; intuition lia.
  - intros bp [<-|[]]. simpl. tauto.
  - simpl. repeat split; reflexivity.
  - intros c [<-|[<-|[<-|[]]]]; (split; [simpl; tauto|split; vm_compute; reflexivity]).
  - reflexivity.
Defined.

(** C1, counterexample.  The property [a.b] at the empty alias and the
    property [a] at the alias [b] share the tracker key [a.b]: after one
    element received [a.b] and another one [a-b], both with the value [x],
    the count stored under the key of ([a], [b]) is 2 although one element
    carries that attribute. *)
Lemma reference_counts_key_collision :
  well_formed noAttributes Sample.collidingChanges /\
  countOf (valuesAt (trackerKey "a" "b") (run Sample.dottedLayout Sample.collidingChanges)) "x" = 2 /\
  carriers [1%nat; 2%nat] (world_after noAttributes Sample.collidingChanges) ("a", "b") "x" = 1.
Proof.
  split; [|split]; vm_compute; auto.
Qed.

Lemma tracker_counts_positive_witness :
  _propertyMap (run Sample.flexLayout
                  [mkChange 0 "gap" (Some "4px") (Some "8px") Sample.noAttribute]) !! "gap"
    = Some [("8px", 1)]
  /\ 1 <= 1.
Proof.
  split; [vm_compute; reflexivity|].
  apply (tracker_counts_positive [Sample.sm] "flex" [Sample.gap; Sample.fill]
           [mkChange 0 "gap" (Some "4px") (Some "8px") Sample.noAttribute]
           "gap" [("8px", 1)] "8px" 1).
  - vm_compute. reflexivity.
  - simpl. auto.
Defined.

(** ** The CSS object *)

Lemma bucket_set_eq (css : CssObject) sel d : bucket (JsMap.set css sel d) sel = d.
Proof. unfold bucket. now rewrite get_set_eq. Qed.

Lemma bucket_set_ne (css : CssObject) sel sel' d :
  sel <> sel' -> bucket (JsMap.set css sel d) sel' = bucket css sel'.
Proof. intros H. unfold bucket. now rewrite get_set_ne. Qed.

Lemma childSelector_not_parentKey name alias key : childSelector name alias key <> parentKey.
Proof. unfold childSelector, wrapChildKey, parentKey. simpl. discriminate. Qed.

Lemma childSelector_not_allChildKey name alias key : childSelector name alias key <> allChildKey.
Proof. unfold childSelector, wrapChildKey, allChildKey, parentKey. simpl. discriminate. Qed.

Lemma get_childStepOf_other vals alias p (css : CssObject) sel :
  (forall key, childSelector (Property.name p) alias key <> sel) ->
  JsMap.get (childStepOf vals alias css p) sel = JsMap.get css sel.
Proof.
  intros Hne. unfold childStepOf.
  generalize (JsMap.keys (vals (trackerKey (Property.name p) alias))). intros ks.
  revert css. induction ks as [|k r IH]; intros css; simpl; auto.
  rewrite IH. apply get_set_ne. apply Hne.
Qed.

(** The child loop leaves the host bucket alone. *)
Lemma bucket_fold_childStepOf vals alias cp css :
  bucket (fold_left (childStepOf vals alias) cp css) parentKey = bucket css parentKey.
Proof.
  revert css. induction cp as [|p r IH]; intros css; simpl; auto.
  rewrite IH. unfold bucket. rewrite get_childStepOf_other; [reflexivity|].
  intros key. apply childSelector_not_parentKey.
Qed.

Lemma bucket_injectDisplay css inline layoutType applyDefaults :
  bucket (injectDisplay css inline layoutType applyDefaults) parentKey =
    if negb (Nat.eqb (length (bucket css parentKey)) 0) || applyDefaults
    then JsMap.set (bucket css parentKey) "display" (displayValue inline layoutType)
    else bucket css parentKey.
Proof.
  unfold injectDisplay, JsMap.keys. rewrite length_map.
  destruct (negb _ || applyDefaults); auto.
  unfold setIn. apply bucket_set_eq.
Qed.

(** C3.  Default display injection rule.  For every invocation of
    [_buildCss] that returns, the host bucket of the returned CSS object
    contains a [display] declaration if and only if the host bucket is
    non-empty after the loop over the host-scoped properties or
    [applyDefaults] is true; when present, its value is
    [inline-<layoutType>] if the inline flag is set and [<layoutType>]
    otherwise. *)
Theorem display_injection_rule alias properties (inline : bool) layoutType
    (applyDefaults : bool) this css this' :
  _buildCss alias properties inline layoutType applyDefaults this = (Normal css, this') ->
  exists parentProps cssHost,
    filterProps (fun p => negb (Property.child p)) properties = Normal parentProps /\
    fst (forEach (hostStep alias) parentProps [(parentKey, []); (allChildKey, [])] this)
      = Normal cssHost /\
    (JsMap.has (bucket css parentKey) "display" = true
     <-> (bucket cssHost parentKey <> [] \/ applyDefaults = true)) /\
    (JsMap.has (bucket css parentKey) "display" = true ->
     JsMap.get (bucket css parentKey) "display"
       = Some (if inline then "inline-" +:+ layoutType else layoutType)).
Proof.
  intros Hb.
  destruct (_buildCss_spec alias properties inline layoutType applyDefaults this)
    as (this1 & Hspec & _).
  rewrite Hb in Hspec. injection Hspec as Hcss _. unfold buildCssOf in Hcss.
  destruct (filterProps (fun p => negb (Property.child p)) properties) as [pp|]; [|discriminate].
  destruct (filterProps Property.child properties) as [cp|]; [|discriminate].
  destruct (forEach_hostStep_spec alias pp emptyCss this) as (this2 & Hh & _).
  unfold emptyCss in *.
  destruct (foldC (hostStepOf (tracked this) alias) pp _) as [cssH|] eqn:EH; [|discriminate].
  injection Hcss as ->.
  exists pp, cssH. split; [reflexivity|]. split; [now rewrite Hh|].
  rewrite bucket_injectDisplay, bucket_fold_childStepOf.
  fold (displayValue inline layoutType).
  destruct (bucket cssH parentKey) as [|d ds] eqn:Eb.
  - destruct applyDefaults; cbn [length Nat.eqb negb orb].
    + unfold JsMap.has. rewrite get_set_eq. split; [|reflexivity].
      split; auto.
    + unfold JsMap.has. cbn [JsMap.get]. split; [|discriminate].
      split; [discriminate|]. intros [H|H]; congruence.
  - cbn [length Nat.eqb negb orb]. unfold JsMap.has. rewrite get_set_eq.
    split; [|reflexivity]. split; intros; auto; left; discriminate.
Qed.

Lemma display_injection_rule_witness :
  JsMap.get (bucket [(":host", [("display", "inline-flex")]); (":host>*", [])] parentKey) "display"
    = Some "inline-flex".
Proof.
  destruct (display_injection_rule "sm" [Some Sample.gap] true "flex" true Sample.flexLayout
              [(":host", [("display", "inline-flex")]); (":host>*", [])]
              (snd (_buildCss "sm" [Some Sample.gap] true "flex" true Sample.flexLayout)))
    as (pp & cssH & _ & _ & _ & H).
  - vm_compute. reflexivity.
  - apply H. vm_compute. reflexivity.
Defined.

(** ** Determinism of the synthesis *)

(** The CSS object is a function of what the synthesizer reads from the
    tracker. *)
Lemma _buildCss_agree alias properties inline layoutType applyDefaults this1 this2 :
  reads_agree alias properties (tracked this1) (tracked this2) ->
  fst (_buildCss alias properties inline layoutType applyDefaults this1)
  = fst (_buildCss alias properties inline layoutType applyDefaults this2).
Proof.
  intros H.
  destruct (_buildCss_spec alias properties inline layoutType applyDefaults this1) as (s1 & -> & _).
  destruct (_buildCss_spec alias properties inline layoutType applyDefaults this2) as (s2 & -> & _).
  simpl. now apply buildCssOf_agree.
Qed.

(** C9.  Idempotent re-synthesis.  The update functions being functions of
    (value, alias), two invocations of the CSS synthesis ([_buildCss], then
    the serialization) with the same arguments, the second on the instance
    the first one left, produce the same CSS object and byte-identical CSS
    text (or throw both). *)
Theorem idempotent_resynthesis alias properties inline layoutType applyDefaults this :
  let first := _buildCss alias properties inline layoutType applyDefaults this in
  let second := _buildCss alias properties inline layoutType applyDefaults (snd first) in
  fst second = fst first /\ cssTextOf (fst second) = cssTextOf (fst first).
Proof.
  cbv zeta.
  assert (H : fst (_buildCss alias properties inline layoutType applyDefaults
                     (snd (_buildCss alias properties inline layoutType applyDefaults this)))
              = fst (_buildCss alias properties inline layoutType applyDefaults this)).
  { apply _buildCss_agree. apply reads_agree_pointwise. intros key.
    destruct (_buildCss_spec alias properties inline layoutType applyDefaults this)
      as (s1 & -> & E). simpl. apply (extends_tracked _ _ _ E). }
  split; [exact H|]. now rewrite H.
Qed.

(** The first key of a map stays first through a tracker update that does
    not report it as the old value: values set later never overtake it. *)
Lemma updateCounts_keeps_first m k0 oldValue newValue :
  head (JsMap.keys m) = Some k0 -> oldValue <> Some k0 ->
  head (JsMap.keys (updateCounts m oldValue newValue)) = Some k0.
Proof.
  intros Hh Hold. unfold updateCounts.
  assert (Hset : forall (m' : list (string * Z)) k v, head (JsMap.keys m') = Some k0 ->
                                head (JsMap.keys (JsMap.set m' k v)) = Some k0).
  { intros m' k v H. rewrite head_keys_set; auto. intros ->. discriminate. }
  set (m1 := match oldValue with
             | Some o => match JsMap.get m o with
                         | Some c => JsMap.set m o (c - 1)
                         | None => m
                         end
             | None => m
             end).
  assert (H1 : head (JsMap.keys m1) = Some k0).
  { unfold m1. destruct oldValue as [o|]; auto. destruct (JsMap.get m o); auto. }
  set (m2 := match newValue with
             | Some n => JsMap.set m1 n (orZero (JsMap.get m1 n) + 1)
             | None => m1
             end).
  assert (H2 : head (JsMap.keys m2) = Some k0).
  { unfold m2. destruct newValue; auto. }
  destruct oldValue as [o|]; auto.
  destruct (JsMap.get m2 o) as [c|]; auto.
  destruct (Z.eqb c 0); auto.
  apply head_keys_delete; auto. congruence.
Qed.

(** ** References to breakpoints *)

Lemma findIndex_Some {A} (f : A -> bool) l i :
  findIndex f l = Some i -> exists x, l !! i = Some x /\ f x = true.
Proof.
  revert i. induction l as [|a r IH]; intros i; simpl; [discriminate|].
  destruct (f a) eqn:E.
  - intros [= <-]. eauto.
  - destruct (findIndex f r) as [k|]; simpl; [|discriminate].
    intros [= <-]. destruct (IH k eq_refl) as (x & ? & ?). eauto.
Qed.

Lemma findIndex_None {A} (f : A -> bool) l x :
  findIndex f l = None -> In x l -> f x = false.
Proof.
  induction l as [|a r IH]; simpl; [tauto|].
  destruct (f a) eqn:E; [discriminate|].
  destruct (findIndex f r); [discriminate|].
  intros _ [<-|H]; auto.
Qed.

Lemma resolve_valid alias this : valid_ref (resolve alias this) this.
Proof.
  unfold resolve. destruct (findIndex _ _) as [i|] eqn:E; simpl; auto.
  apply findIndex_Some in E as (x & -> & _). eauto.
Qed.

(** A registered alias resolves to a descriptor that carries it. *)
Lemma resolve_registered alias this :
  In alias (map BreakPointProperty.alias (_breakpoints this)) ->
  BreakPointProperty.alias (deref (resolve alias this) this) = alias.
Proof.
  intros Hin. unfold resolve.
  destruct (findIndex _ _) as [i|] eqn:E; simpl.
  - apply findIndex_Some in E as (x & -> & Hx). simpl. now apply String.eqb_eq.
  - apply in_map_iff in Hin as (b & <- & Hb).
    pose proof (findIndex_None _ _ b E Hb) as H. simpl in H.
    now rewrite String.eqb_refl in H.
Qed.

Lemma resolve_unregistered alias this :
  ~ In alias (map BreakPointProperty.alias (_breakpoints this)) ->
  resolve alias this = AllBreakpoint.
Proof.
  intros Hnin. unfold resolve.
  destruct (findIndex _ _) as [i|] eqn:E; auto.
  apply findIndex_Some in E as (x & Hx & Heq). exfalso. apply Hnin.
  apply String.eqb_eq in Heq. subst alias. apply in_map.
  apply list_elem_of_In. eapply list_elem_of_lookup_2; eauto.
Qed.

Lemma deref_pushProperty bp p this :
  valid_ref bp this ->
  deref bp (pushProperty bp p this) = BreakPointProperty.push p (deref bp this).
Proof.
  destruct bp as [i|]; simpl; auto.
  intros [b Hb]. rewrite Hb. rewrite list_lookup_alter_eq, Hb. reflexivity.
Qed.

Lemma deref_setValuesAt bp key m this : deref bp (setValuesAt key m this) = deref bp this.
Proof. destruct bp; reflexivity. Qed.

(** The descriptor of the breakpoint when the rebuild starts. *)
Lemma deref_tracked bp prop alias o n found this :
  valid_ref bp this ->
  deref bp (trackChange prop alias o n (registerProperty bp prop found this)) =
    match found with
    | Some _ => deref bp this
    | None => BreakPointProperty.push (findByName prop (_properties this)) (deref bp this)
    end.
Proof.
  intros Hv. unfold trackChange. rewrite deref_setValuesAt.
  destruct found; simpl; auto. now apply deref_pushProperty.
Qed.

Lemma layoutType_tracked bp prop alias o n found this :
  _layoutType (trackChange prop alias o n (registerProperty bp prop found this)) = _layoutType this.
Proof. destruct found; simpl; auto. now destruct bp. Qed.

Lemma shadowRoot_tracked bp prop alias o n found this :
  shadowRoot (trackChange prop alias o n (registerProperty bp prop found this)) = shadowRoot this.
Proof. destruct found; simpl; auto. now destruct bp. Qed.

(** ** The frame of one call *)

(** One call writes at most the block of the resolved breakpoint. *)
Lemma callback_frame hasAttribute name oldValue newValue this j :
  j <> styleId (_layoutType this)
         (BreakPointProperty.alias (deref (resolve (snd (decode name)) this) this)) ->
  styleText j (shadowRoot (snd (attributeChangedCallback hasAttribute name oldValue newValue this)))
  = styleText j (shadowRoot this).
Proof.
  intros Hj. rewrite callback_eq. cbv zeta.
  set (prop := fst (decode name)). set (alias := snd (decode name)) in *.
  set (bp := resolve alias this) in *.
  destruct (findIndexByName prop _) as [found|]; [|reflexivity].
  pose proof (resolve_valid alias this) as Hv. fold bp in Hv.
  set (this2 := trackChange prop alias oldValue newValue (registerProperty bp prop found this)).
  destruct (rebuild_spec hasAttribute bp alias this2) as (c & this' & Hr & _ & Hcase).
  rewrite Hr. simpl.
  assert (Ha : BreakPointProperty.alias (deref bp this2)
               = BreakPointProperty.alias (deref bp this)).
  { unfold this2. rewrite deref_tracked by auto. now destruct found. }
  assert (Hl : _layoutType this2 = _layoutType this) by apply layoutType_tracked.
  assert (Hs : shadowRoot this2 = shadowRoot this) by apply shadowRoot_tracked.
  cbv zeta in Hcase. destruct (buildCssOf _ _ _ _ _ _) as [css|].
  - destruct Hcase as [_ Hst]. rewrite Hst, Ha, Hl, Hs.
    destruct (String.eqb_spec (styleId (_layoutType this)
                (BreakPointProperty.alias (deref bp this))) j); [congruence|reflexivity].
  - destruct Hcase as [_ ->]. now rewrite Hs.
Qed.

Lemma otherNodes_app i l1 l2 : otherNodes i (l1 ++ l2) = (otherNodes i l1 ++ otherNodes i l2)%list.
Proof. unfold otherNodes. apply List.filter_app. Qed.

Lemma otherNodes_alter i text k root :
  getElementById i root = Some k ->
  otherNodes i (alter (setInnerHTML text) k root) = otherNodes i root.
Proof.
  unfold getElementById. revert k. induction root as [|n r IH]; intros k; simpl; [discriminate|].
  destruct (node_has_id i n) eqn:E.
  - intros [= <-]. simpl. now rewrite node_has_id_setInnerHTML, E.
  - destruct (findIndex (node_has_id i) r) as [k'|]; simpl; [|discriminate].
    intros [= <-]. simpl. rewrite E. simpl. f_equal. now apply IH.
Qed.

Lemma otherNodes_insertBefore i text ref root :
  otherNodes i (insertBefore (StyleElement (Some i) text) ref root) = otherNodes i root.
Proof.
  assert (Hnew : otherNodes i [StyleElement (Some i) text] = []).
  { unfold otherNodes. simpl. now rewrite String.eqb_refl. }
  destruct ref as [k|]; simpl.
  - change (StyleElement (Some i) text :: drop k root)
      with ([StyleElement (Some i) text] ++ drop k root)%list.
    rewrite !otherNodes_app, Hnew. simpl. rewrite <- otherNodes_app. now rewrite take_drop.
  - rewrite otherNodes_app, Hnew. apply app_nil_r.
Qed.

Lemma _attachCss_others css mediaQuery alias this :
  otherNodes (styleId (_layoutType this) alias)
    (shadowRoot (snd (_attachCss css mediaQuery alias this)))
  = otherNodes (styleId (_layoutType this) alias) (shadowRoot this).
Proof.
  unfold _attachCss.
  destruct (getElementById _ _) as [k|] eqn:E; simpl.
  - now apply otherNodes_alter.
  - apply otherNodes_insertBefore.
Qed.

Lemma rebuild_others hasAttribute bp alias this :
  otherNodes (styleId (_layoutType this) (BreakPointProperty.alias (deref bp this)))
    (shadowRoot (snd (rebuild hasAttribute bp alias this)))
  = otherNodes (styleId (_layoutType this) (BreakPointProperty.alias (deref bp this)))
      (shadowRoot this).
Proof.
  unfold rebuild.
  destruct (_buildCss_spec (BreakPointProperty.alias (deref bp this))
              (BreakPointProperty.properties (deref bp this))
              (hasAttribute (inlineAttrOf (BreakPointProperty.alias (deref bp this))))
              (_layoutType this) (truthy alias) this) as (this1 & -> & (_ & El & _ & _ & Es & _)).
  destruct (buildCssOf _ _ _ _ _ _) as [css|]; simpl; [|now rewrite Es].
  rewrite <- El, <- Es. apply _attachCss_others.
Qed.

(** One call leaves every node but the block of the resolved breakpoint as
    it was, in the same order. *)
Lemma callback_others hasAttribute name oldValue newValue this :
  let i := styleId (_layoutType this)
             (BreakPointProperty.alias (deref (resolve (snd (decode name)) this) this)) in
  otherNodes i
    (shadowRoot (snd (attributeChangedCallback hasAttribute name oldValue newValue this)))
  = otherNodes i (shadowRoot this).
Proof.
  cbv zeta. rewrite callback_eq. cbv zeta.
  set (prop := fst (decode name)). set (alias := snd (decode name)) in *.
  set (bp := resolve alias this) in *.
  destruct (findIndexByName prop _) as [found|]; [|reflexivity].
  pose proof (resolve_valid alias this) as Hv. fold bp in Hv.
  set (this2 := trackChange prop alias oldValue newValue (registerProperty bp prop found this)).
  assert (Ha : BreakPointProperty.alias (deref bp this2)
               = BreakPointProperty.alias (deref bp this)).
  { unfold this2. rewrite deref_tracked by auto. now destruct found. }
  assert (Hl : _layoutType this2 = _layoutType this) by apply layoutType_tracked.
  assert (Hs : shadowRoot this2 = shadowRoot this) by apply shadowRoot_tracked.
  rewrite <- Ha, <- Hl, <- Hs. apply rebuild_others.
Qed.

Lemma append_inv_head s t t' : s +:+ t = s +:+ t' -> t = t'.
Proof. induction s as [|c s IH]; simpl; [auto|]. intros [= H]. auto. Qed.

(** Two aliases have the same block identifier only when they are equal
    or are the empty alias and the alias [all]. *)
Lemma styleId_inj layoutType a b :
  styleId layoutType a = styleId layoutType b ->
  a = b \/ ((a = "" \/ a = "all") /\ (b = "" \/ b = "all")).
Proof.
  unfold styleId. intros H. apply append_inv_head in H. apply append_inv_head in H.
  destruct (truthy a) eqn:Ea, (truthy b) eqn:Eb; auto.
  - apply truthy_false in Eb. subst. auto.
  - apply truthy_false in Ea. subst. auto.
  - apply truthy_false in Ea, Eb. subst. auto.
Qed.

(** C8 (as amended).  Breakpoint isolation.  For every attribute change
    whose alias matches a breakpoint of the registry, the call writes only
    the style block whose identifier is derived from that alias: every other
    node of the shadow root stays as it was, and the block of every other
    alias keeps its content, except that the empty alias and the alias
    [all] share one block. *)
Theorem breakpoint_isolation hasAttribute name oldValue newValue this other :
  In (snd (decode name)) (map BreakPointProperty.alias (_breakpoints this)) ->
  other <> snd (decode name) ->
  ~ ((other = "" \/ other = "all") /\ (snd (decode name) = "" \/ snd (decode name) = "all")) ->
  styleText (styleId (_layoutType this) other)
    (shadowRoot (snd (attributeChangedCallback hasAttribute name oldValue newValue this)))
  = styleText (styleId (_layoutType this) other) (shadowRoot this) /\
  otherNodes (styleId (_layoutType this) (snd (decode name)))
    (shadowRoot (snd (attributeChangedCallback hasAttribute name oldValue newValue this)))
  = otherNodes (styleId (_layoutType this) (snd (decode name))) (shadowRoot this).
Proof.
  intros Hreg Hne Hall. split.
  - apply callback_frame.
    rewrite (resolve_registered _ _ Hreg). intros Heq.
    apply styleId_inj in Heq as [H|H]; auto.
  - pose proof (callback_others hasAttribute name oldValue newValue this) as H.
    cbv zeta in H. now rewrite (resolve_registered _ _ Hreg) in H.
Qed.

Lemma breakpoint_isolation_witness :
  styleText (styleId "flex" "")
    (shadowRoot (snd (attributeChangedCallback Sample.noAttribute "gap-sm" None (Some "8px")
                        Sample.flexLayout)))
  = styleText (styleId "flex" "") (shadowRoot Sample.flexLayout) /\
  otherNodes (styleId "flex" (snd (decode "gap-sm")))
    (shadowRoot (snd (attributeChangedCallback Sample.noAttribute "gap-sm" None (Some "8px")
                        Sample.flexLayout)))
  = otherNodes (styleId "flex" (snd (decode "gap-sm"))) (shadowRoot Sample.flexLayout).
Proof.
  apply (breakpoint_isolation Sample.noAttribute "gap-sm" None (Some "8px") Sample.flexLayout "").
  - vm_compute. left. reflexivity.
  - intros H. vm_compute in H. discriminate.
  - intros [_ [H|H]]; vm_compute in H; discriminate.
Defined.

(** C8, counterexample.  With a breakpoint registered under the alias
    [all], a change of [gap-all] rewrites the block [flex-all], which is
    the block of the empty alias. *)
Lemma breakpoint_isolation_all_collision :
  In (snd (decode "gap-all")) (map BreakPointProperty.alias (_breakpoints SampleAll.layout)) /\
  styleText (styleId "flex" "") (shadowRoot SampleAll.layout)
    = Some "@media all {:host {display: flex;}}" /\
  styleText (styleId "flex" "")
    (shadowRoot (snd (attributeChangedCallback Sample.noAttribute "gap-all" None (Some "8px")
                        SampleAll.layout)))
    = Some "@media print {:host {gap: 8px;display: flex;}:host>* {margin: 8px;}}".
Proof.
  split; [vm_compute; left; reflexivity|]. split; vm_compute; reflexivity.
Qed.

(** ** Unknown property names *)

Lemma filterProps_undefined f l : In None l -> filterProps f l = Throw.
Proof.
  induction l as [|[p|] r IH]; simpl; intros H; [destruct H| |reflexivity].
  destruct H as [H|H]; [discriminate|]. now rewrite IH.
Qed.

Lemma findIndexByName_Some prop l i :
  findIndexByName prop l = Normal (Some i) ->
  exists p, In (Some p) l /\ Property.name p = prop.
Proof.
  revert i. induction l as [|[p|] r IH]; intros i; simpl; try discriminate.
  destruct (String.eqb_spec (Property.name p) prop) as [Heq|Hne].
  - intros _. eauto.
  - destruct (findIndexByName prop r) as [[k|]|]; simpl; try discriminate.
    intros _. destruct (IH k eq_refl) as (q & ? & ?). eauto.
Qed.

Lemma findByName_None prop l :
  (forall p, In p l -> Property.name p <> prop) -> findByName prop l = None.
Proof.
  intros H. unfold findByName. induction l as [|p r IH]; simpl; auto.
  destruct (String.eqb_spec (Property.name p) prop) as [Heq|Hne].
  - exfalso. apply (H p); auto. now left.
  - apply IH. intros q Hq. apply H. now right.
Qed.

(** C5 (as amended).  An unknown property name is not ignored: for every
    attribute change whose decoded property name matches no descriptor in
    the active list of the breakpoint nor in the property registry, the call
    throws ([undefined] is pushed into the active list and [_buildCss] reads
    [.child] of it, or an earlier [undefined] entry is hit by the lookup)
    and writes no style block. *)
Theorem unknown_property_throws hasAttribute name oldValue newValue this :
  let prop := fst (decode name) in
  let bp := resolve (snd (decode name)) this in
  (forall p, In (Some p) (BreakPointProperty.properties (deref bp this)) ->
             Property.name p <> prop) ->
  (forall p, In p (_properties this) -> Property.name p <> prop) ->
  fst (attributeChangedCallback hasAttribute name oldValue newValue this) = Throw /\
  shadowRoot (snd (attributeChangedCallback hasAttribute name oldValue newValue this))
    = shadowRoot this.
Proof.
  cbv zeta. intros Hactive Hreg. rewrite callback_eq. cbv zeta.
  set (prop := fst (decode name)) in *. set (alias := snd (decode name)) in *.
  set (bp := resolve alias this) in *.
  destruct (findIndexByName prop _) as [[i|]|] eqn:Ef; [| |split; reflexivity].
  - apply findIndexByName_Some in Ef as (p & Hp & Hn). exfalso. now apply (Hactive p).
  - pose proof (resolve_valid alias this) as Hv. fold bp in Hv.
    set (this2 := trackChange prop alias oldValue newValue (registerProperty bp prop None this)).
    destruct (rebuild_spec hasAttribute bp alias this2) as (c & this' & Hr & _ & Hcase).
    rewrite Hr. simpl. cbv zeta in Hcase.
    assert (Hundef : In None (BreakPointProperty.properties (deref bp this2))).
    { unfold this2. rewrite deref_tracked by auto. rewrite (findByName_None _ _ Hreg).
      simpl. apply in_app_iff. right. now left. }
    unfold buildCssOf in Hcase. rewrite (filterProps_undefined _ _ Hundef) in Hcase.
    destruct Hcase as [-> ->]. split; [reflexivity|]. apply shadowRoot_tracked.
Qed.

Lemma unknown_property_throws_witness :
  fst (attributeChangedCallback Sample.noAttribute "zzz" None (Some "1") Sample.flexLayout) = Throw.
Proof.
  apply (unknown_property_throws Sample.noAttribute "zzz" None (Some "1") Sample.flexLayout).
  - intros p H. vm_compute in H. destruct H.
  - intros p [<-|[<-|[]]]; vm_compute; discriminate.
Defined.

(** C5, counterexample.  The change of the attribute [zzz], which names no
    property, throws. *)
Lemma unknown_property_crashes :
  (forall p, In p (_properties Sample.flexLayout) -> Property.name p <> "zzz") /\
  fst (attributeChangedCallback Sample.noAttribute "zzz" None (Some "1") Sample.flexLayout) = Throw.
Proof.
  split; [|vm_compute; reflexivity].
  intros p [<-|[<-|[]]]; vm_compute; discriminate.
Qed.

(** ** Constructed instances *)

Lemma layoutType_run this cs : _layoutType (run this cs) = _layoutType this.
Proof.
  unfold run. revert this. induction cs as [|c r IH]; intros this; simpl; auto.
  now rewrite IH, deliver_layoutType.
Qed.

Lemma allBreakpoint_deliver this c :
  BreakPointProperty.alias (_allBreakpoint (deliver this c))
    = BreakPointProperty.alias (_allBreakpoint this) /\
  BreakPointProperty.mediaQuery (_allBreakpoint (deliver this c))
    = BreakPointProperty.mediaQuery (_allBreakpoint this).
Proof.
  pose proof (deliver_cases this c) as H. cbv zeta in H.
  destruct (findIndexByName _ _) as [found|]; [|now rewrite H].
  destruct H as (_&_&->&_). unfold trackChange, setValuesAt. simpl.
  destruct found; simpl; auto. now destruct (resolve _ this).
Qed.

(** The synthetic breakpoint of a constructed instance keeps the empty
    alias and the media query [all]. *)
Lemma allBreakpoint_run bps layoutType properties cs :
  let this := run (constructor bps layoutType properties) cs in
  BreakPointProperty.alias (_allBreakpoint this) = "" /\
  BreakPointProperty.mediaQuery (_allBreakpoint this) = "all".
Proof.
  cbv zeta. unfold run.
  assert (H : forall this,
            BreakPointProperty.alias (_allBreakpoint this) = "" /\
            BreakPointProperty.mediaQuery (_allBreakpoint this) = "all" ->
            BreakPointProperty.alias (_allBreakpoint (fold_left deliver cs this)) = "" /\
            BreakPointProperty.mediaQuery (_allBreakpoint (fold_left deliver cs this)) = "all").
  { induction cs as [|c r IH]; intros this Hthis; simpl; auto.
    apply IH. destruct (allBreakpoint_deliver this c) as [-> ->]. exact Hthis. }
  apply H. simpl. auto.
Qed.

(** The alias of the resolved descriptor: the requested one, or the alias
    of the synthetic breakpoint. *)
Lemma alias_resolve alias this :
  BreakPointProperty.alias (deref (resolve alias this) this) = alias \/
  resolve alias this = AllBreakpoint.
Proof.
  unfold resolve. destruct (findIndex _ _) as [i|] eqn:E; auto.
  left. apply findIndex_Some in E as (x & Hx & Heq). simpl. rewrite Hx. simpl.
  now apply String.eqb_eq.
Qed.

Lemma deref_same_config bp this this' :
  _breakpoints this' = _breakpoints this -> _allBreakpoint this' = _allBreakpoint this ->
  deref bp this' = deref bp this.
Proof. intros Hb Ha. destruct bp; simpl; now rewrite ?Hb, ?Ha. Qed.

Lemma foldC_hostStepOf_untracked vals alias pp css :
  (forall p, In p pp -> vals (trackerKey (Property.name p) alias) = []) ->
  foldC (hostStepOf vals alias) pp css = Normal css.
Proof.
  induction pp as [|p r IH]; intros H; simpl; auto.
  unfold hostStepOf at 1. rewrite (H p) by now left. simpl.
  apply IH. intros q Hq. apply H. now right.
Qed.

(** Without a tracked value of a host-scoped property and without
    [applyDefaults], the host bucket stays empty. *)
Lemma buildCssOf_host_empty vals alias properties inline layoutType css :
  (forall p, In (Some p) properties -> Property.child p = false ->
             vals (trackerKey (Property.name p) alias) = []) ->
  buildCssOf vals alias properties inline layoutType false = Normal css ->
  bucket css parentKey = [].
Proof.
  intros Hnone. unfold buildCssOf.
  destruct (filterProps (fun p => negb (Property.child p)) properties) as [pp|] eqn:Ep; [|discriminate].
  destruct (filterProps Property.child properties) as [cp|]; [|discriminate].
  rewrite foldC_hostStepOf_untracked.
  - intros [= <-]. rewrite bucket_injectDisplay, bucket_fold_childStepOf. reflexivity.
  - intros p Hp. destruct (filterProps_In _ _ _ _ Ep Hp) as [Hin Hc].
    apply Hnone; auto. now apply negb_true_iff in Hc.
Qed.

(** The extent of the loss of [display] at the empty alias.  Whenever an
    attribute change processed at the empty alias by a constructed instance
    returns while, after the update, no host-scoped property of the active
    list has a tracked value, the CSS written into the block
    [<layoutType>-all] has an empty host bucket: [applyDefaults] is
    [!!alias], false at the empty alias, so the declaration the constructor
    wrote into that block is not written again. *)
Theorem display_not_kept_at_all bps layoutType properties cs hasAttribute name oldValue newValue :
  let this := run (constructor bps layoutType properties) cs in
  let r := attributeChangedCallback hasAttribute name oldValue newValue this in
  let bpv := deref (resolve "" this) (snd r) in
  snd (decode name) = "" ->
  fst r = Normal tt ->
  (forall p, In (Some p) (BreakPointProperty.properties bpv) -> Property.child p = false ->
             valuesAt (trackerKey (Property.name p) "") (snd r) = []) ->
  exists css,
    fst (_buildCss "" (BreakPointProperty.properties bpv) (hasAttribute "inline")
           layoutType false (snd r)) = Normal css /\
    bucket css parentKey = [] /\
    JsMap.has (bucket css parentKey) "display" = false /\
    styleText (styleId layoutType "") (shadowRoot (snd r))
      = Some (styleBlock css (BreakPointProperty.mediaQuery bpv)).
Proof.
  cbv zeta. set (this := run (constructor bps layoutType properties) cs).
  assert (Hlt : _layoutType this = layoutType) by apply layoutType_run.
  destruct (allBreakpoint_run bps layoutType properties cs) as [Hall _]. fold this in Hall.
  intros Halias. rewrite callback_eq. cbv zeta. rewrite Halias.
  set (prop := fst (decode name)). set (bp := resolve "" this).
  destruct (findIndexByName prop _) as [found|]; [|discriminate].
  pose proof (resolve_valid "" this) as Hv. fold bp in Hv.
  set (this2 := trackChange prop "" oldValue newValue (registerProperty bp prop found this)).
  destruct (rebuild_spec hasAttribute bp "" this2) as (c & this' & Hr & Hsame & Hcase).
  rewrite Hr. simpl. intros -> Hnone. cbv zeta in Hcase.
  assert (Ha : BreakPointProperty.alias (deref bp this2) = "").
  { unfold this2. rewrite deref_tracked by auto.
    assert (H0 : BreakPointProperty.alias (deref bp this) = "").
    { destruct (alias_resolve "" this) as [H|H]; [exact H|]. unfold bp. now rewrite H. }
    now destruct found. }
  assert (Hd : deref bp this' = deref bp this2).
  { destruct Hsame as (Hb & _ & Hab & _). now apply deref_same_config. }
  assert (Hl2 : _layoutType this2 = layoutType).
  { unfold this2. now rewrite layoutType_tracked. }
  rewrite Hd in *. rewrite Ha, Hl2 in Hcase. simpl in Hcase.
  assert (Hvals : forall key, tracked this' key = tracked this2 key).
  { destruct Hsame as (_&_&_&_&H). exact H. }
  destruct (_buildCss_spec "" (BreakPointProperty.properties (deref bp this2))
              (hasAttribute "inline") layoutType false this') as (s & -> & _).
  simpl.
  rewrite (buildCssOf_agree (tracked this') (tracked this2))
    by (apply reads_agree_pointwise; exact Hvals).
  destruct (buildCssOf (tracked this2) "" _ _ _ _) as [css|] eqn:Eb;
    [|destruct Hcase; discriminate].
  destruct Hcase as [_ Hst]. exists css. split; [reflexivity|].
  assert (Hempty : bucket css parentKey = []).
  { eapply buildCssOf_host_empty; [|exact Eb].
    intros p Hp Hc. rewrite <- Hvals. now apply Hnone. }
  split; [exact Hempty|]. split; [now rewrite Hempty|].
  rewrite Hst, String.eqb_refl. reflexivity.
Qed.

Lemma display_not_kept_at_all_witness :
  exists css,
    fst (_buildCss ""
           (BreakPointProperty.properties
              (deref (resolve "" (run SampleGrid.layout SampleGrid.gapSet))
                 (snd (attributeChangedCallback Sample.noAttribute "gap" (Some "8px") None
                         (run SampleGrid.layout SampleGrid.gapSet)))))
           (Sample.noAttribute "inline") "grid" false
           (snd (attributeChangedCallback Sample.noAttribute "gap" (Some "8px") None
                   (run SampleGrid.layout SampleGrid.gapSet)))) = Normal css /\
    bucket css parentKey = [] /\
    JsMap.has (bucket css parentKey) "display" = false /\
    styleText (styleId "grid" "")
      (shadowRoot (snd (attributeChangedCallback Sample.noAttribute "gap" (Some "8px") None
                          (run SampleGrid.layout SampleGrid.gapSet))))
      = Some (styleBlock css
                (BreakPointProperty.mediaQuery
                   (deref (resolve "" (run SampleGrid.layout SampleGrid.gapSet))
                      (snd (attributeChangedCallback Sample.noAttribute "gap" (Some "8px") None
                              (run SampleGrid.layout SampleGrid.gapSet)))))).
Proof.
  apply (display_not_kept_at_all [Sample.sm] "grid" [Sample.gap; Sample.fill]
           SampleGrid.gapSet Sample.noAttribute "gap" (Some "8px") None).
  - vm_compute. reflexivity.
  - vm_compute. reflexivity.
  - intros p H Hc. vm_compute in H. destruct H as [[= <-]|[]]. vm_compute. reflexivity.
Defined.

(** C4, the failing input.  The constructor writes [display: grid;] into
    the block [grid-all].  The host receives [gap="8px"], then loses it:
    the block is rewritten without any host rule, while no host-scoped
    property is tracked.  One child receiving [fill="1"] has the same
    effect.  At the alias [sm] the same two changes leave
    [display: grid;] in the block [grid-sm]. *)
Theorem display_lost_after_removal :
  styleText (styleId "grid" "") (shadowRoot SampleGrid.layout)
    = Some "@media all {:host {display: grid;}}" /\
  styleText (styleId "grid" "") (shadowRoot (run SampleGrid.layout SampleGrid.gapSet))
    = Some "@media all {:host {gap: 8px;display: grid;}:host>* {margin: 8px;}}" /\
  snd (decode "gap") = "" /\
  styleText (styleId "grid" "")
    (shadowRoot (snd (attributeChangedCallback Sample.noAttribute "gap" (Some "8px") None
                        (run SampleGrid.layout SampleGrid.gapSet))))
    = Some "@media all {}" /\
  styleText (styleId "grid" "")
    (shadowRoot (snd (attributeChangedCallback Sample.noAttribute "fill" None (Some "1")
                        SampleGrid.layout)))
    = Some ("@media all {::slotted([fill=" +:+ dquote +:+ "1" +:+ dquote +:+ "]) {flex: 1;}}") /\
  styleText (styleId "grid" "sm")
    (shadowRoot (run SampleGrid.layout
                   [ mkChange 0 "gap-sm" None (Some "8px") Sample.noAttribute;
                     mkChange 0 "gap-sm" (Some "8px") None Sample.noAttribute ]))
    = Some "@media (min-width: 600px) {:host {display: grid;}}".
Proof.
  repeat split; vm_compute; reflexivity.
Qed.

(** ** Unknown aliases *)

Lemma not_own_prefix s c t : s <> s +:+ String c t.
Proof.
  induction s as [|d s IH]; simpl; [discriminate|]. intros [= H]. auto.
Qed.

Lemma findByName_name prop l p : findByName prop l = Some p -> Property.name p = prop.
Proof.
  unfold findByName. intros H. apply find_some in H as [_ H]. now apply String.eqb_eq.
Qed.

(** C10 (as amended).  Unknown-alias changes are recorded but not rendered.
    For every attribute change whose non-empty alias matches no registered
    breakpoint and whose property is registered, on an instance whose
    synthetic breakpoint has the empty alias and an active list without
    [undefined] and without a property named [<property>.<alias>]: the
    counts are updated under the tracker key [<property>.<alias>], and the
    rebuild is the synthesis for the empty alias over the tracker as it was
    before the change (with [applyDefaults] true), so the changed value does
    not appear in it; when that synthesis returns, the block
    [<layoutType>-all] is rewritten with it, and when it throws no block is
    written. *)
Theorem unknown_alias_recorded_not_rendered hasAttribute name oldValue newValue this :
  let prop := fst (decode name) in
  let alias := snd (decode name) in
  let r := attributeChangedCallback hasAttribute name oldValue newValue this in
  truthy alias = true ->
  ~ In alias (map BreakPointProperty.alias (_breakpoints this)) ->
  BreakPointProperty.alias (_allBreakpoint this) = "" ->
  ~ In None (BreakPointProperty.properties (_allBreakpoint this)) ->
  isRegistered (_properties this) prop = true ->
  (forall p, In (Some p) (BreakPointProperty.properties (_allBreakpoint this)) ->
             Property.name p <> prop +:+ "." +:+ alias) ->
  valuesAt (prop +:+ "." +:+ alias) (snd r)
    = updateCounts (valuesAt (prop +:+ "." +:+ alias) this) oldValue newValue /\
  match fst (_buildCss "" (BreakPointProperty.properties (_allBreakpoint (snd r)))
               (hasAttribute "inline") (_layoutType this) true this) with
  | Normal css =>
      fst r = Normal tt /\
      styleText (styleId (_layoutType this) "") (shadowRoot (snd r))
        = Some (styleBlock css (BreakPointProperty.mediaQuery (_allBreakpoint this)))
  | Throw => fst r = Throw /\ shadowRoot (snd r) = shadowRoot this
  end.
Proof.
  cbv zeta. intros Htruthy Hunreg Hall Hdef Hreg Hcoll.
  rewrite callback_eq. cbv zeta.
  set (prop := fst (decode name)) in *. set (alias := snd (decode name)) in *.
  rewrite (resolve_unregistered _ _ Hunreg). simpl deref.
  destruct (findIndexByName_defined prop _ Hdef) as [found ->].
  set (this2 := trackChange prop alias oldValue newValue
                  (registerProperty AllBreakpoint prop found this)).
  destruct (rebuild_spec hasAttribute AllBreakpoint alias this2)
    as (c & this' & Hr & (Hb & Hl & Hab & Hp & Hv) & Hcase).
  rewrite Hr. simpl fst. simpl snd. cbv zeta in Hcase.
  change (deref AllBreakpoint this2) with (_allBreakpoint this2) in Hcase.
  assert (Hkey : trackerKey prop alias = prop +:+ "." +:+ alias)
    by (unfold trackerKey; now rewrite Htruthy).
  assert (Hall2 : _allBreakpoint this2 =
                  match found with
                  | Some _ => _allBreakpoint this
                  | None => BreakPointProperty.push (findByName prop (_properties this))
                              (_allBreakpoint this)
                  end) by (now destruct found).
  assert (Ha2 : BreakPointProperty.alias (_allBreakpoint this2) = "")
    by (rewrite Hall2; now destruct found).
  assert (Hm2 : BreakPointProperty.mediaQuery (_allBreakpoint this2)
                = BreakPointProperty.mediaQuery (_allBreakpoint this))
    by (rewrite Hall2; now destruct found).
  assert (Hl2 : _layoutType this2 = _layoutType this) by apply layoutType_tracked.
  assert (Hs2 : shadowRoot this2 = shadowRoot this) by apply shadowRoot_tracked.
  split.
  - rewrite Hv. unfold this2, trackChange.
    rewrite valuesAt_setValuesAt, Hkey, String.eqb_refl, valuesAt_registerProperty.
    reflexivity.
  - rewrite Hab.
    destruct (_buildCss_spec "" (BreakPointProperty.properties (_allBreakpoint this2))
                (hasAttribute "inline") (_layoutType this) true this) as (s & -> & _).
    simpl fst. rewrite Ha2, Hl2, Htruthy in Hcase. simpl inlineAttrOf in Hcase.
    rewrite (buildCssOf_agree (tracked this) (tracked this2)).
    + destruct (buildCssOf (tracked this2) "" _ _ _ _) as [css|].
      * destruct Hcase as [-> Hst]. split; [reflexivity|].
        rewrite Hst, String.eqb_refl, Hm2. reflexivity.
      * destruct Hcase as [-> ->]. auto.
    + assert (Hsame : forall p, In (Some p) (BreakPointProperty.properties (_allBreakpoint this2)) ->
                tracked this (trackerKey (Property.name p) "")
                = tracked this2 (trackerKey (Property.name p) "")).
      { intros p Hin. unfold tracked, this2, trackChange.
        rewrite valuesAt_setValuesAt, !valuesAt_registerProperty, Hkey.
        destruct (String.eqb_spec (prop +:+ "." +:+ alias) (trackerKey (Property.name p) ""))
          as [Heq|]; [|reflexivity].
        exfalso. unfold trackerKey in Heq. simpl in Heq.
        rewrite Hall2 in Hin. destruct found as [i|].
        - now apply (Hcoll p Hin).
        - simpl in Hin. apply in_app_iff in Hin as [Hin|[Hin|[]]].
          + now apply (Hcoll p Hin).
          + apply findByName_name in Hin. rewrite Hin in Heq.
            change ("." +:+ alias) with (String dot alias) in Heq.
            symmetry in Heq. now apply not_own_prefix in Heq. }
      intros p Hin. cbv zeta. rewrite (Hsame p Hin). auto.
Qed.

Lemma unknown_alias_recorded_not_rendered_witness :
  valuesAt ("fill" +:+ "." +:+ "zz")
    (snd (attributeChangedCallback Sample.noAttribute "fill-zz" None (Some "1") Sample.flexLayout))
    = updateCounts (valuesAt ("fill" +:+ "." +:+ "zz") Sample.flexLayout) None (Some "1") /\
  match fst (_buildCss ""
               (BreakPointProperty.properties
                  (_allBreakpoint
                     (snd (attributeChangedCallback Sample.noAttribute "fill-zz" None (Some "1")
                             Sample.flexLayout))))
               (Sample.noAttribute "inline") (_layoutType Sample.flexLayout) true
               Sample.flexLayout) with
  | Normal css =>
      fst (attributeChangedCallback Sample.noAttribute "fill-zz" None (Some "1") Sample.flexLayout)
        = Normal tt /\
      styleText (styleId (_layoutType Sample.flexLayout) "")
        (shadowRoot (snd (attributeChangedCallback Sample.noAttribute "fill-zz" None (Some "1")
                            Sample.flexLayout)))
        = Some (styleBlock css (BreakPointProperty.mediaQuery (_allBreakpoint Sample.flexLayout)))
  | Throw =>
      fst (attributeChangedCallback Sample.noAttribute "fill-zz" None (Some "1") Sample.flexLayout)
        = Throw /\
      shadowRoot (snd (attributeChangedCallback Sample.noAttribute "fill-zz" None (Some "1")
                         Sample.flexLayout))
        = shadowRoot Sample.flexLayout
  end.
Proof.
  apply (unknown_alias_recorded_not_rendered Sample.noAttribute "fill-zz" None (Some "1")
           Sample.flexLayout).
  - vm_compute. reflexivity.
  - intros H. vm_compute in H. destruct H as [H|[]]. discriminate.
  - reflexivity.
  - intros H. vm_compute in H. destruct H.
  - vm_compute. reflexivity.
  - intros p H. vm_compute in H. destruct H.
Defined.

(** C10, counterexample.  The registry holds the properties [a.b] and [a];
    one child carries [a.b="x"].  The change of [a-b] to [y], whose alias
    [b] is no breakpoint, is recorded under the key [a.b], which is the key
    the rebuild reads for the property [a.b] at the empty alias: the value
    [y] appears in the synthesized CSS. *)
Lemma unknown_alias_value_rendered :
  decode "a-b" = ("a", "b") /\
  ~ In "b" (map BreakPointProperty.alias
              (_breakpoints (run Sample.dottedLayout
                               [mkChange 1 "a.b" None (Some "x") Sample.noAttribute]))) /\
  styleText (styleId "flex" "")
    (shadowRoot (snd (attributeChangedCallback Sample.noAttribute "a-b" None (Some "y")
                        (run Sample.dottedLayout
                           [mkChange 1 "a.b" None (Some "x") Sample.noAttribute]))))
    = Some ("@media all {:host {display: flex;}::slotted([a.b=" +:+ dquote +:+ "x" +:+ dquote
            +:+ "]) {order: x;}::slotted([a.b=" +:+ dquote +:+ "y" +:+ dquote
            +:+ "]) {order: y;}}").
Proof.
  split; [vm_compute; reflexivity|]. split; [|vm_compute; reflexivity].
  intros H. vm_compute in H. exact H.
Qed.

(** ** Selectors of child variants *)












Lemma get_injectDisplay_other css inline layoutType applyDefaults sel :
  sel <> parentKey ->
  JsMap.get (injectDisplay css inline layoutType applyDefaults) sel = JsMap.get css sel.
Proof.
  intros Hne. unfold injectDisplay. destruct (negb _ || applyDefaults); auto.
  unfold setIn. apply get_set_ne. auto.
Qed.







(** ** Names in the active lists *)

Lemma namesOf_app l1 l2 : namesOf (l1 ++ l2) = (namesOf l1 ++ namesOf l2)%list.
Proof. unfold namesOf. apply flat_map_app. Qed.

Lemma findIndexByName_None prop l :
  findIndexByName prop l = Normal None -> ~ In prop (namesOf l).
Proof.
  induction l as [|[p|] r IH]; simpl; try discriminate; [tauto|].
  destruct (String.eqb_spec (Property.name p) prop) as [Heq|Hne]; [discriminate|].
  destruct (findIndexByName prop r) as [[k|]|]; simpl; try discriminate.
  intros _ [H|H]; [contradiction|]. now apply IH.
Qed.

Lemma NoDup_namesOf_push prop l registry :
  findIndexByName prop l = Normal None -> List.NoDup (namesOf l) ->
  List.NoDup (namesOf (l ++ [findByName prop registry])).
Proof.
  intros Hf Hnd. rewrite namesOf_app. simpl.
  destruct (findByName prop registry) as [p|] eqn:E; simpl; [|now rewrite app_nil_r].
  apply findByName_name in E. rewrite E.
  apply NoDup_ListNoDup. apply NoDup_app.
  split; [now apply NoDup_ListNoDup|]. split; [|apply NoDup_singleton].
  intros x Hx Hx'. apply list_elem_of_In in Hx, Hx'. destruct Hx' as [<-|[]].
  now apply (findIndexByName_None _ _ Hf).
Qed.

Lemma active_distinct_deliver this c : active_distinct this -> active_distinct (deliver this c).
Proof.
  intros [H1 H2]. pose proof (deliver_cases this c) as H. cbv zeta in H.
  set (prop := fst (decode (attributeName c))) in *.
  set (bp := resolve (snd (decode (attributeName c))) this) in *.
  destruct (findIndexByName prop _) as [found|] eqn:Ef; [|rewrite H; now split].
  destruct H as (Hb & _ & Ha & _). unfold active_distinct. rewrite Hb, Ha.
  unfold trackChange, setValuesAt. simpl.
  destruct found as [i|]; simpl; [now split|].
  pose proof (resolve_valid (snd (decode (attributeName c))) this) as Hv. fold bp in Hv.
  destruct bp as [i|]; simpl in *; split; auto.
  - intros b Hin. apply In_alter in Hin as [Hin|(y & Hy & ->)]; auto.
    rewrite Hy in Ef. simpl in *. apply NoDup_namesOf_push; auto.
    apply H1. eapply lookup_In; eauto.
  - now apply NoDup_namesOf_push.
Qed.

(** On a constructed instance whose registry starts with distinct names in
    each active list (empty lists, usually), every active list keeps this. *)
Lemma active_distinct_run bps layoutType properties cs :
  (forall bp, In bp bps -> List.NoDup (namesOf (BreakPointProperty.properties bp))) ->
  active_distinct (run (constructor bps layoutType properties) cs).
Proof.
  intros Hreg. unfold run.
  assert (H0 : active_distinct (constructor bps layoutType properties)).
  { split; simpl; auto. constructor. }
  revert H0. generalize (constructor bps layoutType properties).
  induction cs as [|c r IH]; intros this Hthis; simpl; auto.
  apply IH. now apply active_distinct_deliver.
Qed.

Lemma NoDup_childNames l : List.NoDup (namesOf l) -> List.NoDup (childNames l).
Proof.
  induction l as [|[p|] r IH]; simpl; auto.
  intros Hnd. inversion Hnd as [|? ? Hnotin Hnd']; subst.
  destruct (Property.child p); simpl; auto.
  constructor; auto. intros Hin. apply Hnotin.
  clear -Hin. induction r as [|[q|] r IH]; simpl in *; auto.
  destruct (Property.child q); simpl in *; [destruct Hin as [H|H]|]; auto.
Qed.

(** ** Calls that return *)

Lemma filterProps_defined f l : ~ In None l -> exists l', filterProps f l = Normal l'.
Proof.
  induction l as [|[p|] r IH]; simpl; intros H; eauto.
  - destruct IH as [r' ->]; eauto.
  - exfalso. apply H. now left.
Qed.

Lemma foldC_hostStepOf_returns vals alias pp css :
  (forall p v, In p pp -> snd (Property.updateFn p v alias) <> None) ->
  exists css', foldC (hostStepOf vals alias) pp css = Normal css'.
Proof.
  revert css. induction pp as [|p r IH]; intros css H; simpl; eauto.
  unfold hostStepOf at 1.
  destruct (head _) as [value|]; [|apply IH; intros; apply H; now right].
  destruct (snd (Property.updateFn p value alias)) as [c|] eqn:E.
  - apply IH. intros; apply H; now right.
  - exfalso. apply (H p value); auto. now left.
Qed.

Lemma buildCssOf_returns vals alias properties inline layoutType applyDefaults :
  ~ In None properties ->
  (forall p v, In (Some p) properties -> Property.child p = false ->
               snd (Property.updateFn p v alias) <> None) ->
  exists css, buildCssOf vals alias properties inline layoutType applyDefaults = Normal css.
Proof.
  intros Hdef Htot. unfold buildCssOf.
  destruct (filterProps_defined (fun p => negb (Property.child p)) _ Hdef) as [pp Ep].
  destruct (filterProps_defined Property.child _ Hdef) as [cp Ec].
  rewrite Ep, Ec.
  destruct (foldC_hostStepOf_returns vals alias pp emptyCss) as [css ->]; eauto.
  intros p v Hp. destruct (filterProps_In _ _ _ _ Ep Hp) as [Hin Hc].
  apply Htot; auto. now apply negb_true_iff in Hc.
Qed.

(** [_buildCss] returns when the list holds descriptors only and the update
    functions of its host-scoped properties return both fragments. *)
Lemma _buildCss_returns alias properties inline layoutType applyDefaults this :
  ~ In None properties ->
  (forall p v, In (Some p) properties -> Property.child p = false ->
               snd (Property.updateFn p v alias) <> None) ->
  exists css,
    fst (_buildCss alias properties inline layoutType applyDefaults this) = Normal css.
Proof.
  intros Hdef Htot.
  destruct (_buildCss_spec alias properties inline layoutType applyDefaults this) as (s & -> & _).
  simpl. now apply buildCssOf_returns.
Qed.

Lemma findByName_In prop l p : findByName prop l = Some p -> In p l.
Proof. unfold findByName. intros H. now apply find_some in H as [H _]. Qed.

(** A change of a registered property returns: the lookup finds the
    descriptor, the block of the breakpoint is rebuilt and written. *)
Lemma callback_returns hasAttribute name oldValue newValue this :
  let bp := resolve (snd (decode name)) this in
  ~ In None (BreakPointProperty.properties (deref bp this)) ->
  isRegistered (_properties this) (fst (decode name)) = true ->
  (forall p v a, In (Some p) (BreakPointProperty.properties (deref bp this)) \/
                 In p (_properties this) ->
                 snd (Property.updateFn p v a) <> None) ->
  fst (attributeChangedCallback hasAttribute name oldValue newValue this) = Normal tt.
Proof.
  cbv zeta. intros Hdef Hreg Htot. rewrite callback_eq. cbv zeta.
  set (prop := fst (decode name)) in *. set (alias := snd (decode name)) in *.
  set (bp := resolve alias this) in *.
  destruct (findIndexByName_defined prop _ Hdef) as [found ->].
  pose proof (resolve_valid alias this) as Hv. fold bp in Hv.
  set (this2 := trackChange prop alias oldValue newValue (registerProperty bp prop found this)).
  destruct (rebuild_spec hasAttribute bp alias this2) as (c & this' & Hr & _ & Hcase).
  rewrite Hr. simpl. cbv zeta in Hcase.
  assert (Hd : deref bp this2 =
               match found with
               | Some _ => deref bp this
               | None => BreakPointProperty.push (findByName prop (_properties this))
                           (deref bp this)
               end) by (unfold this2; now apply deref_tracked).
  unfold isRegistered in Hreg.
  destruct (findByName prop (_properties this)) as [q|] eqn:Eq; [|discriminate].
  destruct (buildCssOf_returns (tracked this2) (BreakPointProperty.alias (deref bp this2))
              (BreakPointProperty.properties (deref bp this2))
              (hasAttribute (inlineAttrOf (BreakPointProperty.alias (deref bp this2))))
              (_layoutType this2) (truthy alias)) as [css Hcss].
  - rewrite Hd. destruct found; simpl; auto.
    rewrite in_app_iff. intros [H|[H|[]]]; [auto|discriminate].
  - intros p v Hp _. apply Htot. rewrite Hd in Hp. destruct found; simpl in Hp; auto.
    apply in_app_iff in Hp as [Hp|[[= <-]|[]]]; auto.
    right. eapply findByName_In; eauto.
  - rewrite Hcss in Hcase. now destruct Hcase.
Qed.

(** * Further properties of the code *)

(** ** Attribute names *)

Lemma split_fst_plain s : contains dash (fst (split dash s)) = false.
Proof.
  induction s as [|c r IH]; [reflexivity|].
  cbn [split]. destruct (split dash r) as [h t]. cbn [fst] in IH.
  destruct (Ascii.eqb c dash) eqn:E; cbn [fst contains]; [reflexivity|].
  now rewrite E, IH.
Qed.

Lemma split_snd_nil s : snd (split dash s) = [] <-> contains dash s = false.
Proof.
  induction s as [|c r IH]; [cbn; tauto|].
  cbn [split contains]. destruct (split dash r) as [h t]. cbn [snd] in IH.
  destruct (Ascii.eqb c dash); cbn [snd orb]; [split; discriminate|exact IH].
Qed.

(** Joining the pieces of a split gives the string back. *)
Lemma join_split s : join SEPARATOR (fst (split dash s) :: snd (split dash s)) = s.
Proof.
  induction s as [|c r IH]; [reflexivity|].
  cbn [split]. destruct (split dash r) as [h t]. cbn [fst snd] in IH.
  destruct (Ascii.eqb_spec c dash) as [->|Hne]; cbn [fst snd].
  - change (join SEPARATOR (EmptyString :: h :: t))
      with (String dash (join SEPARATOR (h :: t))).
    now rewrite IH.
  - destruct t as [|t0 ts].
    + cbn [join] in *. now rewrite IH.
    + change (join SEPARATOR (String c h :: t0 :: ts))
        with (String c (h +:+ SEPARATOR +:+ join SEPARATOR (t0 :: ts))).
      f_equal. exact IH.
Qed.

Lemma split_append_plain prop rest :
  contains dash prop = false ->
  split dash (prop +:+ String dash rest)
  = (prop, fst (split dash rest) :: snd (split dash rest)).
Proof.
  induction prop as [|c p IH]; intros Hp.
  - change (EmptyString +:+ String dash rest) with (String dash rest).
    cbn [split]. destruct (split dash rest) as [h t]. now rewrite Ascii.eqb_refl.
  - cbn [contains] in Hp. apply orb_false_iff in Hp as [Hc Hp].
    change (String c p +:+ String dash rest) with (String c (p +:+ String dash rest)).
    cbn [split]. rewrite (IH Hp), Hc. reflexivity.
Qed.

(** X1.  The attribute name is split at its first dash only: a property
    name without a dash followed by a dash and any alias, which may hold
    dashes itself, decodes to that property and that alias; the bare
    property name decodes to the property and the empty alias. *)
Theorem decode_first_dash prop alias :
  contains dash prop = false ->
  decode (prop +:+ "-" +:+ alias) = (prop, alias) /\ decode prop = (prop, "").
Proof.
  intros Hp. unfold decode. split.
  - change ("-" +:+ alias) with (String dash alias).
    rewrite (split_append_plain _ _ Hp). now rewrite join_split.
  - pose proof (proj2 (split_snd_nil prop) Hp) as Hnil.
    pose proof (join_split prop) as Hj.
    destruct (split dash prop) as [h t]. cbn [fst snd] in *. subst t.
    cbn [join] in *. now subst h.
Qed.

Lemma decode_first_dash_witness :
  decode ("gap" +:+ "-" +:+ "lt-sm") = ("gap", "lt-sm") /\ decode "gap" = ("gap", "").
Proof. apply decode_first_dash. reflexivity. Defined.

(** X2.  Decoding loses nothing of the name: the decoded property name
    holds no dash; a name without a dash is the property itself, with the
    empty alias; every other name is the property, a dash and the alias. *)
Theorem decode_encode name :
  contains dash (fst (decode name)) = false /\
  name = (if contains dash name
          then fst (decode name) +:+ "-" +:+ snd (decode name)
          else fst (decode name)) /\
  (contains dash name = false -> snd (decode name) = "").
Proof.
  unfold decode.
  pose proof (split_fst_plain name) as Hp.
  pose proof (split_snd_nil name) as Hnil.
  pose proof (join_split name) as Hj.
  destruct (split dash name) as [h t]. cbn [fst snd] in *.
  split; [exact Hp|].
  destruct (contains dash name) eqn:E.
  - split; [|discriminate].
    destruct t as [|t0 ts]; [destruct Hnil as [Hnil _]; now specialize (Hnil eq_refl)|].
    symmetry. exact Hj.
  - destruct Hnil as [_ Hnil]. rewrite (Hnil eq_refl) in *. cbn [join] in *.
    split; [now symmetry|reflexivity].
Qed.

(** ** The tracker update, once more *)

Lemma set_absent {V} (m : list (string * V)) k v :
  JsMap.get m k = None -> JsMap.set m k v = (m ++ [(k, v)])%list.
Proof.
  induction m as [|[k' v'] r IH]; cbn [JsMap.get JsMap.set]; [reflexivity|].
  destruct (String.eqb k' k); [discriminate|]. intros H. now rewrite (IH H).
Qed.

Lemma set_same {V} (m : list (string * V)) k v :
  JsMap.get m k = Some v -> JsMap.set m k v = m.
Proof.
  induction m as [|[k' v'] r IH]; cbn [JsMap.get JsMap.set]; [discriminate|].
  destruct (String.eqb k' k); [now intros [= ->]|]. intros H. now rewrite (IH H).
Qed.

Lemma delete_absent {V} (m : list (string * V)) k :
  JsMap.get m k = None -> JsMap.delete m k = m.
Proof.
  induction m as [|[k' v'] r IH]; cbn [JsMap.get JsMap.delete]; [reflexivity|].
  destruct (String.eqb k' k); [discriminate|]. intros H. now rewrite (IH H).
Qed.

Lemma delete_appended {V} (m : list (string * V)) k v :
  JsMap.get m k = None -> JsMap.delete (m ++ [(k, v)]) k = m.
Proof.
  induction m as [|[k' v'] r IH]; cbn [JsMap.get]; intros H.
  - cbn. now rewrite String.eqb_refl.
  - cbn [app JsMap.delete]. destruct (String.eqb k' k); [discriminate|].
    now rewrite (IH H).
Qed.

(** X3.  Adding a value and removing it again restores the map of a
    property exactly, entries and order, when its counts are at least 1 and
    below [2 ^ 53]: a value that was absent is appended with count 1 and
    deleted again, a value that was present goes from its count to the next
    and back in place, and no count written on the way exceeds [2 ^ 53], so
    that the arithmetic of the code is the one of the model. *)
Theorem updateCounts_add_remove m v :
  counts_ok m -> counts_exact m ->
  (forall e, In e (updateCounts m None (Some v)) -> 1 <= snd e <= 2 ^ 53) /\
  updateCounts (updateCounts m None (Some v)) (Some v) None = m.
Proof.
  intros Hok Hex.
  assert (Hin : updateCounts m None (Some v)
                = JsMap.set m v (default 0 (JsMap.get m v) + 1))
    by (unfold updateCounts; now rewrite orZero_default).
  rewrite Hin. clear Hin. split.
  - intros e He. apply In_set_inv in He as [->|He].
    + cbn [snd]. destruct (JsMap.get m v) as [c|] eqn:Hg; cbn [from_option id]; [|lia].
      pose proof (counts_ok_get _ _ _ Hok Hg) as Hc.
      apply get_In in Hg. apply Hex in Hg. cbn [snd] in Hg. lia.
    + specialize (Hok e He). specialize (Hex e He). lia.
  - unfold updateCounts. rewrite get_set_eq, set_set.
    destruct (JsMap.get m v) as [c|] eqn:Hg; cbn [from_option id].
    + pose proof (counts_ok_get _ _ _ Hok Hg) as Hc.
      replace (c + 1 - 1) with c by lia. rewrite (set_same _ _ _ Hg), Hg.
      destruct (Z.eqb_spec c 0); [lia|reflexivity].
    + replace (0 + 1 - 1) with 0 by lia. rewrite get_set_eq. cbn [Z.eqb].
      rewrite (set_absent _ _ _ Hg). now apply delete_appended.
Qed.

Lemma updateCounts_add_remove_witness :
  updateCounts (updateCounts [("8px", 2); ("4px", 1)] None (Some "4px")) (Some "4px") None
  = [("8px", 2); ("4px", 1)].
Proof.
  apply updateCounts_add_remove.
  - intros e [<-|[<-|[]]]; cbn; lia.
  - intros e [<-|[<-|[]]]; cbn; lia.
Defined.

(** X4.  An old value that is not tracked is tolerated: the update is the
    one of a change without old value, nothing is decremented and nothing
    is deleted. *)
Theorem updateCounts_untracked_old m o newValue :
  JsMap.get m o = None ->
  updateCounts m (Some o) newValue = updateCounts m None newValue.
Proof.
  intros Hg. unfold updateCounts. rewrite Hg.
  destruct newValue as [n|]; [|now rewrite Hg].
  destruct (String.eqb_spec n o) as [->|Hne].
  - rewrite get_set_eq, Hg. cbn [orZero]. reflexivity.
  - rewrite get_set_ne, Hg by auto. reflexivity.
Qed.

Lemma updateCounts_untracked_old_witness :
  updateCounts [("8px", 1)] (Some "4px") (Some "2px")
  = updateCounts [("8px", 1)] None (Some "2px").
Proof. apply updateCounts_untracked_old. reflexivity. Defined.

(** ** Serialization *)

Lemma append_nil_r s : s +:+ "" = s.
Proof.
  induction s as [|c s IH]; [reflexivity|].
  change (String c (s +:+ "") = String c s). now rewrite IH.
Qed.

Lemma unwrapCss_object fs :
  unwrapCss (JObj fs) =
    if length_truthy (JObj fs) then JObj fs else JStr (fold_left formatField fs "").
Proof.
  cbn [unwrapCss]. destruct (length_truthy (JObj fs)); [reflexivity|]. f_equal.
  match goal with
  | |- ?loop EmptyString fs = _ =>
      enough (H : forall acc, loop acc fs = fold_left formatField fs acc) by apply H
  end.
  induction fs as [|[k v] r IH]; intros acc; [reflexivity|].
  cbn [fold_left]. rewrite <- IH. reflexivity.
Qed.

Lemma get_map_snd {A B} (f : A -> B) (m : list (string * A)) k :
  JsMap.get (map (fun kv => (fst kv, f (snd kv))) m) k = option_map f (JsMap.get m k).
Proof.
  induction m as [|[k' v] r IH]; [reflexivity|].
  cbn [map JsMap.get fst snd]. destruct (String.eqb k' k); [reflexivity|exact IH].
Qed.

Lemma length_truthy_decls d : length_truthy (decls_to_js d) = hasLength d.
Proof.
  unfold decls_to_js, hasLength. cbn [length_truthy]. rewrite get_map_snd.
  destruct (JsMap.get d "length"); reflexivity.
Qed.

Lemma unwrapCss_decls d :
  unwrapCss (decls_to_js d) = if hasLength d then decls_to_js d else JStr (declsText d).
Proof.
  unfold decls_to_js at 1. rewrite unwrapCss_object. fold (decls_to_js d).
  rewrite length_truthy_decls. destruct (hasLength d); [reflexivity|]. f_equal.
  unfold declsText. generalize EmptyString.
  induction d as [|[k v] r IH]; intros acc; [reflexivity|].
  cbn [map fold_left]. rewrite IH. f_equal.
  unfold formatField, declText. cbn [fst snd unwrapCss js_truthy length_truthy js_to_string].
  destruct (truthy v); cbn [negb]; [reflexivity|now rewrite append_nil_r].
Qed.

(** [unwrapCss] on a CSS object of buckets. *)
Lemma unwrapCss_css css :
  unwrapCss (css_to_js css)
  = if JsMap.has css "length" then css_to_js css else JStr (rulesText css).
Proof.
  unfold css_to_js. rewrite unwrapCss_object.
  assert (Hl : length_truthy (JObj (map (fun kv => (fst kv, decls_to_js (snd kv))) css))
               = JsMap.has css "length").
  { cbn [length_truthy]. rewrite get_map_snd. unfold JsMap.has.
    destruct (JsMap.get css "length"); reflexivity. }
  rewrite Hl. clear Hl. destruct (JsMap.has css "length"); [reflexivity|].
  f_equal. unfold rulesText. generalize EmptyString.
  induction css as [|[sel d] r IH]; intros acc; [reflexivity|].
  cbn [map fold_left]. rewrite IH. f_equal.
  unfold formatField, ruleText. cbn [fst snd].
  rewrite unwrapCss_decls, length_truthy_decls.
  destruct (hasLength d); cbn [js_truthy negb js_to_string]; [reflexivity|].
  destruct (truthy (declsText d)); [reflexivity|now rewrite append_nil_r].
Qed.

(** X5.  The text [unwrapCss] gives for a CSS object: the rules in the
    order of the selectors, each [selector {key: value;...}]; declarations
    of empty value and rules without declaration text are left out; a
    bucket that declares a non-empty [length] is written as
    [selector: [object Object];]; and an object with a selector named
    [length] is written as [[object Object]]. *)
Theorem cssText_rules css :
  cssText css = if JsMap.has css "length" then "[object Object]" else rulesText css.
Proof.
  unfold cssText. rewrite unwrapCss_css.
  destruct (JsMap.has css "length"); reflexivity.
Qed.

(** ** The shape of the CSS object *)

Lemma keys_set_present {V} (m : list (string * V)) k v :
  In k (JsMap.keys m) -> JsMap.keys (JsMap.set m k v) = JsMap.keys m.
Proof.
  intros Hin. rewrite keys_set. unfold JsMap.has.
  destruct (JsMap.get m k) eqn:E; [reflexivity|].
  apply get_None_keys in E. contradiction.
Qed.

Lemma keys_setIn css sel k v :
  In sel (JsMap.keys css) -> JsMap.keys (setIn css sel k v) = JsMap.keys css.
Proof. intros H. unfold setIn. now apply keys_set_present. Qed.

Lemma keys_assignAll css sel src :
  In sel (JsMap.keys css) -> JsMap.keys (assignAll css sel src) = JsMap.keys css.
Proof.
  unfold assignAll. revert css. induction src as [|[k v] r IH]; intros css H; [reflexivity|].
  cbn [fold_left fst snd]. rewrite IH; rewrite keys_setIn; auto.
Qed.

Lemma keys_foldC_hostStepOf vals alias pp css css' :
  In parentKey (JsMap.keys css) -> In allChildKey (JsMap.keys css) ->
  foldC (hostStepOf vals alias) pp css = Normal css' ->
  JsMap.keys css' = JsMap.keys css.
Proof.
  revert css. induction pp as [|p r IH]; intros css Hp Hc; cbn [foldC].
  - now intros [= <-].
  - unfold hostStepOf at 1. destruct (head _) as [value|]; [|now apply IH].
    destruct (snd (Property.updateFn p value alias)) as [c|]; [|discriminate].
    intros H. apply IH in H.
    + rewrite H, !keys_assignAll; auto. rewrite keys_assignAll; auto.
    + rewrite !keys_assignAll; auto. rewrite keys_assignAll; auto.
    + rewrite !keys_assignAll; auto. rewrite keys_assignAll; auto.
Qed.

Lemma childSelectors_weaken vals alias p cp sels :
  childSelectors vals alias cp sels -> childSelectors vals alias (p :: cp) sels.
Proof.
  intros [Hnd H]. split; [exact Hnd|]. intros sel Hs.
  destruct (H sel Hs) as (q & v & Hq & Hv & ->). exists q, v. split; [now right|auto].
Qed.

Lemma keys_childStepOf vals alias p cp css sels :
  In p cp ->
  JsMap.keys css = parentKey :: allChildKey :: sels ->
  childSelectors vals alias cp sels ->
  exists sels', JsMap.keys (childStepOf vals alias css p) = parentKey :: allChildKey :: sels' /\
                childSelectors vals alias cp sels'.
Proof.
  intros Hp. unfold childStepOf.
  assert (Hks : forall v, In v (JsMap.keys (vals (trackerKey (Property.name p) alias))) ->
                          In v (JsMap.keys (vals (trackerKey (Property.name p) alias)))) by auto.
  revert Hks. generalize (JsMap.keys (vals (trackerKey (Property.name p) alias))) at 1 3.
  intros ks. revert css sels.
  induction ks as [|v r IH]; intros css sels Hks Hkeys Hsel; cbn [fold_left]; [eauto|].
  assert (Hr : forall w, In w r ->
                 In w (JsMap.keys (vals (trackerKey (Property.name p) alias))))
    by (intros w Hw; apply Hks; now right).
  set (sel := childSelector (Property.name p) alias v).
  set (d := fst (Property.updateFn p v alias)).
  destruct (JsMap.get css sel) as [d0|] eqn:Eg.
  - apply (IH _ sels Hr); auto. rewrite keys_set_present; auto.
    apply get_In in Eg. now apply (in_map fst) in Eg.
  - apply (IH _ (sels ++ [sel])%list Hr).
    + rewrite keys_set. unfold JsMap.has. rewrite Eg, Hkeys. reflexivity.
    + destruct Hsel as [Hnd Hs]. apply get_None_keys in Eg. rewrite Hkeys in Eg.
      split.
      * apply NoDup_ListNoDup. apply NoDup_app. split; [now apply NoDup_ListNoDup|].
        split; [|apply NoDup_singleton].
        intros x Hx Hx'. apply list_elem_of_In in Hx, Hx'. destruct Hx' as [<-|[]].
        apply Eg. now do 2 right.
      * intros s Hin. apply in_app_iff in Hin as [Hin|[<-|[]]]; [now apply Hs|].
        exists p, v. split; [exact Hp|]. split; [apply Hks; now left|reflexivity].
Qed.

Lemma keys_fold_childStepOf vals alias cp0 cp css sels :
  (forall p, In p cp -> In p cp0) ->
  JsMap.keys css = parentKey :: allChildKey :: sels ->
  childSelectors vals alias cp0 sels ->
  exists sels',
    JsMap.keys (fold_left (childStepOf vals alias) cp css) = parentKey :: allChildKey :: sels' /\
    childSelectors vals alias cp0 sels'.
Proof.
  revert css sels. induction cp as [|p r IH]; intros css sels Hsub Hkeys Hsel;
    cbn [fold_left]; [eauto|].
  destruct (keys_childStepOf vals alias p cp0 css sels) as (sels1 & Hk1 & Hs1); auto.
  - apply Hsub. now left.
  - apply (IH _ sels1); auto. intros q Hq. apply Hsub. now right.
Qed.

Lemma keys_injectDisplay css inline layoutType applyDefaults :
  In parentKey (JsMap.keys css) ->
  JsMap.keys (injectDisplay css inline layoutType applyDefaults) = JsMap.keys css.
Proof.
  intros H. unfold injectDisplay. destruct (negb _ || applyDefaults); [|reflexivity].
  now apply keys_setIn.
Qed.

Lemma childSelector_not_length name alias key : childSelector name alias key <> "length".
Proof. unfold childSelector, wrapChildKey. simpl. discriminate. Qed.

(** X6.  The CSS object [_buildCss] returns holds the host bucket first,
    the bucket of all children second, then one bucket per selector of a
    tracked value of a child-scoped property of the list, each selector
    once; no selector is named [length], so the style block written from it
    is [@media <mediaQuery> {<rules>}] with the rules in that order. *)
Theorem buildCss_selectors alias properties inline layoutType applyDefaults this css this' :
  _buildCss alias properties inline layoutType applyDefaults this = (Normal css, this') ->
  exists sels,
    JsMap.keys css = parentKey :: allChildKey :: sels /\
    List.NoDup sels /\
    (forall sel, In sel sels ->
       exists p v, In (Some p) properties /\ Property.child p = true /\
         In v (JsMap.keys (valuesAt (trackerKey (Property.name p) alias) this)) /\
         sel = childSelector (Property.name p) alias v) /\
    forall mediaQuery,
      styleBlock css mediaQuery = "@media " +:+ mediaQuery +:+ " {" +:+ rulesText css +:+ "}".
Proof.
  intros Hb.
  destruct (_buildCss_spec alias properties inline layoutType applyDefaults this)
    as (this1 & Hspec & _).
  rewrite Hb in Hspec. injection Hspec as Hcss _. unfold buildCssOf in Hcss.
  destruct (filterProps (fun p => negb (Property.child p)) properties) as [pp|]; [|discriminate].
  destruct (filterProps Property.child properties) as [cp|] eqn:Ec; [|discriminate].
  destruct (foldC (hostStepOf (tracked this) alias) pp emptyCss) as [cssH|] eqn:EH;
    [|discriminate].
  injection Hcss as ->.
  apply keys_foldC_hostStepOf in EH; [|now left|right; now left].
  destruct (keys_fold_childStepOf (tracked this) alias cp cp cssH [])
    as (sels & Hk & Hnd & Hsel); auto.
  { split; [constructor|]. intros sel []. }
  assert (Hkeys : JsMap.keys (injectDisplay (fold_left (childStepOf (tracked this) alias) cp cssH)
                                inline layoutType applyDefaults)
                  = parentKey :: allChildKey :: sels).
  { rewrite keys_injectDisplay; [exact Hk|]. rewrite Hk. now left. }
  exists sels. split; [exact Hkeys|]. split; [exact Hnd|]. split.
  - intros sel Hs. destruct (Hsel sel Hs) as (p & v & Hp & Hv & ->).
    destruct (filterProps_In _ _ _ _ Ec Hp) as [Hin Hc]. exists p, v. auto.
  - intros mediaQuery. unfold styleBlock. fold (cssText (injectDisplay
      (fold_left (childStepOf (tracked this) alias) cp cssH) inline layoutType applyDefaults)).
    unfold cssText. rewrite unwrapCss_css.
    assert (Hno : JsMap.has (injectDisplay (fold_left (childStepOf (tracked this) alias) cp cssH)
                               inline layoutType applyDefaults) "length" = false).
    { unfold JsMap.has.
      destruct (JsMap.get _ "length") eqn:E; [|reflexivity].
      apply get_In in E. apply (in_map fst) in E. cbn [fst] in E.
      change (In "length" (JsMap.keys (injectDisplay
                (fold_left (childStepOf (tracked this) alias) cp cssH)
                inline layoutType applyDefaults))) in E.
      rewrite Hkeys in E. destruct E as [E|[E|E]]; [discriminate E|discriminate E|].
      destruct (Hsel _ E) as (p & v & _ & _ & Hl). symmetry in Hl.
      now apply childSelector_not_length in Hl. }
    now rewrite Hno.
Qed.

Lemma buildCss_selectors_witness :
  exists sels,
    JsMap.keys SampleVariants.css = parentKey :: allChildKey :: sels /\
    List.NoDup sels /\
    (forall sel, In sel sels ->
       exists p v, In (Some p) [Some Sample.gap; Some Sample.fill] /\ Property.child p = true /\
         In v (JsMap.keys (valuesAt (trackerKey (Property.name p) "") SampleVariants.layout)) /\
         sel = childSelector (Property.name p) "" v) /\
    forall mediaQuery,
      styleBlock SampleVariants.css mediaQuery
      = "@media " +:+ mediaQuery +:+ " {" +:+ rulesText SampleVariants.css +:+ "}".
Proof.
  apply (buildCss_selectors "" [Some Sample.gap; Some Sample.fill] false "flex" false
           SampleVariants.layout SampleVariants.css
           (snd (_buildCss "" [Some Sample.gap; Some Sample.fill] false "flex" false
                   SampleVariants.layout))).
  vm_compute. reflexivity.
Defined.

(** X7.  [_buildCss] reads the instance and writes nothing but empty maps:
    the configuration and the shadow root are as before, and so is the map
    of every tracker key (a key without map reading as the empty map),
    whether the call returns or throws. *)
Theorem buildCss_frame alias properties inline layoutType applyDefaults this :
  let this' := snd (_buildCss alias properties inline layoutType applyDefaults this) in
  _breakpoints this' = _breakpoints this /\
  _allBreakpoint this' = _allBreakpoint this /\
  _properties this' = _properties this /\
  _layoutType this' = _layoutType this /\
  shadowRoot this' = shadowRoot this /\
  forall key, valuesAt key this' = valuesAt key this.
Proof.
  cbv zeta.
  destruct (_buildCss_spec alias properties inline layoutType applyDefaults this)
    as (this1 & -> & (Hb & Hl & Ha & Hp & Hs & Hv)).
  cbn [snd]. auto 10.
Qed.

(** ** Merging the host fragments *)

Lemma filterProps_app f l1 l2 :
  filterProps f (l1 ++ l2) =
    match filterProps f l1, filterProps f l2 with
    | Normal a, Normal b => Normal (a ++ b)%list
    | _, _ => Throw
    end.
Proof.
  induction l1 as [|[p|] r IH]; cbn [app filterProps].
  - now destruct (filterProps f l2).
  - rewrite IH. destruct (filterProps f r), (filterProps f l2); try reflexivity.
    now destruct (f p).
  - reflexivity.
Qed.

Lemma foldC_app {A S} (body : S -> A -> Completion S) l1 l2 acc :
  foldC body (l1 ++ l2) acc =
    match foldC body l1 acc with
    | Normal acc' => foldC body l2 acc'
    | Throw => Throw
    end.
Proof.
  revert acc. induction l1 as [|x r IH]; intros acc; cbn [app foldC]; [reflexivity|].
  destruct (body acc x); [apply IH|reflexivity].
Qed.

Lemma get_fold_set {V} (src m : list (string * V)) k :
  JsMap.get (fold_left (fun b kv => JsMap.set b (fst kv) (snd kv)) src m) k =
    match JsMap.get (rev src) k with
    | Some v => Some v
    | None => JsMap.get m k
    end.
Proof.
  revert m. induction src as [|[k' v'] r IH]; intros m; [reflexivity|].
  cbn [fold_left fst snd rev]. rewrite IH.
  assert (Happ : forall (l : list (string * V)),
            JsMap.get (l ++ [(k', v')]) k =
              match JsMap.get l k with
              | Some v => Some v
              | None => if String.eqb k' k then Some v' else None
              end).
  { induction l as [|[a b] l IHl]; cbn [app JsMap.get]; [reflexivity|].
    destruct (String.eqb a k); [reflexivity|exact IHl]. }
  rewrite Happ. destruct (JsMap.get (rev r) k); [reflexivity|].
  destruct (String.eqb_spec k' k) as [->|Hne].
  - apply get_set_eq.
  - now apply get_set_ne.
Qed.

Lemma get_rev_NoDup {V} (m : list (string * V)) k :
  List.NoDup (JsMap.keys m) -> JsMap.get (rev m) k = JsMap.get m k.
Proof.
  induction m as [|[k' v'] r IH]; [reflexivity|].
  cbn [JsMap.keys map fst rev]. intros Hnd. inversion Hnd as [|? ? Hnotin Hnd']; subst.
  assert (Happ : forall (l : list (string * V)),
            JsMap.get (l ++ [(k', v')]) k =
              match JsMap.get l k with
              | Some v => Some v
              | None => if String.eqb k' k then Some v' else None
              end).
  { induction l as [|[a b] l IHl]; cbn [app JsMap.get]; [reflexivity|].
    destruct (String.eqb a k); [reflexivity|exact IHl]. }
  rewrite Happ, (IH Hnd'). cbn [JsMap.get].
  destruct (String.eqb_spec k' k) as [->|Hne].
  - assert (Hn : JsMap.get r k = None) by now apply get_None_keys.
    now rewrite Hn.
  - now destruct (JsMap.get r k).
Qed.

Lemma bucket_assignAll css sel src :
  bucket (assignAll css sel src) sel
  = fold_left (fun b kv => JsMap.set b (fst kv) (snd kv)) src (bucket css sel).
Proof.
  unfold assignAll. revert css. induction src as [|[k v] r IH]; intros css; [reflexivity|].
  cbn [fold_left fst snd]. rewrite IH. unfold setIn. now rewrite bucket_set_eq.
Qed.

Lemma bucket_assignAll_other css sel sel' src :
  sel <> sel' -> bucket (assignAll css sel src) sel' = bucket css sel'.
Proof.
  intros Hne. unfold assignAll. revert css.
  induction src as [|[k v] r IH]; intros css; [reflexivity|].
  cbn [fold_left fst snd]. rewrite IH. unfold setIn. now apply bucket_set_ne.
Qed.

Lemma parentKey_not_allChildKey : allChildKey <> parentKey.
Proof. unfold allChildKey, parentKey. discriminate. Qed.

(** A host-scoped step changes the declaration [k] of the host bucket only
    when the host fragment of the property declares [k]. *)
Lemma get_hostStepOf_other vals alias css css' q k :
  hostStepOf vals alias css q = Normal css' ->
  (forall w, head (JsMap.keys (vals (trackerKey (Property.name q) alias))) = Some w ->
             JsMap.get (fst (Property.updateFn q w alias)) k = None) ->
  JsMap.get (bucket css' parentKey) k = JsMap.get (bucket css parentKey) k.
Proof.
  unfold hostStepOf. destruct (head _) as [w|]; [|now intros [= <-]].
  destruct (snd (Property.updateFn q w alias)) as [c|]; [|discriminate].
  intros [= <-] Hno.
  rewrite bucket_assignAll_other by apply parentKey_not_allChildKey.
  rewrite bucket_assignAll, get_fold_set.
  destruct (JsMap.get (rev (fst (Property.updateFn q w alias))) k) as [x|] eqn:E;
    [|reflexivity].
  exfalso. apply get_In in E. apply in_rev in E.
  specialize (Hno w eq_refl). apply get_None_keys in Hno. apply Hno.
  now apply (in_map fst) in E.
Qed.

Lemma get_foldC_hostStepOf_other vals alias pp css css' k :
  foldC (hostStepOf vals alias) pp css = Normal css' ->
  (forall q w, In q pp ->
     head (JsMap.keys (vals (trackerKey (Property.name q) alias))) = Some w ->
     JsMap.get (fst (Property.updateFn q w alias)) k = None) ->
  JsMap.get (bucket css' parentKey) k = JsMap.get (bucket css parentKey) k.
Proof.
  revert css. induction pp as [|q r IH]; intros css; cbn [foldC].
  - now intros [= <-].
  - destruct (hostStepOf vals alias css q) as [css1|] eqn:E1; [|discriminate].
    intros H Hno. rewrite (IH css1 H) by (intros; eapply Hno; eauto; now right).
    eapply get_hostStepOf_other; eauto. intros w Hw. eapply Hno; eauto. now left.
Qed.

(** X8.  Later properties overwrite earlier ones: a declaration of the
    host fragment of a host-scoped property, made for its first tracked
    value, is in the host bucket of the returned CSS object unless a
    host-scoped property later in the list declares the same key from a
    tracked value (or the key is [display], which [_buildCss] sets itself). *)
Theorem host_last_declaration_wins alias l1 p l2 inline layoutType applyDefaults
    this css this' v k val :
  _buildCss alias (l1 ++ Some p :: l2) inline layoutType applyDefaults this
    = (Normal css, this') ->
  Property.child p = false ->
  head (JsMap.keys (valuesAt (trackerKey (Property.name p) alias) this)) = Some v ->
  List.NoDup (JsMap.keys (fst (Property.updateFn p v alias))) ->
  JsMap.get (fst (Property.updateFn p v alias)) k = Some val ->
  (forall q w, In (Some q) l2 -> Property.child q = false ->
     head (JsMap.keys (valuesAt (trackerKey (Property.name q) alias) this)) = Some w ->
     JsMap.get (fst (Property.updateFn q w alias)) k = None) ->
  k <> "display" ->
  JsMap.get (bucket css parentKey) k = Some val.
Proof.
  intros Hb Hhost Hv Hnd Hk Hlater Hdisp.
  destruct (_buildCss_spec alias (l1 ++ Some p :: l2) inline layoutType applyDefaults this)
    as (this1 & Hspec & _).
  rewrite Hb in Hspec. injection Hspec as Hcss _. unfold buildCssOf in Hcss.
  rewrite filterProps_app in Hcss.
  destruct (filterProps (fun p => negb (Property.child p)) l1) as [pp1|]; [|discriminate].
  cbn [filterProps] in Hcss. rewrite Hhost in Hcss. cbn [negb] in Hcss.
  destruct (filterProps (fun p => negb (Property.child p)) l2) as [pp2|] eqn:E2;
    [|discriminate].
  destruct (filterProps Property.child (l1 ++ Some p :: l2)) as [cp|]; [|discriminate].
  rewrite foldC_app in Hcss.
  destruct (foldC (hostStepOf (tracked this) alias) pp1 emptyCss) as [css1|]; [|discriminate].
  cbn [foldC] in Hcss.
  destruct (hostStepOf (tracked this) alias css1 p) as [css2|] eqn:Ep; [|discriminate].
  destruct (foldC (hostStepOf (tracked this) alias) pp2 css2) as [css3|] eqn:E3;
    [|discriminate].
  injection Hcss as ->.
  rewrite bucket_injectDisplay, bucket_fold_childStepOf.
  assert (H3 : JsMap.get (bucket css3 parentKey) k = Some val).
  { rewrite (get_foldC_hostStepOf_other _ _ _ _ _ k E3).
    - unfold hostStepOf in Ep. unfold tracked in Ep. rewrite Hv in Ep.
      destruct (snd (Property.updateFn p v alias)) as [c|]; [|discriminate].
      injection Ep as <-.
      rewrite bucket_assignAll_other by apply parentKey_not_allChildKey.
      rewrite bucket_assignAll, get_fold_set, get_rev_NoDup, Hk by exact Hnd.
      reflexivity.
    - intros q w Hq Hw. destruct (filterProps_In _ _ _ _ E2 Hq) as [Hin Hc].
      apply (Hlater q w); auto. now apply negb_true_iff in Hc. }
  destruct (negb _ || applyDefaults); [|exact H3].
  rewrite get_set_ne; [exact H3|]. intros Heq. now apply Hdisp.
Qed.

Lemma host_last_declaration_wins_witness :
  JsMap.get (bucket SampleMerge.css parentKey) "gap" = Some "4px".
Proof.
  apply (host_last_declaration_wins "" [Some Sample.gap] SampleMerge.row [] false "flex" false
           SampleMerge.layout SampleMerge.css
           (snd (_buildCss "" [Some Sample.gap; Some SampleMerge.row] false "flex" false
                   SampleMerge.layout))
           "4px" "gap" "4px").
  - vm_compute. reflexivity.
  - reflexivity.
  - vm_compute. reflexivity.
  - vm_compute. repeat constructor; cbn; intuition discriminate.
  - vm_compute. reflexivity.
  - intros q w [].
  - discriminate.
Defined.

(** ** The host-scoped tie-break *)

Lemma hostCalls_filter this alias properties pp :
  filterProps (fun p => negb (Property.child p)) properties = Normal pp ->
  hostCalls this alias properties
  = flat_map (fun p => match firstTracked this alias p with
                       | Some value => [Property.updateFn p value alias]
                       | None => []
                       end) pp.
Proof.
  revert pp. induction properties as [|[p|] r IH]; intros pp; cbn [filterProps].
  - now intros [= <-].
  - destruct (filterProps _ r) as [r'|]; [|discriminate].
    intros [= <-]. cbn [hostCalls flat_map]. fold (hostCalls this alias r).
    rewrite (IH r' eq_refl).
    destruct (Property.child p); cbn [negb]; [reflexivity|].
    cbn [flat_map]. reflexivity.
  - discriminate.
Qed.

(** The loop over the host-scoped properties, bucket by bucket. *)
Lemma foldC_hostStepOf_calls this alias pp css css' :
  foldC (hostStepOf (tracked this) alias) pp css = Normal css' ->
  exists childs,
    map snd (flat_map (fun p => match firstTracked this alias p with
                                | Some value => [Property.updateFn p value alias]
                                | None => []
                                end) pp) = map Some childs /\
    bucket css' parentKey
    = fold_left mergeDecls
        (map fst (flat_map (fun p => match firstTracked this alias p with
                                     | Some value => [Property.updateFn p value alias]
                                     | None => []
                                     end) pp))
        (bucket css parentKey) /\
    bucket css' allChildKey = fold_left mergeDecls childs (bucket css allChildKey).
Proof.
  revert css. induction pp as [|p r IH]; intros css; cbn [foldC flat_map].
  - intros [= <-]. exists []. auto.
  - unfold hostStepOf at 1.
    change (head (JsMap.keys (tracked this (trackerKey (Property.name p) alias))))
      with (firstTracked this alias p).
    destruct (firstTracked this alias p) as [value|]; [|apply IH].
    destruct (snd (Property.updateFn p value alias)) as [childCss|] eqn:Es; [|discriminate].
    intros H. destruct (IH _ H) as (childs & Hs & Hp & Hc).
    exists (childCss :: childs). cbn [app map fold_left].
    split; [now rewrite Es, Hs|]. split.
    + rewrite Hp. f_equal.
      rewrite bucket_assignAll_other by apply parentKey_not_allChildKey.
      apply bucket_assignAll.
    + rewrite Hc. f_equal. rewrite bucket_assignAll. unfold mergeDecls. f_equal.
      apply bucket_assignAll_other. intros E. symmetry in E.
      now apply parentKey_not_allChildKey in E.
Qed.

Lemma bucket_fold_childStepOf_all vals alias cp css :
  bucket (fold_left (childStepOf vals alias) cp css) allChildKey = bucket css allChildKey.
Proof.
  revert css. induction cp as [|p r IH]; intros css; cbn [fold_left]; [reflexivity|].
  rewrite IH. unfold bucket. f_equal. apply get_childStepOf_other.
  intros key. apply childSelector_not_allChildKey.
Qed.

(** C7.  Host-scoped tie-break policy.  When [_buildCss] returns, the host
    bucket and the bucket of all children are made of the fragments of one
    invocation of the update function per host-scoped property of the list
    whose map is not empty, on the value at iteration position 0 of the map
    and on no other: the host fragments are assigned key by key, in the
    order of the list, into the host bucket (which then receives [display]
    by the rule of the default), the child fragments into the bucket of all
    children.  The other tracked values of a host-scoped property are
    ignored: an instance whose maps have the same value at position 0,
    whatever other values, set earlier or later, and whatever counts they
    hold, gives the same CSS object. *)
Theorem host_first_value_wins alias properties inline layoutType applyDefaults
    this css this' :
  _buildCss alias properties inline layoutType applyDefaults this = (Normal css, this') ->
  (exists childs,
     map snd (hostCalls this alias properties) = map Some childs /\
     bucket css parentKey
     = (let host := fold_left mergeDecls (map fst (hostCalls this alias properties)) [] in
        if negb (Nat.eqb (length host) 0) || applyDefaults
        then JsMap.set host "display" (displayValue inline layoutType)
        else host) /\
     bucket css allChildKey = fold_left mergeDecls childs []) /\
  forall this2,
    (forall p, In (Some p) properties -> Property.child p = false ->
       firstTracked this2 alias p = firstTracked this alias p) ->
    (forall p, In (Some p) properties -> Property.child p = true ->
       JsMap.keys (valuesAt (trackerKey (Property.name p) alias) this2)
       = JsMap.keys (valuesAt (trackerKey (Property.name p) alias) this)) ->
    fst (_buildCss alias properties inline layoutType applyDefaults this2) = Normal css.
Proof.
  intros Hb. split.
  - destruct (_buildCss_spec alias properties inline layoutType applyDefaults this)
      as (this1 & Hspec & _).
    rewrite Hb in Hspec. injection Hspec as Hcss _. unfold buildCssOf in Hcss.
    destruct (filterProps (fun p => negb (Property.child p)) properties) as [pp|] eqn:Ep;
      [|discriminate].
    destruct (filterProps Property.child properties) as [cp|]; [|discriminate].
    destruct (foldC (hostStepOf (tracked this) alias) pp emptyCss) as [cssH|] eqn:Eh;
      [|discriminate].
    injection Hcss as ->.
    destruct (foldC_hostStepOf_calls this alias pp emptyCss cssH Eh) as (childs & Hs & Hp & Hc).
    rewrite (hostCalls_filter this alias properties pp Ep).
    exists childs. split; [exact Hs|]. split.
    + rewrite bucket_injectDisplay, bucket_fold_childStepOf, Hp. reflexivity.
    + unfold bucket at 1. rewrite get_injectDisplay_other by apply parentKey_not_allChildKey.
      fold (bucket (fold_left (childStepOf (tracked this) alias) cp cssH) allChildKey).
      rewrite bucket_fold_childStepOf_all, Hc. reflexivity.
  - intros this2 Hhost Hchild.
    rewrite (_buildCss_agree alias properties inline layoutType applyDefaults this2 this).
    + now rewrite Hb.
    + intros p Hp. cbv zeta. split; intros Hk; [now apply Hhost|now apply Hchild].
Qed.

Lemma host_first_value_wins_witness :
  bucket SampleTieBreak.css parentKey = [("gap", "8px"); ("display", "grid")] /\
  fst (_buildCss "" [Some Sample.gap] false "grid" false
         (setValuesAt "gap" [("8px", 7)] Sample.flexLayout))
  = Normal SampleTieBreak.css.
Proof.
  destruct (host_first_value_wins "" [Some Sample.gap] false "grid" false
              SampleTieBreak.layout SampleTieBreak.css
              (snd (_buildCss "" [Some Sample.gap] false "grid" false SampleTieBreak.layout)))
    as [(childs & _ & Hhost & _) Hother].
  - vm_compute. reflexivity.
  - split; [exact Hhost|]. apply Hother.
    + intros p [[= <-]|[]] _. vm_compute. reflexivity.
    + intros p [[= <-]|[]] Hc. vm_compute in Hc. discriminate.
Defined.

(** ** Attaching the same text again *)

Lemma alter_same_text i k text root :
  getElementById i root = Some k -> styleText i root = Some text ->
  alter (setInnerHTML text) k root = root.
Proof.
  unfold getElementById. revert k.
  induction root as [|n r IH]; intros k; cbn [findIndex]; [discriminate|].
  rewrite styleText_cons. destruct (node_has_id i n) eqn:E.
  - intros [= <-] Ht. cbn. f_equal.
    destruct n as [j t|]; cbn in *; [now injection Ht as ->|discriminate].
  - destruct (findIndex (node_has_id i) r) as [k'|]; cbn [option_map]; [|discriminate].
    intros [= <-] Ht. cbn. f_equal. now apply IH.
Qed.

Lemma with_shadowRoot_same this : with_shadowRoot (shadowRoot this) this = this.
Proof. now destruct this. Qed.

(** X9.  Attaching CSS whose text the block of the alias already holds is
    a no-op: the call returns and the instance, shadow root included, is
    the same. *)
Theorem attachCss_same_text css mediaQuery alias this :
  styleText (styleId (_layoutType this) alias) (shadowRoot this)
    = Some (styleBlock css mediaQuery) ->
  _attachCss css mediaQuery alias this = (Normal tt, this).
Proof.
  intros Ht. unfold _attachCss.
  destruct (getElementById (styleId (_layoutType this) alias) (shadowRoot this)) as [k|] eqn:E.
  - rewrite (alter_same_text _ _ _ _ E Ht). now rewrite with_shadowRoot_same.
  - unfold styleText in Ht. rewrite E in Ht. discriminate.
Qed.

Lemma attachCss_same_text_witness :
  _attachCss [(":host", [("display", "flex")]); (":host>*", [])] "all" "" Sample.flexLayout
  = (Normal tt, Sample.flexLayout).
Proof. apply attachCss_same_text. vm_compute. reflexivity. Defined.

(** ** The layout of the shadow root *)

Lemma _attachCss_root css mediaQuery alias this :
  _attachCss css mediaQuery alias this
  = (Normal tt,
     with_shadowRoot (attachRoot (_layoutType this) css mediaQuery alias (shadowRoot this)) this).
Proof.
  unfold _attachCss, attachRoot.
  now destruct (getElementById (styleId (_layoutType this) alias) (shadowRoot this)).
Qed.

Lemma styleId_own layoutType a b :
  ownBlock a -> ownBlock b -> styleId layoutType a = styleId layoutType b -> a = b.
Proof.
  intros [Ha Ha'] [Hb Hb'] H. apply styleId_inj in H as [H|[[H|H] _]]; auto.
  - subst. discriminate.
  - contradiction.
Qed.

Lemma styleId_own_all layoutType a :
  ownBlock a -> styleId layoutType "" <> styleId layoutType a.
Proof.
  intros [Ha Ha'] H. apply styleId_inj in H as [H|[_ [H|H]]]; subst; try discriminate.
  contradiction.
Qed.

Lemma styleId_all layoutType a :
  ~ ownBlock a -> styleId layoutType a = styleId layoutType "".
Proof.
  intros H. unfold styleId. destruct (truthy a) eqn:E; [|reflexivity].
  destruct (String.eqb_spec a "all") as [->|Hne]; [reflexivity|].
  exfalso. apply H. split; auto.
Qed.

(** Looking for the block of an alias among the blocks and the slot, and
    replacing its text. *)
Lemma blocks_lookup layoutType a text blocks :
  ownBlock a -> (forall b, In b (JsMap.keys blocks) -> ownBlock b) ->
  match findIndex (node_has_id (styleId layoutType a))
          (map (blockNode layoutType) blocks ++ [SlotElement])%list with
  | Some k =>
      alter (setInnerHTML text) k (map (blockNode layoutType) blocks ++ [SlotElement])%list
      = (map (blockNode layoutType) (JsMap.set blocks a text) ++ [SlotElement])%list
  | None => JsMap.get blocks a = None
  end.
Proof.
  intros Ha. induction blocks as [|[b t] r IH]; intros Hown; [reflexivity|].
  cbn [map app findIndex JsMap.set JsMap.get].
  assert (Hb : ownBlock b) by (apply Hown; now left).
  assert (Hr : forall b', In b' (JsMap.keys r) -> ownBlock b')
    by (intros b' H; apply Hown; now right).
  unfold blockNode at 1. cbn [node_has_id fst snd].
  destruct (String.eqb_spec (styleId layoutType b) (styleId layoutType a)) as [Heq|Hne].
  - apply styleId_own in Heq; auto. subst b. now rewrite String.eqb_refl.
  - destruct (String.eqb_spec b a) as [->|Hba]; [congruence|].
    specialize (IH Hr).
    destruct (findIndex (node_has_id (styleId layoutType a))
                (map (blockNode layoutType) r ++ [SlotElement])%list) as [k|];
      cbn [option_map]; [|exact IH].
    cbn. f_equal. exact IH.
Qed.

Lemma findIndex_slot_blocks layoutType blocks :
  findIndex is_slot (map (blockNode layoutType) blocks ++ [SlotElement])%list
  = Some (length blocks).
Proof.
  induction blocks as [|b r IH]; [reflexivity|].
  cbn [map app findIndex length]. unfold blockNode at 1. cbn [is_slot]. now rewrite IH.
Qed.

(** [_attachCss] on such a shadow root: the block [<layoutType>-all] takes
    the text when the alias is empty or [all]; otherwise the block of the
    alias takes it, a new block going last before the slot. *)
Lemma attachRoot_render layoutType css mediaQuery a allText blocks :
  (forall b, In b (JsMap.keys blocks) -> ownBlock b) ->
  (~ ownBlock a ->
   attachRoot layoutType css mediaQuery a (renderRoot layoutType allText blocks)
   = renderRoot layoutType (styleBlock css mediaQuery) blocks) /\
  (ownBlock a ->
   attachRoot layoutType css mediaQuery a (renderRoot layoutType allText blocks)
   = renderRoot layoutType allText (JsMap.set blocks a (styleBlock css mediaQuery))).
Proof.
  intros Hown. split; intros Ha; unfold attachRoot, renderRoot, getElementById.
  - rewrite (styleId_all _ _ Ha). cbn [findIndex baseStyle node_has_id].
    rewrite String.eqb_refl. reflexivity.
  - cbn [findIndex baseStyle node_has_id].
    destruct (String.eqb_spec (styleId layoutType "") (styleId layoutType a)) as [Heq|_];
      [now apply styleId_own_all in Heq|].
    pose proof (blocks_lookup layoutType a (styleBlock css mediaQuery) blocks Ha Hown) as Hl.
    destruct (findIndex (node_has_id (styleId layoutType a))
                (map (blockNode layoutType) blocks ++ [SlotElement])%list) as [k|];
      cbn [option_map].
    + cbn. now rewrite Hl.
    + destruct Ha as [Ht Hne]. rewrite Ht. cbn [findIndex is_slot].
      rewrite findIndex_slot_blocks. cbn [option_map].
      change (is_slot baseStyle) with false. cbv iota. unfold insertBefore.
      rewrite (set_absent _ _ _ Hl), map_app.
      cbn [firstn skipn]. f_equal. f_equal.
      rewrite take_app_length', drop_app_length' by now rewrite length_map.
      rewrite <- app_assoc. reflexivity.
Qed.

Lemma rebuild_root hasAttribute bp alias this :
  shadowRoot (snd (rebuild hasAttribute bp alias this)) = shadowRoot this \/
  exists css,
    shadowRoot (snd (rebuild hasAttribute bp alias this))
    = attachRoot (_layoutType this) css (BreakPointProperty.mediaQuery (deref bp this))
        (BreakPointProperty.alias (deref bp this)) (shadowRoot this).
Proof.
  unfold rebuild.
  destruct (_buildCss_spec (BreakPointProperty.alias (deref bp this))
              (BreakPointProperty.properties (deref bp this))
              (hasAttribute (inlineAttrOf (BreakPointProperty.alias (deref bp this))))
              (_layoutType this) (truthy alias) this) as (this1 & -> & (_ & El & _ & _ & Es & _)).
  destruct (buildCssOf _ _ _ _ _ _) as [css|]; cbn [snd]; [|left; exact Es].
  right. exists css. rewrite _attachCss_root. cbn [snd]. now rewrite El, Es.
Qed.

(** The shadow root after a call: untouched, or the result of
    [_attachCss] for the resolved breakpoint. *)
Lemma deliver_root this c :
  let bp := resolve (snd (decode (attributeName c))) this in
  shadowRoot (deliver this c) = shadowRoot this \/
  exists css,
    shadowRoot (deliver this c)
    = attachRoot (_layoutType this) css (BreakPointProperty.mediaQuery (deref bp this))
        (BreakPointProperty.alias (deref bp this)) (shadowRoot this).
Proof.
  cbv zeta. unfold deliver. rewrite callback_eq. cbv zeta.
  set (prop := fst (decode (attributeName c))).
  set (alias := snd (decode (attributeName c))).
  set (bp := resolve alias this).
  destruct (findIndexByName prop _) as [found|]; [|now left].
  pose proof (resolve_valid alias this) as Hv. fold bp in Hv.
  set (this2 := trackChange prop alias (oldValue c) (newValue c)
                  (registerProperty bp prop found this)).
  assert (Ha : BreakPointProperty.alias (deref bp this2)
               = BreakPointProperty.alias (deref bp this)).
  { unfold this2. rewrite deref_tracked by auto. now destruct found. }
  assert (Hm : BreakPointProperty.mediaQuery (deref bp this2)
               = BreakPointProperty.mediaQuery (deref bp this)).
  { unfold this2. rewrite deref_tracked by auto. now destruct found. }
  assert (Hl : _layoutType this2 = _layoutType this) by apply layoutType_tracked.
  assert (Hs : shadowRoot this2 = shadowRoot this) by apply shadowRoot_tracked.
  destruct (rebuild_root (hostHasAttribute c) bp alias this2) as [H|[css H]].
  - left. now rewrite H.
  - right. exists css. now rewrite H, Ha, Hm, Hl, Hs.
Qed.

Lemma map_alter_same {A B} (g : A -> B) (f : A -> A) i (l : list A) :
  (forall x, g (f x) = g x) -> map g (alter f i l) = map g l.
Proof.
  intros H. revert i. induction l as [|a r IH]; intros [|i]; cbn; auto.
  - now rewrite H.
  - now rewrite IH.
Qed.

(** The aliases of the registry never change. *)
Lemma aliases_deliver this c :
  map BreakPointProperty.alias (_breakpoints (deliver this c))
  = map BreakPointProperty.alias (_breakpoints this).
Proof.
  pose proof (deliver_cases this c) as H. cbv zeta in H.
  destruct (findIndexByName _ _) as [found|]; [|now rewrite H].
  destruct H as (-> & _). unfold trackChange, setValuesAt. cbn.
  destruct found; cbn; auto. destruct (resolve _ this); cbn; auto.
  now apply map_alter_same.
Qed.

Lemma alias_resolved a this :
  In (BreakPointProperty.alias (deref (resolve a this) this))
     (map BreakPointProperty.alias (_breakpoints this)) \/
  BreakPointProperty.alias (deref (resolve a this) this)
    = BreakPointProperty.alias (_allBreakpoint this).
Proof.
  destruct (deref_In (resolve a this) this) as [H| ->]; [left|now right].
  now apply in_map.
Qed.

Lemma ownBlock_dec a : ownBlock a \/ ~ ownBlock a.
Proof.
  unfold ownBlock. destruct (truthy a); [|right; intros [? _]; discriminate].
  destruct (String.eqb_spec a "all") as [->|Hne]; [right; intros [_ H]; now apply H|].
  left. auto.
Qed.

Lemma rootInvariant_deliver layoutType aliases this c :
  rootInvariant layoutType aliases this -> rootInvariant layoutType aliases (deliver this c).
Proof.
  intros (Hl & Ha & Hal & allText & blocks & Hroot & Hnd & Hin).
  split; [now rewrite deliver_layoutType|].
  split; [destruct (allBreakpoint_deliver this c) as [-> _]; exact Ha|].
  split; [now rewrite aliases_deliver|].
  destruct (deliver_root this c) as [H|[css H]]; cbv zeta in H.
  - exists allText, blocks. now rewrite H.
  - rewrite H, Hl, Hroot.
    set (A := BreakPointProperty.alias
                (deref (resolve (snd (decode (attributeName c))) this) this)) in *.
    set (mq := BreakPointProperty.mediaQuery
                 (deref (resolve (snd (decode (attributeName c))) this) this)) in *.
    assert (Hown : forall b, In b (JsMap.keys blocks) -> ownBlock b)
      by (intros b Hb; now apply Hin).
    destruct (attachRoot_render layoutType css mq A allText blocks Hown) as [Hall Hblk].
    destruct (ownBlock_dec A) as [HA|HA].
    + exists allText, (JsMap.set blocks A (styleBlock css mq)).
      split; [now apply Hblk|]. split.
      * apply NoDup_ListNoDup. apply NoDup_keys_set. now apply NoDup_ListNoDup.
      * intros b Hb. rewrite keys_set in Hb.
        destruct (JsMap.has blocks A); [now apply Hin|].
        apply in_app_iff in Hb as [Hb|[<-|[]]]; [now apply Hin|].
        split; [|exact HA].
        destruct (alias_resolved (snd (decode (attributeName c))) this) as [Hr|Hr].
        -- now rewrite <- Hal.
        -- exfalso. fold A in Hr. rewrite Ha in Hr. rewrite Hr in HA.
           destruct HA as [Ht _]. discriminate.
    + exists (styleBlock css mq), blocks. split; [now apply Hall|]. auto.
Qed.

(** X10.  The shadow root of a constructed instance always is: the base
    style, the block [<layoutType>-all], one block per alias of a list of
    aliases, and the slot last.  The aliases with a block are distinct
    aliases of the registry other than the empty alias and [all], so the
    shadow root never holds more than three nodes plus one per registered
    breakpoint. *)
Theorem shadowRoot_layout bps layoutType properties (cs : list Change) :
  exists allText blocks,
    shadowRoot (run (constructor bps layoutType properties) cs)
      = renderRoot layoutType allText blocks /\
    List.NoDup (JsMap.keys blocks) /\
    (forall b, In b (JsMap.keys blocks) ->
       In b (map BreakPointProperty.alias bps) /\ b <> "" /\ b <> "all") /\
    (length (shadowRoot (run (constructor bps layoutType properties) cs))
     <= 3 + length bps)%nat.
Proof.
  assert (H : rootInvariant layoutType (map BreakPointProperty.alias bps)
                (run (constructor bps layoutType properties) cs)).
  { unfold run.
    assert (H0 : rootInvariant layoutType (map BreakPointProperty.alias bps)
                   (constructor bps layoutType properties)).
    { repeat (split; [reflexivity|]).
      exists ("@media all {:host {display: " +:+ layoutType +:+ ";}}"), [].
      split; [reflexivity|]. split; [constructor|]. intros b []. }
    revert H0. generalize (constructor bps layoutType properties).
    induction cs as [|c r IH]; intros this Hthis; cbn [fold_left]; auto.
    apply IH. now apply rootInvariant_deliver. }
  destruct H as (_ & _ & _ & allText & blocks & Hroot & Hnd & Hin).
  exists allText, blocks. split; [exact Hroot|]. split; [exact Hnd|]. split.
  - intros b Hb. destruct (Hin b Hb) as [H1 [Ht Hne]].
    split; [exact H1|]. split; [|exact Hne]. intros ->. discriminate.
  - rewrite Hroot. unfold renderRoot. cbn [length]. rewrite length_app, length_map.
    cbn [length].
    assert (Hle : (length (JsMap.keys blocks) <= length (map BreakPointProperty.alias bps))%nat).
    { apply NoDup_incl_length; [exact Hnd|]. intros b Hb. now apply Hin. }
    unfold JsMap.keys in Hle. rewrite !length_map in Hle. lia.
Qed.

(** ** Growth of the active lists *)

Lemma grown_refl bp : grown bp bp.
Proof. repeat (split; [reflexivity|]). exists []. now rewrite app_nil_r. Qed.

Lemma grown_trans a b c : grown a b -> grown b c -> grown a c.
Proof.
  intros (Ha & Hm & Ho & s1 & H1) (Ha' & Hm' & Ho' & s2 & H2).
  repeat (split; [congruence|]). exists (s1 ++ s2)%list.
  now rewrite H2, H1, app_assoc.
Qed.

Lemma grown_push p bp : grown bp (BreakPointProperty.push p bp).
Proof. repeat (split; [reflexivity|]). now exists [p]. Qed.

Lemma Forall2_grown_refl l : Forall2 grown l l.
Proof. induction l; constructor; auto using grown_refl. Qed.

Lemma Forall2_grown_alter p i l : Forall2 grown l (alter (BreakPointProperty.push p) i l).
Proof.
  revert i. induction l as [|a r IH]; intros [|i]; cbn; constructor;
    auto using grown_refl, grown_push, Forall2_grown_refl.
Qed.

Lemma Forall2_grown_trans l1 l2 l3 :
  Forall2 grown l1 l2 -> Forall2 grown l2 l3 -> Forall2 grown l1 l3.
Proof.
  intros H. revert l3. induction H as [|a b l1 l2 Hab H IH]; intros l3 H23.
  - inversion H23. constructor.
  - inversion H23 as [|? c ? l3' Hbc H']; subst. constructor; eauto using grown_trans.
Qed.

Lemma grown_deliver this c :
  Forall2 grown (_breakpoints this) (_breakpoints (deliver this c)) /\
  grown (_allBreakpoint this) (_allBreakpoint (deliver this c)).
Proof.
  pose proof (deliver_cases this c) as H. cbv zeta in H.
  destruct (findIndexByName _ _) as [found|];
    [|rewrite H; auto using Forall2_grown_refl, grown_refl].
  destruct H as (-> & _ & -> & _). unfold trackChange, setValuesAt. cbn.
  destruct found; cbn; [auto using Forall2_grown_refl, grown_refl|].
  destruct (resolve _ this); cbn;
    auto using Forall2_grown_refl, grown_refl, grown_push, Forall2_grown_alter.
Qed.

(** X11.  The registry of an instance keeps its breakpoints, in order, with
    their aliases, media queries and flags, and the property registry and
    the layout type stay; the active list of a breakpoint only grows at its
    end: no call removes or reorders a registered property, whatever values
    are removed from the tracker. *)
Theorem active_lists_grow this (cs : list Change) :
  Forall2 grown (_breakpoints this) (_breakpoints (run this cs)) /\
  grown (_allBreakpoint this) (_allBreakpoint (run this cs)) /\
  _properties (run this cs) = _properties this /\
  _layoutType (run this cs) = _layoutType this.
Proof.
  unfold run. revert this. induction cs as [|c r IH]; intros this; cbn [fold_left].
  - auto using Forall2_grown_refl, grown_refl.
  - destruct (IH (deliver this c)) as (Hb & Ha & Hp & Hl).
    destruct (grown_deliver this c) as [Hb0 Ha0].
    split; [eapply Forall2_grown_trans; eauto|].
    split; [eapply grown_trans; eauto|].
    split; [now rewrite Hp, deliver_properties|now rewrite Hl, deliver_layoutType].
Qed.

(** X12.  On a constructed instance whose registry starts with distinct
    names in each active list, no active list ever holds two descriptors of
    the same name: a property is registered at a breakpoint once. *)
Theorem active_names_distinct bps layoutType properties (cs : list Change) bp :
  (forall b, In b bps -> List.NoDup (namesOf (BreakPointProperty.properties b))) ->
  In bp (_breakpoints (run (constructor bps layoutType properties) cs)) \/
  bp = _allBreakpoint (run (constructor bps layoutType properties) cs) ->
  List.NoDup (namesOf (BreakPointProperty.properties bp)).
Proof.
  intros Hreg Hbp.
  destruct (active_distinct_run bps layoutType properties cs Hreg) as [H1 H2].
  destruct Hbp as [Hbp| ->]; auto.
Qed.

Lemma active_names_distinct_witness :
  List.NoDup (namesOf (BreakPointProperty.properties
                         (_allBreakpoint (run Sample.flexLayout Sample.threeChanges)))).
Proof.
  apply (active_names_distinct [Sample.sm] "flex" [Sample.gap; Sample.fill]
           Sample.threeChanges).
  - intros b [<-|[]]. constructor.
  - right. reflexivity.
Defined.

Lemma In_namesOf p l : In (Some p) l -> In (Property.name p) (namesOf l).
Proof.
  intros H. unfold namesOf. apply in_flat_map. exists (Some p). split; [exact H|now left].
Qed.

(** X13.  A change of a registered property at a breakpoint whose active
    list holds descriptors only, with update functions that return both
    fragments, is processed to the end: the call returns, the property is in
    the active list of the breakpoint afterwards, and the block of the
    breakpoint holds the CSS synthesized for it. *)
Theorem known_property_processed hasAttribute name oldValue newValue this :
  let bp := resolve (snd (decode name)) this in
  let r := attributeChangedCallback hasAttribute name oldValue newValue this in
  ~ In None (BreakPointProperty.properties (deref bp this)) ->
  isRegistered (_properties this) (fst (decode name)) = true ->
  (forall p v a, In (Some p) (BreakPointProperty.properties (deref bp this)) \/
                 In p (_properties this) ->
                 Property.child p = false ->
                 snd (Property.updateFn p v a) <> None) ->
  fst r = Normal tt /\
  In (fst (decode name)) (namesOf (BreakPointProperty.properties (deref bp (snd r)))) /\
  exists css,
    fst (_buildCss (BreakPointProperty.alias (deref bp this))
           (BreakPointProperty.properties (deref bp (snd r)))
           (hasAttribute (inlineAttrOf (BreakPointProperty.alias (deref bp this))))
           (_layoutType this) (truthy (snd (decode name))) (snd r)) = Normal css /\
    styleText (styleId (_layoutType this) (BreakPointProperty.alias (deref bp this)))
      (shadowRoot (snd r))
    = Some (styleBlock css (BreakPointProperty.mediaQuery (deref bp this))).
Proof.
  cbv zeta. intros Hdef Hreg Htot. rewrite callback_eq. cbv zeta.
  set (prop := fst (decode name)) in *. set (alias := snd (decode name)) in *.
  set (bp := resolve alias this) in *.
  destruct (findIndexByName_defined prop _ Hdef) as [found Hfound]. rewrite Hfound.
  pose proof (resolve_valid alias this) as Hv. fold bp in Hv.
  set (this2 := trackChange prop alias oldValue newValue (registerProperty bp prop found this)).
  destruct (rebuild_spec hasAttribute bp alias this2)
    as (c & this' & Hr & Hsame & Hcase).
  rewrite Hr. cbn [fst snd]. cbv zeta in Hcase.
  assert (Hd : deref bp this2 =
               match found with
               | Some _ => deref bp this
               | None => BreakPointProperty.push (findByName prop (_properties this))
                           (deref bp this)
               end) by (unfold this2; now apply deref_tracked).
  assert (Hd' : deref bp this' = deref bp this2).
  { destruct Hsame as (Hb & _ & Hab & _). now apply deref_same_config. }
  assert (Ha : BreakPointProperty.alias (deref bp this2)
               = BreakPointProperty.alias (deref bp this))
    by (rewrite Hd; now destruct found).
  assert (Hm : BreakPointProperty.mediaQuery (deref bp this2)
               = BreakPointProperty.mediaQuery (deref bp this))
    by (rewrite Hd; now destruct found).
  assert (Hl : _layoutType this2 = _layoutType this) by apply layoutType_tracked.
  unfold isRegistered in Hreg.
  destruct (findByName prop (_properties this)) as [q|] eqn:Eq; [|discriminate].
  destruct (buildCssOf_returns (tracked this2) (BreakPointProperty.alias (deref bp this2))
              (BreakPointProperty.properties (deref bp this2))
              (hasAttribute (inlineAttrOf (BreakPointProperty.alias (deref bp this2))))
              (_layoutType this2) (truthy alias)) as [css Hcss].
  - rewrite Hd. destruct found; cbn; auto.
    rewrite in_app_iff. intros [H|[H|[]]]; [auto|discriminate].
  - intros p v Hp Hc. apply Htot; [|exact Hc]. rewrite Hd in Hp.
    destruct found; cbn in Hp; auto.
    apply in_app_iff in Hp as [Hp|[[= <-]|[]]]; auto.
    right. eapply findByName_In; eauto.
  - rewrite Hcss in Hcase. destruct Hcase as [-> Hst].
    split; [reflexivity|]. split.
    + rewrite Hd', Hd. destruct found as [i|].
      * apply findIndexByName_Some in Hfound as (p & Hp & <-). now apply In_namesOf.
      * cbn. rewrite namesOf_app. apply in_app_iff. right. cbn.
        left. now apply findByName_name in Eq.
    + exists css. split.
      * destruct (_buildCss_spec (BreakPointProperty.alias (deref bp this))
                    (BreakPointProperty.properties (deref bp this'))
                    (hasAttribute (inlineAttrOf (BreakPointProperty.alias (deref bp this))))
                    (_layoutType this) (truthy alias) this') as (s & -> & _).
        cbn [fst]. rewrite Hd', <- Ha, <- Hl, <- Hcss.
        apply buildCssOf_agree. apply reads_agree_pointwise.
        destruct Hsame as (_&_&_&_&H). exact H.
      * rewrite Hst, Ha, Hl, Hm, String.eqb_refl. reflexivity.
Qed.

Lemma known_property_processed_witness :
  fst (attributeChangedCallback Sample.noAttribute "fill-sm" None (Some "1")
         Sample.flexLayout) = Normal tt /\
  In "fill" (namesOf (BreakPointProperty.properties
                        (deref (InRegistry 0)
                           (snd (attributeChangedCallback Sample.noAttribute "fill-sm" None
                                   (Some "1") Sample.flexLayout))))).
Proof.
  destruct (known_property_processed Sample.noAttribute "fill-sm" None (Some "1")
              Sample.flexLayout) as (H1 & H2 & _).
  - vm_compute. intros [].
  - vm_compute. reflexivity.
  - intros p v a [H|[<-|[<-|[]]]] Hc; [vm_compute in H; destruct H|discriminate|discriminate].
  - split; [exact H1|exact H2].
Defined.

(** ** The two lookups *)

Lemma findIndex_first {A} (f : A -> bool) l i :
  findIndex f l = Some i ->
  forall j x, (j < i)%nat -> l !! j = Some x -> f x = false.
Proof.
  revert i. induction l as [|a r IH]; intros i; cbn [findIndex]; [discriminate|].
  destruct (f a) eqn:E.
  - intros [= <-] j x Hj. lia.
  - destruct (findIndex f r) as [k|]; cbn; [|discriminate].
    intros [= <-] [|j] x Hj; cbn.
    + now intros [= <-].
    + apply (IH k eq_refl). lia.
Qed.

(** X18.  [_getBreakpointByAlias] returns without changing the instance.
    It answers the first breakpoint of the registry that carries the alias,
    so that of two breakpoints with one alias the second is never used, and
    the synthetic breakpoint when no breakpoint of the registry carries the
    alias. *)
Theorem getBreakpointByAlias_first alias this :
  exists r,
    _getBreakpointByAlias alias this = (Normal r, this) /\
    match r with
    | InRegistry i =>
        exists bp, _breakpoints this !! i = Some bp /\
                   BreakPointProperty.alias bp = alias /\
                   forall j b, (j < i)%nat -> _breakpoints this !! j = Some b ->
                               BreakPointProperty.alias b <> alias
    | AllBreakpoint =>
        forall b, In b (_breakpoints this) -> BreakPointProperty.alias b <> alias
    end.
Proof.
  unfold _getBreakpointByAlias.
  destruct (findIndex _ (_breakpoints this)) as [i|] eqn:E.
  - exists (InRegistry i). split; [reflexivity|].
    destruct (findIndex_Some _ _ _ E) as (bp & Hbp & Hf). exists bp.
    split; [exact Hbp|]. split; [now apply String.eqb_eq|].
    intros j b Hj Hb. pose proof (findIndex_first _ _ _ E j b Hj Hb) as H.
    now apply String.eqb_neq in H.
  - exists AllBreakpoint. split; [reflexivity|].
    intros b Hb. pose proof (findIndex_None _ _ b E Hb) as H.
    now apply String.eqb_neq in H.
Qed.

Lemma findIndexByName_lookup prop l i :
  findIndexByName prop l = Normal (Some i) ->
  exists p, l !! i = Some (Some p) /\ Property.name p = prop.
Proof.
  revert i. induction l as [|[p|] r IH]; intros i; cbn [findIndexByName]; try discriminate.
  destruct (String.eqb_spec (Property.name p) prop) as [Heq|Hne].
  - intros [= <-]. eauto.
  - destruct (findIndexByName prop r) as [[k|]|]; cbn; try discriminate.
    intros [= <-]. destruct (IH k eq_refl) as (q & ? & ?). eauto.
Qed.

(** X19.  On a breakpoint whose active list holds descriptors only,
    [_getPropertyByName] returns without changing the instance.  The flag
    it returns is false exactly when the active list holds the name, and
    the descriptor is then one of the active list; otherwise the descriptor
    is the first of the registry with the name, and [undefined] when the
    registry has none.  A descriptor it returns carries the name asked
    for. *)
Theorem getPropertyByName_result bp prop this :
  ~ In None (BreakPointProperty.properties (deref bp this)) ->
  exists property newProp,
    _getPropertyByName bp prop this = (Normal (property, newProp), this) /\
    (forall p, property = Some p -> Property.name p = prop) /\
    (newProp = false <-> In prop (namesOf (BreakPointProperty.properties (deref bp this)))) /\
    (newProp = false ->
     exists p, property = Some p /\
               In (Some p) (BreakPointProperty.properties (deref bp this))) /\
    (newProp = true -> property = findByName prop (_properties this)) /\
    (property = None <->
     newProp = true /\ forall p, In p (_properties this) -> Property.name p <> prop).
Proof.
  intros Hdef. unfold _getPropertyByName.
  destruct (findIndexByName_defined prop _ Hdef) as [[i|] Ef]; rewrite Ef.
  - destruct (findIndexByName_lookup _ _ _ Ef) as (p & Hp & Hn).
    exists (Some p), false. rewrite Hp. cbn. split; [reflexivity|].
    assert (Hin : In (Some p) (BreakPointProperty.properties (deref bp this))).
    { apply list_elem_of_In. eapply list_elem_of_lookup_2; eauto. }
    split; [now intros q [= <-]|]. split.
    { split; [intros _|reflexivity]. rewrite <- Hn. now apply In_namesOf. }
    split; [eauto|]. split; [discriminate|].
    split; [discriminate|]. intros [? _]. discriminate.
  - exists (findByName prop (_properties this)), true. split; [reflexivity|].
    split; [intros p Hp; eapply findByName_name; eauto|]. split.
    { split; [discriminate|]. intros Hin. exfalso.
      eapply findIndexByName_None; eauto. }
    split; [discriminate|]. split; [reflexivity|]. split.
    + intros Hnone. split; [reflexivity|]. intros p Hp Hname.
      unfold findByName in Hnone.
      apply (find_none _ _ Hnone) in Hp. apply String.eqb_neq in Hp. contradiction.
    + intros [_ H]. now apply findByName_None.
Qed.

Lemma getPropertyByName_result_witness :
  exists property newProp,
    _getPropertyByName AllBreakpoint "fill" Sample.flexLayout
      = (Normal (property, newProp), Sample.flexLayout) /\
    (newProp = true -> property = findByName "fill" (_properties Sample.flexLayout)).
Proof.
  destruct (getPropertyByName_result AllBreakpoint "fill" Sample.flexLayout)
    as (property & newProp & H1 & _ & _ & _ & H2 & _).
  - vm_compute. intros [].
  - exists property, newProp. split; [exact H1|exact H2].
Defined.

(** ** Connection *)

(** ** The replay *)

Lemma countOf_added m x v :
  countOf (updateCounts m None (Some x)) v = countOf m v + ind (Some x) v.
Proof.
  unfold updateCounts, countOf, ind.
  destruct (String.eqb_spec x v) as [->|Hne].
  - rewrite get_set_eq. cbn. destruct (JsMap.get m v) as [c|]; cbn; [|reflexivity].
    destruct (Z.eqb_spec c 0); lia.
  - rewrite get_set_ne by exact Hne. lia.
Qed.


(** A call that returns has updated the map of the decoded property and
    alias, and no other. *)
Lemma callback_normal_tracked hasAttribute name oldValue newValue this k :
  fst (attributeChangedCallback hasAttribute name oldValue newValue this) = Normal tt ->
  valuesAt k (snd (attributeChangedCallback hasAttribute name oldValue newValue this)) =
    let key := trackerKey (fst (decode name)) (snd (decode name)) in
    if String.eqb key k then updateCounts (valuesAt key this) oldValue newValue
    else valuesAt k this.
Proof.
  cbv zeta. rewrite callback_eq. cbv zeta.
  destruct (findIndexByName _ _) as [found|]; [|discriminate].
  intros _.
  match goal with |- context [rebuild ?h ?bp ?a ?st] =>
    destruct (rebuild_spec h bp a st) as (c & this' & Hr & (_&_&_&_&Hv) & _) end.
  rewrite Hr. simpl. rewrite Hv. unfold trackChange.
  rewrite valuesAt_setValuesAt, !valuesAt_registerProperty. reflexivity.
Qed.

Lemma callback_keeps_properties hasAttribute name oldValue newValue this :
  _properties (snd (attributeChangedCallback hasAttribute name oldValue newValue this))
  = _properties this.
Proof. exact (deliver_properties this (mkChange 0 name oldValue newValue hasAttribute)). Qed.

Lemma replay_properties doc names child b :
  _properties (snd (replay doc names child b)) = _properties b.
Proof.
  unfold replay. revert b. induction names as [|n r IH]; intros b; [reflexivity|].
  cbn [forEach]. unfold bind at 1.
  destruct (hasAttributeOf doc child n).
  - pose proof (callback_keeps_properties (hostHas doc) n None (getAttribute doc child n) b) as Hp.
    destruct (attributeChangedCallback _ _ _ _ b) as [[[]|] b']; cbn [snd] in *.
    + now rewrite IH.
    + exact Hp.
  - apply IH.
Qed.

Lemma replay_counts doc names child b key v :
  fst (replay doc names child b) = Normal tt ->
  countOf (valuesAt key (snd (replay doc names child b))) v
  = countOf (valuesAt key b) v + replayedBy names (attributesOf doc child) key v.
Proof.
  unfold replay. revert b. induction names as [|n r IH]; intros b; cbn [forEach replayedBy fold_right].
  - intros _. cbn. lia.
  - unfold bind at 1 2.
    change (hasAttributeOf doc child n)
      with (match JsMap.get (attributesOf doc child) n with Some _ => true | None => false end).
    change (getAttribute doc child n) with (JsMap.get (attributesOf doc child) n).
    destruct (JsMap.get (attributesOf doc child) n) as [x|] eqn:Eg.
    + pose proof (callback_normal_tracked (hostHas doc) n None (Some x) b) as Ht.
      destruct (attributeChangedCallback _ _ _ _ b) as [[[]|] b']; cbn [fst snd] in *;
        [|discriminate].
      intros Hn. rewrite (IH b' Hn). fold (replayedBy r (attributesOf doc child) key v).
      rewrite (Ht key eq_refl). cbv zeta.
      destruct (String.eqb _ key) eqn:Ek.
      * apply String.eqb_eq in Ek. rewrite <- Ek at 2. rewrite countOf_added.
        rewrite Ek. lia.
      * lia.
    + intros Hn. cbn [ret]. rewrite (IH b Hn).
      fold (replayedBy r (attributesOf doc child) key v).
      cbn [ind]. destruct (String.eqb _ key); lia.
Qed.

Lemma alter_snoc {A : Type} (f : A -> A) (l : list A) (x : A) :
  alter f (length l) (l ++ [x])%list = (l ++ [f x])%list.
Proof. induction l as [|a r IH]; cbn; [reflexivity|]. f_equal. exact IH. Qed.

(** The outer loop on an element whose current observer is the last one
    created. *)
Lemma connectChildren_spec doc names children pre ts b :
  let r := connectChildren doc names children (mkElement b (Some (length pre)) (pre ++ [ts])%list) in
  _childObserver (snd r) = Some (length pre) /\
  _properties (base (snd r)) = _properties b /\
  (exists k, observers (snd r) = (pre ++ [ts ++ take k children])%list /\
             (k <= length children)%nat /\
             (fst r = Normal tt <-> k = length children)) /\
  (fst r = Normal tt ->
   forall key v,
     countOf (valuesAt key (base (snd r))) v
     = countOf (valuesAt key b) v
       + fold_right (fun child n => replayedBy names (attributesOf doc child) key v + n)
           0 children).
Proof.
  cbv zeta. revert ts b. induction children as [|child rest IH]; intros ts b.
  - cbn. repeat split; auto; try lia.
    exists 0%nat. cbn. rewrite app_nil_r. repeat split; auto.
  - cbn [connectChildren base].
    pose proof (replay_properties doc names child b) as Hp.
    pose proof (replay_counts doc names child b) as Hc.
    destruct (replay doc names child b) as [[[]|] b1]; cbn [fst snd] in *.
    + unfold observe, with_base. cbn [_childObserver base observers].
      rewrite alter_snoc.
      destruct (IH (ts ++ [child])%list b1) as (Ho & Hq & (k & Hk & Hle & Hiff) & Hcnt).
      split; [exact Ho|]. split; [congruence|]. split.
      * exists (S k). split; [|split].
        -- rewrite Hk. cbn [take firstn]. now rewrite <- app_assoc.
        -- cbn [length]. lia.
        -- rewrite Hiff. cbn [length]. lia.
      * intros Hn key v. rewrite (Hcnt Hn key v), (Hc key v eq_refl).
        cbn [fold_right]. lia.
    + split; [reflexivity|]. split; [exact Hp|]. split.
      * exists 0%nat. cbn. rewrite app_nil_r. repeat split; try lia; discriminate.
      * discriminate.
Qed.

(** [connectedCallback], from the loop over the children. *)
Lemma connectedCallback_spec getProps doc e :
  let r := connectedCallback getProps doc e in
  _childObserver (snd r) = Some (length (observers e)) /\
  _properties (base (snd r)) = _properties (base e) /\
  (exists k, observers (snd r) = (observers e ++ [take k (hostChildren doc)])%list /\
             (k <= length (hostChildren doc))%nat /\
             (fst r = Normal tt <-> k = length (hostChildren doc))) /\
  (fst r = Normal tt ->
   forall key v,
     countOf (valuesAt key (base (snd r))) v
     = countOf (valuesAt key (base e)) v
       + replayed (childrenPropsBpsOf getProps (base e)) doc key v).
Proof.
  exact (connectChildren_spec doc
           (getProps (List.filter Property.child (_properties (base e))))
           (hostChildren doc) (observers e) [] (base e)).
Qed.



(** X15.  A connection creates a new observer and makes it the current
    one; the earlier observers keep what they observe.  The new observer
    observes a prefix of the children of the host, in order: all of them
    when the connection returns, and fewer when a replayed attribute made it
    throw, so that the children after the throwing one are not observed. *)
Theorem connect_observes getProps doc e :
  let r := connectedCallback getProps doc e in
  _childObserver (snd r) = Some (length (observers e)) /\
  exists k,
    observers (snd r) = (observers e ++ [take k (hostChildren doc)])%list /\
    (k <= length (hostChildren doc))%nat /\
    (fst r = Normal tt <-> k = length (hostChildren doc)).
Proof.
  cbv zeta.
  destruct (connectedCallback_spec getProps doc e) as (Ho & _ & Hk & _).
  cbv zeta in Ho, Hk. split; [exact Ho|exact Hk].
Qed.



(** ** Batches of mutation records *)


